(** * Gallery Pro: gallery state and playback engine

    A shallow embedding of the gallery viewer's script (classes [GalleryDB],
    [GalleryManager], [Gallery] and [App]) and the properties of its
    ordering, shuffle, random navigation, reselection, persistence and
    import-naming logic.

    Conventions of the embedding.
    - JavaScript numbers that hold indices, timestamps and orders are [Z];
      [-1] is the "none" sentinel exactly as in the script.
    - An awaited host call either resolves with a value or rejects; a
      rejection surfaces as a thrown exception ([Throw]) that runs through
      the script's [try]/[catch] blocks as written.
    - The host (permission prompts, folder contents, [Math.random], the
      IndexedDB connection) is a record of oracles [Host]; what the script
      mutates outside its own objects (the object store, the table of live
      object URLs, the number of random draws, the log of permission calls,
      the files written) is the record [World].
    - Operations run one after the other (the script is single threaded and
      the model takes every [async] method as one uninterrupted run).
    - DOM updates (tabs, thumbnails, buttons, alerts, console) carry no
      state of the engine and are left out.
    - Strings are sequences of 8-bit characters. [toLowerCase] changes the
      letters A to Z and nothing else, which is what the script's does on
      text of ASCII characters ([isAscii]). *)

From Stdlib Require Import ZArith QArith Qround String Ascii List Lia Permutation Sorted.
From stdpp Require Import base list gmap strings.

Open Scope Z_scope.

(** ** JavaScript string primitives used by the script *)

Module JsString.

(** [s.split(sep)] for a one-character separator: never empty. *)
Fixpoint split (sep : ascii) (s : string) : list string :=
  match s with
  | EmptyString => [EmptyString]
  | String c s' =>
      if Ascii.eqb c sep then EmptyString :: split sep s'
      else match split sep s' with
           | h :: t => String c h :: t
           | [] => [String c EmptyString]
           end
  end.

(** [arr.pop()] as a value: the last element, [undefined] on []. *)
Definition pop (l : list string) : option string := last l.

Definition lowerChar (c : ascii) : ascii :=
  let n := nat_of_ascii c in
  if ((65 <=? n)%nat && (n <=? 90)%nat)%bool then ascii_of_nat (n + 32) else c.

Fixpoint toLowerCase (s : string) : string :=
  match s with
  | EmptyString => EmptyString
  | String c s' => String (lowerChar c) (toLowerCase s')
  end.


(** [s.includes(c)], equivalently [s.indexOf(c) !== -1]. *)
Fixpoint includes (c : ascii) (s : string) : bool :=
  match s with
  | EmptyString => false
  | String d s' => if Ascii.eqb d c then true else includes c s'
  end.

Definition startsWith (p s : string) : bool := String.prefix p s.

(** [s.replace(/[...]/g, r)] for a character class [cls]. *)
Fixpoint replaceClass (cls : ascii -> bool) (r : ascii) (s : string) : string :=
  match s with
  | EmptyString => EmptyString
  | String c s' => String (if cls c then r else c) (replaceClass cls r s')
  end.

(** Truthiness of a possibly missing string: [null] and [""] are falsy. *)
Definition truthy (o : option string) : option string :=
  match o with
  | Some EmptyString => None
  | _ => o
  end.

(** [a || b] on possibly missing strings. *)
Definition or_else (a b : option string) : option string :=
  match truthy a with
  | Some s => Some s
  | None => b
  end.

End JsString.

(** ** JavaScript arrays as lists *)

Module JsArray.
Section Ops.
Context {A : Type}.

(** [arr[i]]: [undefined] outside [0 .. length-1]. *)
Definition at_ (l : list A) (i : Z) : option A :=
  if i <? 0 then None else l !! Z.to_nat i.

(** The start position [splice] computes from its first argument. *)
Definition relativeStart (l : list A) (start : Z) : nat :=
  let len := Z.of_nat (length l) in
  Z.to_nat (if start <? 0 then Z.max (len + start) 0 else Z.min start len).

(** [arr.splice(start, 1)]. *)
Definition spliceDelete1 (l : list A) (start : Z) : list A :=
  let k := relativeStart l start in
  take k l ++ drop (S k) l.

(** [arr.splice(start, 0, x)]. *)
Definition spliceInsert (l : list A) (start : Z) (x : A) : list A :=
  let k := relativeStart l start in
  take k l ++ x :: drop k l.

(** [[arr[i], arr[j]] = [arr[j], arr[i]]] for two positions of the array. *)
Definition swap (l : list A) (i j : nat) : list A :=
  match l !! i, l !! j with
  | Some xi, Some xj => <[j := xi]> (<[i := xj]> l)
  | _, _ => l
  end.

(** [arr.sort(cmp)]: the sort is stable; an element moves behind another
    only when the comparator is positive. *)
Fixpoint sortInsert (cmp : A -> A -> Z) (x : A) (l : list A) : list A :=
  match l with
  | [] => [x]
  | y :: t => if 0 <? cmp x y then y :: sortInsert cmp x t else x :: y :: t
  end.

Definition sort (cmp : A -> A -> Z) (l : list A) : list A :=
  foldr (sortInsert cmp) [] l.

(** [arr.forEach((g, idx) => ...)] rebuilding each element from its index. *)
Definition mapIndexed (f : Z -> A -> A) (l : list A) : list A :=
  imap (fun i x => f (Z.of_nat i) x) l.
End Ops.
End JsArray.

(** ** Completions and the state monad of the script *)

Inductive Completion (A : Type) : Type :=
| Normal (a : A)
| Throw (err : string).
Arguments Normal {A} a.
Arguments Throw {A} err.

Definition M (St A : Type) : Type := St -> Completion A * St.

Definition ret {St A} (a : A) : M St A := fun s => (Normal a, s).

Definition throw {St A} (err : string) : M St A := fun s => (Throw err, s).

Definition bind {St A B} (m : M St A) (k : A -> M St B) : M St B :=
  fun s =>
    match m s with
    | (Normal a, s') => k a s'
    | (Throw e, s') => (Throw e, s')
    end.

(** [try { m } catch (err) { handler err }]: effects made before the throw stay. *)
Definition try_catch {St A} (m : M St A) (handler : string -> M St A) : M St A :=
  fun s =>
    match m s with
    | (Normal a, s') => (Normal a, s')
    | (Throw e, s') => handler e s'
    end.

Definition get {St} : M St St := fun s => (Normal s, s).
Definition modify {St} (f : St -> St) : M St unit := fun s => (Normal tt, f s).

Declare Scope js_scope.
Delimit Scope js_scope with js.
Notation "'let*' x ':=' m 'in' k" := (bind m (fun x => k))
  (at level 10, x pattern, m at level 100, k at level 200) : js_scope.
Notation "m ';;' k" := (bind m (fun _ => k))
  (at level 100, k at level 200, right associativity) : js_scope.
Open Scope js_scope.

(** [for (const x of l) { body x }] *)
Fixpoint for_of {St A} (l : list A) (body : A -> M St unit) : M St unit :=
  match l with
  | [] => ret tt
  | x :: t => body x ;; for_of t body
  end.

(** ** Host objects *)

(** A [FileSystemDirectoryHandle] chosen by the user: an opaque capability. *)
Definition Handle := nat.

(** An object URL handed out by [URL.createObjectURL]. *)
Definition ObjectURL := nat.

Inductive MediaType := image | video.

Inductive PermissionState := granted | denied | prompt.

(** [opts.mode]: ['readwrite'] when set, the API's default ['read'] otherwise. *)
Inductive Mode := read | readwrite.

(** How an awaited host promise settles. *)
Inductive Outcome (A : Type) : Type :=
| Resolved (a : A)
| Rejected (reason : string).
Arguments Resolved {A} a.
Arguments Rejected {A} reason.

Module File.
Record t := mk {
  name : string;
  type : string;
  lastModified : Z;
}.
End File.

(** What [dirHandle.values()] yields: file handles (with the way their
    [getFile()] settles) and sub-directory handles with their own entries.
    An enumeration that fails midway is caught by [scanDirectoryRecursive],
    which returns the files found so far: it is the scan of the listing cut
    at that point. *)
#[warnings="-register-all"]
Inductive FsEntry :=
| FileHandle (name : string) (getFile : Outcome File.t)
| DirectoryHandle (name : string) (entries : list FsEntry).

(** A number returned by [Math.random()]: at least 0 and below 1. *)
Record UnitSample := mkSample {
  sample : Q;
  sample_range : (Qle_bool 0 sample && negb (Qle_bool 1 sample))%bool = true;
}.

Inductive StoreRequest :=
| PutRequest (id : Z)
| GetAllRequest
| DeleteRequest (id : Z).

Record Host := mkHost {
  queryPermission : Handle -> Mode -> Outcome PermissionState;
  requestPermission : Handle -> Mode -> Outcome PermissionState;
  (** the entries of a chosen folder *)
  values : Handle -> list FsEntry;
  (** the value of the n-th call of [Math.random()] *)
  Math_random : nat -> UnitSample;
  (** the value of [new Date().toISOString()] at the n-th reading of the clock *)
  toISOString : nat -> string;
  (** whether opening the IndexedDB transaction for a request throws *)
  transactionThrows : StoreRequest -> bool;
  (** whether creating and writing a file of that name in a directory throws *)
  writeThrows : Handle -> string -> bool;
}.

Inductive PermissionCall :=
| QueryPermission (h : Handle) (mode : Mode)
| RequestPermission (h : Handle) (mode : Mode).

(** A record of the object store, as [saveGallery] writes it. Records written
    by an earlier version of the script may lack [isShuffled] and [order]. *)
Module StoredGallery.
Record t := mk {
  id : Z;
  name : string;
  directoryHandle : Handle;
  isShuffled : option bool;
  order : option Z;
}.
End StoredGallery.

Record World := mkWorld {
  (** the object store, keyed by [id], in ascending key order *)
  store : list StoredGallery.t;
  (** object URLs created and not yet revoked *)
  objectURLs : gset ObjectURL;
  nextObjectURL : ObjectURL;
  (** number of [Math.random()] calls made so far *)
  randomCalls : nat;
  (** number of readings of the clock made so far *)
  clockReads : nat;
  (** permission calls made so far, oldest first *)
  permissionCalls : list PermissionCall;
  (** files created in a directory by the script: handle, file name, content
      (when they show up in the folder's listing is the host's business) *)
  writtenFiles : list (Handle * string * File.t);
}.

Definition set_store (f : list StoredGallery.t -> list StoredGallery.t) (w : World) : World :=
  mkWorld (f (store w)) (objectURLs w) (nextObjectURL w) (randomCalls w) (clockReads w)
          (permissionCalls w) (writtenFiles w).

Definition set_objectURLs (f : gset ObjectURL -> gset ObjectURL) (w : World) : World :=
  mkWorld (store w) (f (objectURLs w)) (nextObjectURL w) (randomCalls w) (clockReads w)
          (permissionCalls w) (writtenFiles w).

Definition set_nextObjectURL (f : ObjectURL -> ObjectURL) (w : World) : World :=
  mkWorld (store w) (objectURLs w) (f (nextObjectURL w)) (randomCalls w) (clockReads w)
          (permissionCalls w) (writtenFiles w).

Definition set_randomCalls (f : nat -> nat) (w : World) : World :=
  mkWorld (store w) (objectURLs w) (nextObjectURL w) (f (randomCalls w)) (clockReads w)
          (permissionCalls w) (writtenFiles w).

Definition set_clockReads (f : nat -> nat) (w : World) : World :=
  mkWorld (store w) (objectURLs w) (nextObjectURL w) (randomCalls w) (f (clockReads w))
          (permissionCalls w) (writtenFiles w).

Definition set_permissionCalls (f : list PermissionCall -> list PermissionCall) (w : World) : World :=
  mkWorld (store w) (objectURLs w) (nextObjectURL w) (randomCalls w) (clockReads w)
          (f (permissionCalls w)) (writtenFiles w).

Definition set_writtenFiles
    (f : list (Handle * string * File.t) -> list (Handle * string * File.t)) (w : World) : World :=
  mkWorld (store w) (objectURLs w) (nextObjectURL w) (randomCalls w) (clockReads w)
          (permissionCalls w) (f (writtenFiles w)).

(** Run an operation on the world inside a method whose state also holds
    the object [this]. *)
Definition liftWorld {X A} (m : M World A) : M (X * World) A :=
  fun s => let '(c, w') := m (snd s) in (c, (fst s, w')).

Definition getThis {X} : M (X * World) X := fun s => (Normal (fst s), s).

Definition setThis {X} (f : X -> X) : M (X * World) unit :=
  fun s => (Normal tt, (f (fst s), snd s)).

Module Web.
Section WithHost.
Context (host : Host).

(** [await settle]: a rejection is thrown at the [await]. *)
Definition await {St A} (o : Outcome A) : M St A :=
  match o with
  | Resolved a => ret a
  | Rejected e => throw e
  end.

Definition callQueryPermission (h : Handle) (mode : Mode) : M World PermissionState :=
  modify (set_permissionCalls (fun log => log ++ [QueryPermission h mode])) ;;
  await (queryPermission host h mode).

Definition callRequestPermission (h : Handle) (mode : Mode) : M World PermissionState :=
  modify (set_permissionCalls (fun log => log ++ [RequestPermission h mode])) ;;
  await (requestPermission host h mode).

(** [URL.createObjectURL(file)]: a fresh URL, live until revoked. *)
Definition createObjectURL (f : File.t) : M World ObjectURL :=
  let* w := get in
  let u := nextObjectURL w in
  modify (set_objectURLs (fun live => {[u]} ∪ live)) ;;
  modify (set_nextObjectURL S) ;;
  ret u.

(** [URL.revokeObjectURL(url)] *)
Definition revokeObjectURL (u : ObjectURL) : M World unit :=
  modify (set_objectURLs (fun live => live ∖ {[u]})).

(** [Math.floor(Math.random() * n)] and the world after the draw. *)
Definition nextRandomFloor (n : Z) (w : World) : Z * World :=
  (Qfloor (sample (Math_random host (randomCalls w)) * inject_Z n),
   set_randomCalls S w).

Definition randomFloor (n : Z) : M World Z :=
  fun w => let '(j, w') := nextRandomFloor n w in (Normal j, w').

(** [new Date().toISOString()] *)
Definition nowISOString : M World string :=
  let* w := get in
  modify (set_clockReads S) ;;
  ret (toISOString host (clockReads w)).

(** The Fisher–Yates loop, written twice in the script (in
    [Gallery.loadMedia] and in [App.shuffleGallery]) with the same body:
    [for (let i = a.length - 1; i > 0; i--) {
       const j = Math.floor(Math.random() * (i + 1));
       [a[i], a[j]] = [a[j], a[i]]; }] *)
Fixpoint shuffleFrom {A} (i : nat) (a : list A) : M World (list A) :=
  match i with
  | O => ret a
  | S i' =>
      let* j := randomFloor (Z.of_nat i + 1) in
      shuffleFrom i' (JsArray.swap a i (Z.to_nat j))
  end.

Definition shuffleInPlace {A} (a : list A) : M World (list A) :=
  shuffleFrom (length a - 1) a.

End WithHost.
End Web.

(** ** class Gallery *)

(** One element of [gallery.media]. *)
Module Media.
Record t := mk {
  name : string;
  path : string;
  url : ObjectURL;
  type : MediaType;
  file : File.t;
  lastModified : Z;
}.
End Media.

Module Gallery.

Record t := mk {
  id : Z;
  name : string;
  directoryHandle : Handle;
  media : list Media.t;
  isShuffled : bool;
  (** not set by the constructor; [createGallery], [loadFromStorage] and
      the tab drop assign it *)
  order : option Z;
}.

Definition constructor (id : Z) (name : string) (directoryHandle : Handle) : t :=
  mk id name directoryHandle [] false None.

Definition set_media (f : list Media.t -> list Media.t) (g : t) : t :=
  mk (id g) (name g) (directoryHandle g) (f (media g)) (isShuffled g) (order g).

Definition set_isShuffled (b : bool) (g : t) : t :=
  mk (id g) (name g) (directoryHandle g) (media g) b (order g).

Definition set_order (o : option Z) (g : t) : t :=
  mk (id g) (name g) (directoryHandle g) (media g) (isShuffled g) o.

(** The comparator [(a, b) => b.lastModified - a.lastModified]. *)
Definition byLastModifiedDesc (a b : Media.t) : Z :=
  Media.lastModified b - Media.lastModified a.

(** An element of the list [scanDirectoryRecursive] returns. *)
Record ScannedFile := mkScanned {
  entry_name : string;
  entry_getFile : Outcome File.t;
  scanned_path : string;
  scanned_type : MediaType;
}.

Definition supportedImage : list string :=
  [".jpg"; ".jpeg"; ".png"; ".gif"; ".webp"; ".bmp"]%string.
Definition supportedVideo : list string :=
  [".mp4"; ".webm"; ".ogg"]%string.

Definition arrayIncludes (l : list string) (s : string) : bool :=
  existsb (String.eqb s) l.

Definition joinPath (path name : string) : string :=
  match path with
  | EmptyString => name
  | _ => (path ++ "/" ++ name)%string
  end.

(** ['.' + name.split('.').pop().toLowerCase()] *)
Definition dotExtension (name : string) : string :=
  ("." ++ JsString.toLowerCase (default EmptyString (JsString.pop (JsString.split "." name))))%string.

(** The body of the loop of [scanDirectoryRecursive] for one entry; a
    directory entry is scanned in turn with the extended path. *)
Fixpoint scanEntry (path : string) (entry : FsEntry) : list ScannedFile :=
  match entry with
  | FileHandle name getFile =>
      let extension := dotExtension name in
      let isImage := arrayIncludes supportedImage extension in
      let isVideo := arrayIncludes supportedVideo extension in
      if (isImage || isVideo)%bool
      then [mkScanned name getFile (joinPath path name) (if isImage then image else video)]
      else []
  | DirectoryHandle name entries =>
      flat_map (scanEntry (joinPath path name)) entries
  end.

Definition scanDirectoryRecursive (entries : list FsEntry) (path : string) : list ScannedFile :=
  flat_map (scanEntry path) entries.

Section WithHost.
Context (host : Host).

Definition verifyPermission (directoryHandle : Handle) (withWrite : bool) : M World bool :=
  let mode := if withWrite then readwrite else read in
  let* q := Web.callQueryPermission host directoryHandle mode in
  match q with
  | granted => ret true
  | _ =>
      let* r := Web.callRequestPermission host directoryHandle mode in
      match r with
      | granted => ret true
      | _ => ret false
      end
  end.

(** The body of [for (const fileEntry of fileEntries)] with its own
    [try]/[catch]: an entry whose file cannot be read is dropped. *)
Definition loadEntry (fileEntry : ScannedFile) : M (t * World) unit :=
  try_catch
    (let* file := Web.await (entry_getFile fileEntry) in
     let* url := liftWorld (Web.createObjectURL file) in
     setThis (set_media (fun m =>
       m ++ [Media.mk (entry_name fileEntry) (scanned_path fileEntry) url
                      (scanned_type fileEntry) file (File.lastModified file)])))
    (fun _ => ret tt).

Definition loadMedia : M (t * World) unit :=
  setThis (set_media (fun _ => [])) ;;
  try_catch
    (let* this := getThis in
     let* hasPermission := liftWorld (verifyPermission (directoryHandle this) true) in
     if negb hasPermission then ret tt
     else
       let fileEntries :=
         scanDirectoryRecursive (values host (directoryHandle this)) EmptyString in
       for_of fileEntries loadEntry ;;
       setThis (set_media (JsArray.sort byLastModifiedDesc)) ;;
       let* this := getThis in
       if isShuffled this then
         let* shuffled := liftWorld (Web.shuffleInPlace host (media this)) in
         setThis (set_media (fun _ => shuffled))
       else ret tt)
    (fun _ => ret tt).

End WithHost.
End Gallery.

(** Call a method of a gallery object from a method of another object: the
    gallery comes back as the call left it. *)
Definition onGallery {X A} (g : Gallery.t) (m : M (Gallery.t * World) A)
  : M (X * World) (A * Gallery.t) :=
  fun s =>
    match m (g, snd s) with
    | (Normal a, (g', w')) => (Normal (a, g'), (fst s, w'))
    | (Throw e, (_, w')) => (Throw e, (fst s, w'))
    end.

(** ** class GalleryDB *)

Module GalleryDB.

(** [store.put(record)] on a store with key path [id]: replaces the record
    with the same key, keeps the records in key order. *)
Fixpoint put (r : StoredGallery.t) (l : list StoredGallery.t) : list StoredGallery.t :=
  match l with
  | [] => [r]
  | x :: t =>
      if StoredGallery.id r <? StoredGallery.id x then r :: x :: t
      else if StoredGallery.id r =? StoredGallery.id x then r :: t
      else x :: put r t
  end.

(** [store.delete(id)] *)
Definition delete (id : Z) (l : list StoredGallery.t) : list StoredGallery.t :=
  List.filter (fun x => negb (StoredGallery.id x =? id)) l.

(** [store.get(id)], used to state what the store holds. *)
Definition lookup (id : Z) (l : list StoredGallery.t) : option StoredGallery.t :=
  List.find (fun x => StoredGallery.id x =? id) l.

(** The object [galleryData] that [saveGallery] puts into the store. *)
Definition galleryData (gallery : Gallery.t) : StoredGallery.t :=
  StoredGallery.mk (Gallery.id gallery) (Gallery.name gallery)
                   (Gallery.directoryHandle gallery)
                   (Some (Gallery.isShuffled gallery)) (Gallery.order gallery).

Section WithHost.
Context (host : Host).

(** [this.db.transaction([this.storeName], mode)] and the request made on its
    store: throws when the connection cannot serve it. *)
Definition transaction (rq : StoreRequest) : M World unit :=
  if transactionThrows host rq then throw "InvalidStateError" else ret tt.

Definition saveGallery (gallery : Gallery.t) : M World unit :=
  transaction (PutRequest (Gallery.id gallery)) ;;
  modify (set_store (put (galleryData gallery))).

Definition loadGalleries : M World (list StoredGallery.t) :=
  transaction GetAllRequest ;;
  let* w := get in
  ret (store w).

Definition deleteGallery (id : Z) : M World unit :=
  transaction (DeleteRequest id) ;;
  modify (set_store (delete id)).

End WithHost.
End GalleryDB.

(** ** class GalleryManager *)

Module GalleryManager.

Record t := mk {
  galleries : list Gallery.t;
  activeGalleryIndex : Z;
  (** the next three fields are first assigned by [selectGallery] *)
  activeMediaIndex : Z;
  isRandomMode : bool;
  previousMediaIndex : Z;
}.

Definition set_galleries (f : list Gallery.t -> list Gallery.t) (m : t) : t :=
  mk (f (galleries m)) (activeGalleryIndex m) (activeMediaIndex m)
     (isRandomMode m) (previousMediaIndex m).

Definition set_activeGalleryIndex (i : Z) (m : t) : t :=
  mk (galleries m) i (activeMediaIndex m) (isRandomMode m) (previousMediaIndex m).

Definition set_activeMediaIndex (i : Z) (m : t) : t :=
  mk (galleries m) (activeGalleryIndex m) i (isRandomMode m) (previousMediaIndex m).

Definition set_isRandomMode (b : bool) (m : t) : t :=
  mk (galleries m) (activeGalleryIndex m) (activeMediaIndex m) b (previousMediaIndex m).

Definition set_previousMediaIndex (i : Z) (m : t) : t :=
  mk (galleries m) (activeGalleryIndex m) (activeMediaIndex m) (isRandomMode m) i.

Definition length_ (m : t) : Z := Z.of_nat (length (galleries m)).

(** [this.galleries[this.activeGalleryIndex]] *)
Definition activeGallery (m : t) : option Gallery.t :=
  JsArray.at_ (galleries m) (activeGalleryIndex m).

Definition displayMedia (index : Z) (this : t) : t :=
  match activeGallery this with
  | None => this
  | Some gallery =>
      if ((index <? 0) || (Z.of_nat (length (Gallery.media gallery)) <=? index))%bool
      then this
      else set_activeMediaIndex index this
  end.

Definition selectGallery (index : Z) (this : t) : t :=
  if ((index <? 0) || (length_ this <=? index))%bool then this
  else
    let this := set_activeGalleryIndex index this in
    let this := set_activeMediaIndex 0 this in
    let this := set_isRandomMode false this in
    let this := set_previousMediaIndex (-1) this in
    match JsArray.at_ (galleries this) index with
    | Some gallery =>
        if 0 <? Z.of_nat (length (Gallery.media gallery))
        then displayMedia 0 this
        else this
    | None => this
    end.

(** The [onclick] that [displayThumbnails] gives the thumbnail of item
    [index]: [this.isRandomMode = false; this.displayMedia(index);] *)
Definition thumbnailClick (index : Z) (this : t) : t :=
  displayMedia index (set_isRandomMode false this).

Section WithHost.
Context (host : Host).

Definition verifyPermission (directoryHandle : Handle) (withWrite : bool) : M World bool :=
  let mode := if withWrite then readwrite else read in
  let* q := Web.callQueryPermission host directoryHandle mode in
  match q with
  | granted => ret true
  | _ =>
      let* r := Web.callRequestPermission host directoryHandle mode in
      match r with
      | granted => ret true
      | _ => ret false
      end
  end.

(** The body of [for (const storedGallery of storedGalleries)]. *)
Definition loadStored (storedGallery : StoredGallery.t) : M (t * World) unit :=
  let* hasPermission :=
    liftWorld (verifyPermission (StoredGallery.directoryHandle storedGallery) true) in
  if hasPermission then
    let gallery :=
      Gallery.constructor (StoredGallery.id storedGallery)
                          (StoredGallery.name storedGallery)
                          (StoredGallery.directoryHandle storedGallery) in
    let gallery :=
      Gallery.set_isShuffled (default false (StoredGallery.isShuffled storedGallery)) gallery in
    let gallery :=
      Gallery.set_order (Some (default 0 (StoredGallery.order storedGallery))) gallery in
    let* loaded := onGallery gallery (Gallery.loadMedia host) in
    setThis (set_galleries (fun gs => gs ++ [snd loaded]))
  else ret tt.

(** The comparator [(a, b) => (a.order || 0) - (b.order || 0)]. *)
Definition bySavedOrder (a b : StoredGallery.t) : Z :=
  default 0 (StoredGallery.order a) - default 0 (StoredGallery.order b).

Definition loadFromStorage : M (t * World) unit :=
  try_catch
    (let* storedGalleries := liftWorld (GalleryDB.loadGalleries host) in
     let storedGalleries := JsArray.sort bySavedOrder storedGalleries in
     for_of storedGalleries loadStored ;;
     let* this := getThis in
     if 0 <? length_ this then setThis (selectGallery 0) else ret tt)
    (fun _ => ret tt).

Definition closeGallery (index : Z) : M (t * World) unit :=
  let* this := getThis in
  match JsArray.at_ (galleries this) index with
  | None => throw "TypeError"
  | Some gallery =>
      liftWorld (for_of (Gallery.media gallery)
                        (fun media => Web.revokeObjectURL (Media.url media))) ;;
      liftWorld (GalleryDB.deleteGallery host (Gallery.id gallery)) ;;
      setThis (set_galleries (fun gs => JsArray.spliceDelete1 gs index)) ;;
      let* this := getThis in
      if 0 <? length_ this then
        (if index <? activeGalleryIndex this
         then setThis (set_activeGalleryIndex (activeGalleryIndex this - 1))
         else if index =? activeGalleryIndex this
         then setThis (set_activeGalleryIndex (Z.min index (length_ this - 1)))
         else ret tt) ;;
        let* this := getThis in
        setThis (selectGallery (activeGalleryIndex this))
      else setThis (set_activeGalleryIndex (-1))
  end.

(** [handleTabDrop] for a drop on the tab [targetIndex] while the tab
    [draggedTabIndex] (recorded by [handleTabDragStart]) is dragged. A tab
    is identified by its [data-index], so both conjuncts of the guard
    compare the two indices. A dragged index outside the array would put
    [undefined] into the array and the order loop throws on it. *)
Definition handleTabDrop (draggedTabIndex targetIndex : Z) : M (t * World) unit :=
  if draggedTabIndex =? targetIndex then ret tt
  else
    let* this := getThis in
    match JsArray.at_ (galleries this) draggedTabIndex with
    | None => throw "TypeError"
    | Some movedGallery =>
        setThis (set_galleries (fun gs => JsArray.spliceDelete1 gs draggedTabIndex)) ;;
        setThis (set_galleries (fun gs => JsArray.spliceInsert gs targetIndex movedGallery)) ;;
        (if activeGalleryIndex this =? draggedTabIndex
         then setThis (set_activeGalleryIndex targetIndex)
         else if ((draggedTabIndex <? activeGalleryIndex this)
                  && (activeGalleryIndex this <=? targetIndex))%bool
         then setThis (set_activeGalleryIndex (activeGalleryIndex this - 1))
         else if ((activeGalleryIndex this <? draggedTabIndex)
                  && (targetIndex <=? activeGalleryIndex this))%bool
         then setThis (set_activeGalleryIndex (activeGalleryIndex this + 1))
         else ret tt) ;;
        setThis (set_galleries
                   (JsArray.mapIndexed (fun idx g => Gallery.set_order (Some idx) g))) ;;
        let* this := getThis in
        try_catch
          (liftWorld (for_of (galleries this) (GalleryDB.saveGallery host)))
          (fun _ => ret tt)
    end.

(** [createGallery(name, directoryHandle)]; [now] is what [Date.now()]
    returns at the call. *)
Definition createGallery (now : Z) (name : string) (directoryHandle : Handle)
  : M (t * World) unit :=
  let gallery := Gallery.constructor now name directoryHandle in
  let* this := getThis in
  let gallery := Gallery.set_order (Some (length_ this)) gallery in
  let* loaded := onGallery gallery (Gallery.loadMedia host) in
  let gallery := snd loaded in
  liftWorld (GalleryDB.saveGallery host gallery) ;;
  setThis (set_galleries (fun gs => gs ++ [gallery])) ;;
  let* this := getThis in
  setThis (selectGallery (length_ this - 1)).

End WithHost.

(** [new GalleryManager(db)]: an empty array and no selection; the fields
    the constructor leaves unassigned are read only once a gallery is
    active, that is after [selectGallery] has assigned them. *)
Definition constructor : t := mk [] (-1) 0 false (-1).

End GalleryManager.

(** An item of [e.clipboardData.items]. *)
Inductive ItemKind := stringItem | fileItem.

Record ClipboardItem := mkItem {
  item_kind : ItemKind;
  getAsFile : option File.t;
}.

(** ** class App

    The application object owns the database and the gallery manager; its
    methods below act on the manager's state. *)

Module App.
Import GalleryManager.

(** [getExtensionFromFileName(name)] *)
Definition getExtensionFromFileName (name : string) : option string :=
  match name with
  | EmptyString => None
  | _ =>
      if negb (JsString.includes "." name) then None
      else option_map JsString.toLowerCase (JsString.pop (JsString.split "." name))
  end.

(** The own keys of the object literal [map] of [getExtensionFromMime]. *)
Definition mimeMap : gmap string string :=
  list_to_map
    [("jpeg", "jpg"); ("png", "png"); ("webp", "webp"); ("gif", "gif");
     ("mp4", "mp4"); ("webm", "webm"); ("x-matroska", "mkv");
     ("quicktime", "mov")]%string.

(** What the literal inherits: the members of [Object.prototype]. The value
    found under such a key is a function ([__proto__]: the prototype
    object); its only use is in the template literal of the file name, so
    it is kept as the text it gives there (Chromium's, the one engine with
    the directory picker that the script needs). *)
Definition objectPrototype : gmap string string :=
  list_to_map
    [("constructor", "function Object() { [native code] }");
     ("__defineGetter__", "function __defineGetter__() { [native code] }");
     ("__defineSetter__", "function __defineSetter__() { [native code] }");
     ("hasOwnProperty", "function hasOwnProperty() { [native code] }");
     ("__lookupGetter__", "function __lookupGetter__() { [native code] }");
     ("__lookupSetter__", "function __lookupSetter__() { [native code] }");
     ("isPrototypeOf", "function isPrototypeOf() { [native code] }");
     ("propertyIsEnumerable", "function propertyIsEnumerable() { [native code] }");
     ("toString", "function toString() { [native code] }");
     ("valueOf", "function valueOf() { [native code] }");
     ("__proto__", "[object Object]");
     ("toLocaleString", "function toLocaleString() { [native code] }")]%string.

(** [map[subtype]]: an own entry, else an inherited member, else
    [undefined]. *)
Definition mapLookup (subtype : string) : option string :=
  match mimeMap !! subtype with
  | Some ext => Some ext
  | None => objectPrototype !! subtype
  end.

(** [getExtensionFromMime(mime)] *)
Definition getExtensionFromMime (mime : string) : option string :=
  match mime with
  | EmptyString => None
  | _ =>
      if negb (JsString.includes "/" mime) then None
      else
        match JsString.split "/" mime !! 1%nat with
        | None => None
        | Some afterSlash =>
            match head (JsString.split "+" afterSlash) with
            | None => None
            | Some subtype =>
                Some (default subtype (JsString.truthy (mapLookup subtype)))
            end
        end
  end.

(** [file.type.startsWith('image/') ? 'image' : file.type.startsWith('video/') ? 'video' : 'file'] *)
Definition namePrefix (mime : string) : string :=
  if JsString.startsWith "image/" mime then "image"
  else if JsString.startsWith "video/" mime then "video"
  else "file".

(** [getExtensionFromFileName(file.name) || getExtensionFromMime(file.type) || 'bin'] *)
Definition resolveExtension (file : File.t) : string :=
  default "bin"%string
    (JsString.or_else
       (JsString.or_else (getExtensionFromFileName (File.name file))
                         (getExtensionFromMime (File.type file)))
       (Some "bin"%string)).

(** The character class [[:.]]. *)
Definition colonOrDot (c : ascii) : bool :=
  (Ascii.eqb c ":" || Ascii.eqb c ".")%bool.

(** [iso.replace(/[:.]/g, '-')] *)
Definition dashed (iso : string) : string :=
  JsString.replaceClass colonOrDot "-" iso.

(** [`${prefix}${timestamp}.${ext}`] *)
Definition generatedName (file : File.t) (iso : string) : string :=
  (namePrefix (File.type file) ++ dashed iso ++ "." ++ resolveExtension file)%string.

Section WithHost.
Context (host : Host).

(** The [do ... while (randomIndex === activeMediaIndex)] loop; [fuel]
    bounds the number of draws the model follows. *)
Fixpoint drawOther (fuel : nat) (len current : Z) (w : World) : option (Z * World) :=
  match fuel with
  | O => None
  | S fuel' =>
      let '(randomIndex, w') := Web.nextRandomFloor host len w in
      if randomIndex =? current then drawOther fuel' len current w'
      else Some (randomIndex, w')
  end.

Definition selectRandomMedia (fuel : nat) (s : t * World) : option (t * World) :=
  let '(gm, w) := s in
  match activeGallery gm with
  | None => Some s
  | Some gallery =>
      let len := Z.of_nat (length (Gallery.media gallery)) in
      if len <=? 1 then Some s
      else
        let gm := set_isRandomMode true gm in
        let gm := set_previousMediaIndex (activeMediaIndex gm) gm in
        match drawOther fuel len (activeMediaIndex gm) w with
        | None => None
        | Some (randomIndex, w') => Some (displayMedia randomIndex gm, w')
        end
  end.

Definition navigateMedia (fuel : nat) (direction : Z) (s : t * World) : option (t * World) :=
  let '(gm, w) := s in
  match activeGallery gm with
  | None => Some s
  | Some gallery =>
      let len := Z.of_nat (length (Gallery.media gallery)) in
      if len =? 0 then Some s
      else if isRandomMode gm then
        if direction =? -1 then
          if (negb (previousMediaIndex gm =? -1)
              && negb (previousMediaIndex gm =? activeMediaIndex gm))%bool
          then
            let tempPrevious := previousMediaIndex gm in
            let gm := set_previousMediaIndex (-1) gm in
            Some (displayMedia tempPrevious gm, w)
          else selectRandomMedia fuel s
        else selectRandomMedia fuel s
      else
        let newIndex := activeMediaIndex gm + direction in
        let newIndex := if newIndex <? 0 then len - 1 else newIndex in
        let newIndex := if len <=? newIndex then 0 else newIndex in
        Some (displayMedia newIndex gm, w)
  end.

Definition toggleRandomMedia (fuel : nat) (s : t * World) : option (t * World) :=
  let '(gm, w) := s in
  let gm := set_isRandomMode (negb (isRandomMode gm)) gm in
  if isRandomMode gm then selectRandomMedia fuel (gm, w) else Some (gm, w).

(** Store the mutated gallery object back at its place in the array. *)
Definition updateActiveGallery (g : Gallery.t) (gm : t) : t :=
  set_galleries (fun gs => <[Z.to_nat (activeGalleryIndex gm) := g]> gs) gm.

Definition shuffleGallery : M (t * World) unit :=
  let* this := getThis in
  match activeGallery this with
  | None => ret tt
  | Some gallery =>
      if Z.of_nat (length (Gallery.media gallery)) =? 0 then ret tt
      else
        let gallery := Gallery.set_isShuffled (negb (Gallery.isShuffled gallery)) gallery in
        let* newMedia :=
          (if Gallery.isShuffled gallery
           then liftWorld (Web.shuffleInPlace host (Gallery.media gallery))
           else ret (JsArray.sort Gallery.byLastModifiedDesc (Gallery.media gallery))) in
        let gallery := Gallery.set_media (fun _ => newMedia) gallery in
        setThis (updateActiveGallery gallery) ;;
        liftWorld (GalleryDB.saveGallery host gallery) ;;
        setThis (displayMedia 0)
  end.

Definition saveFileToActiveGallery (file : File.t) : M (t * World) unit :=
  let* this := getThis in
  match activeGallery this with
  | None => throw "No active gallery selected"
  | Some gallery =>
      let* hasPerm :=
        liftWorld (Gallery.verifyPermission host (Gallery.directoryHandle gallery) true) in
      if negb hasPerm then throw "Write permission denied for gallery directory"
      else
        let* iso := liftWorld (Web.nowISOString host) in
        let filename := generatedName file iso in
        try_catch
          (if writeThrows host (Gallery.directoryHandle gallery) filename
           then throw "NotAllowedError"
           else liftWorld (modify (set_writtenFiles (fun l =>
                  l ++ [(Gallery.directoryHandle gallery, filename, file)]))))
          (fun err => throw err)
  end.

(** The rescan at the end of [handleDrop] and [handlePaste]:
    [if (gallery) { await gallery.loadMedia(); ...; displayMedia(0); }] *)
Definition refreshActiveGallery : M (t * World) unit :=
  let* this := getThis in
  match activeGallery this with
  | None => ret tt
  | Some gallery =>
      let* loaded := onGallery gallery (Gallery.loadMedia host) in
      setThis (updateActiveGallery (snd loaded)) ;;
      setThis (displayMedia 0)
  end.

(** [handleDrop] for the dropped [files]: a file that cannot be saved is
    reported and the next one is tried; then the active gallery is
    rescanned. *)
Definition handleDrop (files : list File.t) : M (t * World) unit :=
  for_of files (fun file =>
    try_catch (saveFileToActiveGallery file) (fun _ => ret tt)) ;;
  refreshActiveGallery.

(** [createGallery()] of the application, for the name typed into the form
    and the folder picked before ([this.selectedDirectoryHandle], [null]
    when none was picked):
    [if (!name || !this.selectedDirectoryHandle) { alert(...); return; }] *)
Definition createGallery (now : Z) (name : string) (selectedDirectoryHandle : option Handle)
  : M (t * World) unit :=
  match name, selectedDirectoryHandle with
  | EmptyString, _ => ret tt
  | _, None => ret tt
  | _, Some directoryHandle => GalleryManager.createGallery host now name directoryHandle
  end.

(** The files of a paste: the items of kind ['file'] whose [getAsFile()] is
    not [null]. *)
Definition pastedFiles (items : list ClipboardItem) : list File.t :=
  flat_map (fun item =>
              match item_kind item, getAsFile item with
              | fileItem, Some file => [file]
              | _, _ => []
              end) items.

(** [handlePaste(e)]; [clipboardData] is [e.clipboardData] ([None] when the
    event carries none). *)
Definition handlePaste (clipboardData : option (list ClipboardItem)) : M (t * World) unit :=
  match clipboardData with
  | None => ret tt
  | Some items =>
      let files := pastedFiles items in
      if Z.of_nat (length files) =? 0 then ret tt
      else
        for_of files (fun file =>
          try_catch (saveFileToActiveGallery file) (fun _ => ret tt)) ;;
        refreshActiveGallery
  end.

(** [handleKeyboard(e)] for the key [e.key]; [modalActive] tells whether the
    new-gallery dialog is open. The space key only plays or pauses the
    video element. *)
Definition handleKeyboard (fuel : nat) (modalActive : bool) (key : string) (s : t * World)
  : option (t * World) :=
  if modalActive then Some s
  else if activeGalleryIndex (fst s) =? -1 then Some s
  else if String.eqb key "ArrowRight" then navigateMedia fuel 1 s
  else if String.eqb key "ArrowLeft" then navigateMedia fuel (-1) s
  else if String.eqb key "r" then selectRandomMedia fuel s
  else Some s.

End WithHost.
End App.

(** * Notions used to state the properties *)

(** The order a sort by a numeric key produces. *)
Definition ascendingBy {A} (key : A -> Z) (a b : A) : Prop := key a <= key b.

(** The world after [k] more calls of [Math.random()]. *)
Definition advanceRandom (k : nat) (w : World) : World :=
  set_randomCalls (fun n => (k + n)%nat) w.

(** The index the [n]-th call of [Math.random()] gives for a bound [len]. *)
Definition drawnIndex (host : Host) (len : Z) (n : nat) : Z :=
  Qfloor (sample (Math_random host n) * inject_Z len).

(** The array the Fisher–Yates loop leaves when its first draw is the
    [k]-th call of [Math.random()]. *)
Fixpoint fisherYates {A} (host : Host) (i : nat) (a : list A) (k : nat) : list A :=
  match i with
  | O => a
  | S i' =>
      fisherYates host i' (JsArray.swap a i (Z.to_nat (drawnIndex host (Z.of_nat i + 1) k))) (S k)
  end.

(** The gallery object after the shuffle branch of [shuffleGallery] when the
    first draw is the [k]-th call of [Math.random()]. *)
Definition shuffledGallery (host : Host) (k : nat) (g : Gallery.t) : Gallery.t :=
  Gallery.set_media
    (fun _ => fisherYates host (length (Gallery.media g) - 1) (Gallery.media g) k)
    (Gallery.set_isShuffled true g).

(** The gallery object after the re-sort branch of [shuffleGallery]. *)
Definition unshuffledGallery (g : Gallery.t) : Gallery.t :=
  Gallery.set_media
    (fun _ => JsArray.sort Gallery.byLastModifiedDesc (Gallery.media g))
    (Gallery.set_isShuffled false g).


(** * A small library used to instantiate the properties

    One folder with three readable files, three galleries, a host that
    grants every permission, and a [Math.random] that alternates between
    [0] and [1/2]. *)

Module Demo.

Definition fileA : File.t := File.mk "A.jpg" "image/jpeg" 100.
Definition fileB : File.t := File.mk "B.png" "image/png" 300.
Definition fileC : File.t := File.mk "C.webm" "video/webm" 200.

Definition mediaA : Media.t := Media.mk "A.jpg" "A.jpg" 0%nat image fileA 100.
Definition mediaB : Media.t := Media.mk "B.png" "B.png" 1%nat image fileB 300.
Definition mediaC : Media.t := Media.mk "C.webm" "C.webm" 2%nat video fileC 200.

Definition folder : list FsEntry :=
  [FileHandle "A.jpg" (Resolved fileA);
   FileHandle "B.png" (Resolved fileB);
   FileHandle "C.webm" (Resolved fileC)].

Definition zero : UnitSample := mkSample 0 eq_refl.
Definition half : UnitSample := mkSample (1 # 2) eq_refl.

Definition host : Host :=
  mkHost (fun _ _ => Resolved granted)
         (fun _ _ => Resolved granted)
         (fun _ => folder)
         (fun n => if Nat.even n then zero else half)
         (fun _ => "2024-01-15T10:30:45.123Z"%string)
         (fun _ => false)
         (fun _ _ => false).

(** A host that answers "prompt" to every query and refuses to prompt, as a
    browser does for a request made without a user gesture. *)
Definition strictHost : Host :=
  mkHost (fun _ _ => Resolved prompt)
         (fun _ _ => Rejected "SecurityError")
         (fun _ => folder)
         (fun n => if Nat.even n then zero else half)
         (fun _ => "2024-01-15T10:30:45.123Z"%string)
         (fun _ => false)
         (fun _ _ => false).

(** A host on which the query for folder 9 rejects (the folder is gone). *)
Definition moodyHost : Host :=
  mkHost (fun h _ => if (h =? 9)%nat then Rejected "NotFoundError" else Resolved granted)
         (fun _ _ => Resolved granted)
         (fun _ => folder)
         (fun n => if Nat.even n then zero else half)
         (fun _ => "2024-01-15T10:30:45.123Z"%string)
         (fun _ => false)
         (fun _ _ => false).

(** A host that grants the folders 7 and 9 and denies every other one. *)
Definition pickyHost : Host :=
  mkHost (fun h _ => Resolved (if (h =? 7)%nat || (h =? 9)%nat then granted else denied))
         (fun _ _ => Resolved denied)
         (fun _ => folder)
         (fun n => if Nat.even n then zero else half)
         (fun _ => "2024-01-15T10:30:45.123Z"%string)
         (fun _ => false)
         (fun _ _ => false).

Definition holiday : Gallery.t :=
  Gallery.mk 1700000000000 "Holiday" 7%nat [mediaB; mediaC; mediaA] false (Some 0).
Definition work : Gallery.t :=
  Gallery.mk 1700000000001 "Work" 8%nat [] false (Some 1).
Definition pets : Gallery.t :=
  Gallery.mk 1700000000002 "Pets" 9%nat [] true (Some 2).

Definition manager : GalleryManager.t :=
  GalleryManager.mk [holiday; work; pets] 0 0 false (-1).

(** The manager in random mode, on the first item of "Holiday". *)
Definition randomManager : GalleryManager.t :=
  GalleryManager.mk [holiday; work; pets] 0 0 true (-1).

(** A gallery whose two files were modified in the same millisecond, in the
    order a scan delivers them. *)
Definition fileP : File.t := File.mk "P.jpg" "image/jpeg" 500.
Definition fileQ : File.t := File.mk "Q.jpg" "image/jpeg" 500.
Definition mediaP : Media.t := Media.mk "P.jpg" "P.jpg" 3%nat image fileP 500.
Definition mediaQ : Media.t := Media.mk "Q.jpg" "Q.jpg" 4%nat image fileQ 500.

Definition twins : Gallery.t :=
  Gallery.mk 1700000000003 "Twins" 10%nat [mediaP; mediaQ] false (Some 0).

Definition twinsManager : GalleryManager.t :=
  GalleryManager.mk [twins] 0 0 false (-1).

Definition world : World :=
  mkWorld [GalleryDB.galleryData holiday; GalleryDB.galleryData work; GalleryDB.galleryData pets]
          {[0%nat; 1%nat; 2%nat]} 3%nat 0%nat 0%nat [] [].

(** A recorded clip as the browser hands it over on a drop. *)
Definition clip : File.t := File.mk "clip" "video/webm" 1700000000500.

(** The store at start-up: three records, the second written by a version
    of the script that did not save [order] yet. *)
Definition shelf : list StoredGallery.t :=
  [StoredGallery.mk 1700000000000 "Holiday" 7%nat (Some false) (Some 2);
   StoredGallery.mk 1700000000001 "Work" 8%nat None None;
   StoredGallery.mk 1700000000002 "Pets" 9%nat (Some true) (Some 1)].

Definition startWorld : World :=
  mkWorld shelf ∅ 0%nat 0%nat 0%nat [] [].

End Demo.

(** What [verifyPermission] amounts to, read off the host's answers: the
    permission state is queried; if it is not granted the user is asked. *)
Definition verifies (host : Host) (h : Handle) (mode : Mode) : Completion bool :=
  match queryPermission host h mode with
  | Rejected e => Throw e
  | Resolved granted => Normal true
  | Resolved _ =>
      match requestPermission host h mode with
      | Rejected e => Throw e
      | Resolved granted => Normal true
      | Resolved _ => Normal false
      end
  end.

(** The permission calls one verification makes. *)
Definition verifyCalls (host : Host) (h : Handle) (mode : Mode) : list PermissionCall :=
  match queryPermission host h mode with
  | Resolved granted | Rejected _ => [QueryPermission h mode]
  | Resolved _ => [QueryPermission h mode; RequestPermission h mode]
  end.

(** The descriptors a scan builds for the entries whose file can be read,
    with object URLs handed out from [u] on. *)
Fixpoint collect (entries : list Gallery.ScannedFile) (u : ObjectURL) : list Media.t :=
  match entries with
  | [] => []
  | e :: t =>
      match Gallery.entry_getFile e with
      | Resolved f =>
          Media.mk (Gallery.entry_name e) (Gallery.scanned_path e) u
                   (Gallery.scanned_type e) f (File.lastModified f)
          :: collect t (S u)
      | Rejected _ => collect t u
      end
  end.

(** Whether the file of a scanned entry can be read. *)
Definition readable (e : Gallery.ScannedFile) : bool :=
  match Gallery.entry_getFile e with Resolved _ => true | Rejected _ => false end.

(** The world after [k] more object URLs have been created. *)
Definition afterCreate (k : nat) (w : World) : World :=
  set_nextObjectURL (fun u => (k + u)%nat)
    (set_objectURLs (fun live => list_to_set (seq (nextObjectURL w) k) ∪ live) w).

(** The world after permission calls [cs] have been made. *)
Definition afterCalls (cs : list PermissionCall) (w : World) : World :=
  set_permissionCalls (fun log => log ++ cs) w.

(** The entries of the folder of a gallery that a scan visits. *)
Definition scanned (host : Host) (g : Gallery.t) : list Gallery.ScannedFile :=
  Gallery.scanDirectoryRecursive (values host (Gallery.directoryHandle g)) EmptyString.

(** The list a scan of the folder of [g] leaves before any shuffle, when the
    scan starts in world [w]. *)
Definition scanResult (host : Host) (g : Gallery.t) (w : World) : list Media.t :=
  JsArray.sort Gallery.byLastModifiedDesc (collect (scanned host g) (nextObjectURL w)).

(** The world after the permission check and the reads of a scan of [g]. *)
Definition afterScan (host : Host) (g : Gallery.t) (w : World) : World :=
  afterCreate (length (List.filter readable (scanned host g)))
    (afterCalls (verifyCalls host (Gallery.directoryHandle g) readwrite) w).

(** The world after the object URLs [urls] have been revoked. *)
Definition afterRevoke (urls : list ObjectURL) (w : World) : World :=
  set_objectURLs (fun live => live ∖ list_to_set urls) w.

(** The active index [closeGallery] computes once gallery [index] is gone
    and [count] galleries are left ([count] is positive). *)
Definition reselected (index active count : Z) : Z :=
  if index <? active then active - 1
  else if index =? active then Z.min index (count - 1)
  else active.

(** The active index [handleTabDrop] computes for a move of the tab at
    [from] onto the tab at [to]. *)
Definition movedActive (from to active : Z) : Z :=
  if active =? from then to
  else if ((from <? active) && (active <=? to))%bool then active - 1
  else if ((active <? from) && (to <=? active))%bool then active + 1
  else active.

(** The array after the two splices of [handleTabDrop] and the loop that
    renumbers [order]. *)
Definition reordered (gs : list Gallery.t) (from to : Z) (moved : Gallery.t) : list Gallery.t :=
  JsArray.mapIndexed (fun idx g => Gallery.set_order (Some idx) g)
    (JsArray.spliceInsert (JsArray.spliceDelete1 gs from) to moved).

(** The object store after the records of [gs] have been put one by one. *)
Definition savedAll (gs : list Gallery.t) (st : list StoredGallery.t) : list StoredGallery.t :=
  foldl (fun st g => GalleryDB.put (GalleryDB.galleryData g) st) st gs.

(** Whether a verification of read-write access to [h] ends with [true]. *)
Definition grants (host : Host) (h : Handle) : bool :=
  match verifies host h readwrite with
  | Normal true => true
  | _ => false
  end.

(** The gallery object [loadFromStorage] builds from a record before it
    scans the folder. *)
Definition fromRecord (r : StoredGallery.t) : Gallery.t :=
  Gallery.set_order (Some (default 0 (StoredGallery.order r)))
    (Gallery.set_isShuffled (default false (StoredGallery.isShuffled r))
       (Gallery.constructor (StoredGallery.id r) (StoredGallery.name r)
                            (StoredGallery.directoryHandle r))).

(** [g] is what [loadFromStorage] makes of the record [r]: the gallery built
    from the record, with the media a scan of its folder gives. *)
Definition restoredFrom (host : Host) (r : StoredGallery.t) (g : Gallery.t) : Prop :=
  Gallery.id g = StoredGallery.id r /\
  Gallery.name g = StoredGallery.name r /\
  Gallery.directoryHandle g = StoredGallery.directoryHandle r /\
  Gallery.isShuffled g = default false (StoredGallery.isShuffled r) /\
  Gallery.order g = Some (default 0 (StoredGallery.order r)) /\
  exists w0, g = fst (snd (Gallery.loadMedia host (fromRecord r, w0))).

(** Among the calls of [Math.random()] from the [start]-th on, the call
    number [n] is the first that gives an index other than [current]. *)
Definition firstOther (host : Host) (len current : Z) (start n : nat) : Prop :=
  (forall k, (k < n)%nat -> drawnIndex host len (start + k) = current) /\
  drawnIndex host len (start + n) <> current.

(** * Notions used to state further properties *)

(** The selection is in order: no gallery is selected, or the active index
    is a position of the array and the media index is a position of that
    gallery's media list (any value when the list is empty). *)
Definition selectionValid (gm : GalleryManager.t) : Prop :=
  GalleryManager.activeGalleryIndex gm = -1 \/
  exists g, GalleryManager.activeGallery gm = Some g /\
            (Gallery.media g = [] \/
             0 <= GalleryManager.activeMediaIndex gm < Z.of_nat (length (Gallery.media g))).

(** [n] presses of the right arrow, one after the other. *)
Fixpoint forwardSteps (host : Host) (n : nat) (s : GalleryManager.t * World)
  : option (GalleryManager.t * World) :=
  match n with
  | O => Some s
  | S n' =>
      match App.navigateMedia host 0 1 s with
      | Some s' => forwardSteps host n' s'
      | None => None
      end
  end.

(** Two worlds that differ at most in the number of random draws made. *)
Definition sameButDraws (w w' : World) : Prop :=
  store w' = store w /\ objectURLs w' = objectURLs w /\
  nextObjectURL w' = nextObjectURL w /\ clockReads w' = clockReads w /\
  permissionCalls w' = permissionCalls w /\ writtenFiles w' = writtenFiles w /\
  (randomCalls w <= randomCalls w')%nat.

(** One action of the user that only moves through the media of the active
    gallery: an arrow button or key, the random button, the random toggle, a
    key press, a click on a thumbnail. *)
Inductive navigates (host : Host)
  : GalleryManager.t * World -> GalleryManager.t * World -> Prop :=
| nav_arrow fuel direction s s' :
    App.navigateMedia host fuel direction s = Some s' -> navigates host s s'
| nav_random fuel s s' :
    App.selectRandomMedia host fuel s = Some s' -> navigates host s s'
| nav_toggle fuel s s' :
    App.toggleRandomMedia host fuel s = Some s' -> navigates host s s'
| nav_key fuel modalActive key s s' :
    App.handleKeyboard host fuel modalActive key s = Some s' -> navigates host s s'
| nav_thumbnail index gm w :
    navigates host (gm, w) (GalleryManager.thumbnailClick index gm, w).

(** What navigation leaves alone in the manager: the array of galleries,
    the active gallery, and the validity of the selection. *)
Definition keepsSelection (gm gm' : GalleryManager.t) : Prop :=
  GalleryManager.galleries gm' = GalleryManager.galleries gm /\
  GalleryManager.activeGalleryIndex gm' = GalleryManager.activeGalleryIndex gm /\
  (selectionValid gm -> selectionValid gm').

(** The records of the object store are kept in the order of their keys, and
    no two records share a key. *)
Definition storeOrdered (l : list StoredGallery.t) : Prop :=
  StronglySorted (fun x y => StoredGallery.id x < StoredGallery.id y) l.

(** Hosts on which the database fails. *)
Module Faults.

(** The connection to the database is closed: every transaction throws. *)
Definition offlineHost : Host :=
  mkHost (fun _ _ => Resolved granted)
         (fun _ _ => Resolved granted)
         (fun _ => Demo.folder)
         (fun n => if Nat.even n then Demo.zero else Demo.half)
         (fun _ => "2024-01-15T10:30:45.123Z"%string)
         (fun _ => true)
         (fun _ _ => false).

(** The record of "Holiday" cannot be written. *)
Definition brokenHost : Host :=
  mkHost (fun _ _ => Resolved granted)
         (fun _ _ => Resolved granted)
         (fun _ => Demo.folder)
         (fun n => if Nat.even n then Demo.zero else Demo.half)
         (fun _ => "2024-01-15T10:30:45.123Z"%string)
         (fun rq => match rq with
                    | PutRequest id => id =? 1700000000000
                    | _ => false
                    end)
         (fun _ _ => false).

End Faults.

(** The place a gallery takes among the tabs after a restart: its saved
    [order], a missing one counting as 0. *)
Definition tabKey (g : Gallery.t) : Z := default 0 (Gallery.order g).

(** Memory and store agree: the store is in key order, the galleries of the
    manager have pairwise distinct ids and ascending, pairwise distinct
    orders, and the records of the store are exactly the records of these
    galleries. *)
Definition persisted (gm : GalleryManager.t) (w : World) : Prop :=
  storeOrdered (store w) /\
  NoDup (map Gallery.id (GalleryManager.galleries gm)) /\
  StronglySorted (fun a b => tabKey a < tabKey b) (GalleryManager.galleries gm) /\
  (forall r, r ∈ store w <->
             exists g, g ∈ GalleryManager.galleries gm /\ r = GalleryDB.galleryData g).

(** Two gallery objects that stand for the same tab: same id, name, folder
    and shuffle flag, and the same place among the tabs. *)
Definition sameTab (g g' : Gallery.t) : Prop :=
  Gallery.id g' = Gallery.id g /\
  Gallery.name g' = Gallery.name g /\
  Gallery.directoryHandle g' = Gallery.directoryHandle g /\
  Gallery.isShuffled g' = Gallery.isShuffled g /\
  tabKey g' = tabKey g.

(** The state left when "Holiday" and "Work" have been closed: "Pets"
    alone, still with its order 2. *)
Module Leftover.

Definition manager : GalleryManager.t :=
  GalleryManager.mk [Demo.pets] 0 0 false (-1).

Definition world : World :=
  mkWorld [GalleryDB.galleryData Demo.pets] ∅ 3%nat 0%nat 0%nat [] [].

End Leftover.

(** The file handle [getFile] named [name] lies in the tree of [entry],
    an entry of the directory whose path is [path]; [full] is the path the
    scan gives it: the names of the directories from the scanned folder
    down to the file, joined by [/]. *)
Inductive holds : string -> FsEntry -> string -> Outcome File.t -> string -> Prop :=
| holds_file path name getFile :
    holds path (FileHandle name getFile) name getFile (Gallery.joinPath path name)
| holds_directory path directory entries entry name getFile full :
    entry ∈ entries ->
    holds (Gallery.joinPath path directory) entry name getFile full ->
    holds path (DirectoryHandle directory entries) name getFile full.

(** The files a batch of imports writes into the folder [h] when the clock
    has been read [clock] times before: each file is named from the next
    reading of the clock, and a file whose write throws is left out. *)
Fixpoint imported (host : Host) (h : Handle) (files : list File.t) (clock : nat)
  : list (Handle * string * File.t) :=
  match files with
  | [] => []
  | file :: rest =>
      let filename := App.generatedName file (toISOString host clock) in
      (if writeThrows host h filename then [] else [(h, filename, file)])
        ++ imported host h rest (S clock)
  end.

(** One action of the user or of the start-up, with the state it leaves
    behind whether it completes or throws: loading the stored galleries,
    creating a gallery, closing a tab, clicking a tab, dropping a tab on
    another one, moving through the media, toggling the shuffle, dropping
    files, pasting. *)
Inductive acts (host : Host)
  : GalleryManager.t * World -> GalleryManager.t * World -> Prop :=
| act_load s :
    acts host s (snd (GalleryManager.loadFromStorage host s))
| act_create now name selectedDirectoryHandle s :
    acts host s (snd (App.createGallery host now name selectedDirectoryHandle s))
| act_close index s :
    acts host s (snd (GalleryManager.closeGallery host index s))
| act_select index gm w :
    acts host (gm, w) (GalleryManager.selectGallery index gm, w)
| act_move draggedTabIndex targetIndex s :
    0 <= draggedTabIndex < GalleryManager.length_ (fst s) ->
    0 <= targetIndex < GalleryManager.length_ (fst s) ->
    acts host s (snd (GalleryManager.handleTabDrop host draggedTabIndex targetIndex s))
| act_navigate s s' :
    navigates host s s' -> acts host s s'
| act_shuffle s :
    acts host s (snd (App.shuffleGallery host s))
| act_drop files s :
    acts host s (snd (App.handleDrop host files s))
| act_paste clipboardData s :
    acts host s (snd (App.handlePaste host clipboardData s)).

(** The state is in order: the selection is valid and the store is in key
    order with one record per key. *)
Definition wellFormed (s : GalleryManager.t * World) : Prop :=
  selectionValid (fst s) /\ storeOrdered (store (snd s)).

(** * Properties *)

(** ** Arrays: sort, swap, splice *)

Section SortFacts.
Context {A : Type} (cmp : A -> A -> Z).

Lemma sortInsert_Permutation x l : JsArray.sortInsert cmp x l ≡ₚ x :: l.
Proof.
  induction l as [|y t IH]; simpl; [reflexivity|].
  destruct (0 <? cmp x y); [|reflexivity].
  rewrite IH. apply Permutation_swap.
Qed.

Lemma sort_Permutation l : JsArray.sort cmp l ≡ₚ l.
Proof.
  induction l as [|x t IH]; simpl; [reflexivity|].
  rewrite sortInsert_Permutation. by rewrite IH.
Qed.

Lemma sort_length l : length (JsArray.sort cmp l) = length l.
Proof. apply Permutation_length, sort_Permutation. Qed.

(** The comparator is the difference of a numeric key, as both
    comparators of the script are. *)
Context (key : A -> Z) (cmp_key : forall a b, cmp a b = key a - key b).

Local Abbreviation ascending := (ascendingBy key).

Lemma sortInsert_sorted x l :
  StronglySorted ascending l -> StronglySorted ascending (JsArray.sortInsert cmp x l).
Proof.
  induction 1 as [|y t Hs IH Hall]; simpl.
  - repeat constructor.
  - destruct (0 <? cmp x y) eqn:E.
    + apply Z.ltb_lt in E. rewrite cmp_key in E.
      constructor; [exact IH|].
      rewrite sortInsert_Permutation. constructor; [unfold ascendingBy; lia | exact Hall].
    + apply Z.ltb_ge in E. rewrite cmp_key in E.
      constructor; [by constructor|].
      constructor; [unfold ascendingBy; lia|].
      eapply Forall_impl; [exact Hall|]. unfold ascendingBy. intros; simpl in *; lia.
Qed.

Lemma sort_sorted l : StronglySorted ascending (JsArray.sort cmp l).
Proof.
  induction l as [|x t IH]; simpl; [constructor|].
  by apply sortInsert_sorted.
Qed.

(** Stability: elements with one key keep their relative order. *)
Lemma sortInsert_stable k x l :
  StronglySorted ascending l ->
  List.filter (fun a => key a =? k) (JsArray.sortInsert cmp x l)
  = List.filter (fun a => key a =? k) (x :: l).
Proof.
  induction 1 as [|y t Hs IH Hall]; [reflexivity|].
  cbn [JsArray.sortInsert].
  destruct (0 <? cmp x y) eqn:E; [|reflexivity].
  apply Z.ltb_lt in E. rewrite cmp_key in E.
  cbn [List.filter] in *. rewrite IH.
  destruct (key y =? k) eqn:Ey, (key x =? k) eqn:Ex; try reflexivity.
  apply Z.eqb_eq in Ey, Ex. lia.
Qed.

Lemma sort_stable k l :
  List.filter (fun a => key a =? k) (JsArray.sort cmp l)
  = List.filter (fun a => key a =? k) l.
Proof.
  induction l as [|x t IH]; [reflexivity|].
  cbn [JsArray.sort foldr].
  rewrite sortInsert_stable by apply sort_sorted.
  cbn [List.filter]. fold (JsArray.sort cmp t). by rewrite IH.
Qed.

(** A list that is already in order is left as it is. *)
Lemma sort_sorted_id l : StronglySorted ascending l -> JsArray.sort cmp l = l.
Proof.
  induction 1 as [|x t Hs IH Hall]; [reflexivity|].
  cbn [JsArray.sort foldr]. fold (JsArray.sort cmp t). rewrite IH.
  destruct t as [|y t']; [reflexivity|].
  cbn [JsArray.sortInsert].
  inversion Hall as [|? ? Hxy _]; subst. unfold ascendingBy in Hxy.
  rewrite cmp_key. destruct (0 <? key x - key y) eqn:E; [|reflexivity].
  apply Z.ltb_lt in E. lia.
Qed.

(** With pairwise distinct keys there is one sorted arrangement. *)
Lemma sorted_unique l1 : forall l2,
  StronglySorted (fun a b => key a < key b) l1 ->
  StronglySorted ascending l2 ->
  l1 ≡ₚ l2 -> l1 = l2.
Proof.
  induction l1 as [|a t1 IH]; intros l2 H1 H2 Hp.
  - by apply Permutation_nil_l in Hp.
  - destruct l2 as [|b t2]; [by apply Permutation_nil_r in Hp|].
    inversion H1 as [|? ? H1t H1a]; subst.
    inversion H2 as [|? ? H2t H2b]; subst.
    assert (Hab : a = b).
    { assert (Ha : a ∈ b :: t2) by (rewrite <- Hp; left).
      assert (Hb : b ∈ a :: t1) by (rewrite Hp; left).
      apply elem_of_cons in Ha as [Ha|Ha]; [done|].
      apply elem_of_cons in Hb as [Hb|Hb]; [done|].
      rewrite Forall_forall in H1a, H2b.
      specialize (H1a _ Hb). specialize (H2b _ Ha).
      unfold ascendingBy in H2b. simpl in *. lia. }
    subst b. f_equal. apply IH; [done..|].
    by apply Permutation_cons_inv in Hp.
Qed.

Lemma sort_restores l l' :
  StronglySorted (fun a b => key a < key b) l ->
  l' ≡ₚ l -> JsArray.sort cmp l' = l.
Proof.
  intros Hl Hp. symmetry. apply sorted_unique; [done|apply sort_sorted|].
  by rewrite sort_Permutation.
Qed.

End SortFacts.

Section SwapFacts.
Context {A : Type}.

Lemma insert_cons_Permutation (l : list A) : forall j x y,
  l !! j = Some y -> y :: <[j := x]> l ≡ₚ x :: l.
Proof.
  induction l as [|z t IH]; intros [|j] x y Hj; try discriminate; simpl in *.
  - injection Hj as ->. apply Permutation_swap.
  - etransitivity; [apply Permutation_swap|].
    etransitivity; [apply Permutation_skip, (IH _ _ _ Hj)|apply Permutation_swap].
Qed.

Lemma swap_Permutation (l : list A) : forall i j, JsArray.swap l i j ≡ₚ l.
Proof.
  unfold JsArray.swap.
  induction l as [|z t IH]; intros i j; [by destruct i, j|].
  destruct i as [|i], j as [|j]; simpl.
  - reflexivity.
  - destruct (t !! j) as [xj|] eqn:Hj; [|reflexivity].
    simpl. by apply insert_cons_Permutation.
  - destruct (t !! i) as [xi|] eqn:Hi; [|reflexivity].
    simpl. by apply insert_cons_Permutation.
  - specialize (IH i j).
    destruct (t !! i), (t !! j); simpl; try reflexivity.
    by constructor.
Qed.

Lemma swap_length (l : list A) i j : length (JsArray.swap l i j) = length l.
Proof. apply Permutation_length, swap_Permutation. Qed.

End SwapFacts.

(** ** Random draws and the Fisher–Yates loop *)

Lemma advanceRandom_0 w : advanceRandom 0 w = w.
Proof. by destruct w. Qed.

Lemma advanceRandom_S k w : advanceRandom k (set_randomCalls S w) = advanceRandom (S k) w.
Proof. destruct w. unfold advanceRandom, set_randomCalls. simpl. f_equal. lia. Qed.

Lemma sample_bounds (r : UnitSample) : (0 <= sample r)%Q /\ (sample r < 1)%Q.
Proof.
  destruct r as [q Hq]. simpl. apply andb_true_iff in Hq as [H0 H1].
  split; [by apply Qle_bool_iff|].
  apply Qnot_le_lt. intros Hle. apply Qle_bool_iff in Hle.
  rewrite Hle in H1. discriminate.
Qed.

(** [Math.floor(Math.random() * n)] is one of [0 .. n-1]. *)
Lemma drawnIndex_range host len n : 0 < len -> 0 <= drawnIndex host len n < len.
Proof.
  intros Hlen. unfold drawnIndex.
  destruct (sample_bounds (Math_random host n)) as [H0 H1].
  set (q := sample (Math_random host n)) in *.
  assert (Hn : (inject_Z 0 < inject_Z len)%Q) by (rewrite <- Zlt_Qlt; exact Hlen).
  change (inject_Z 0) with 0%Q in Hn.
  split.
  - change 0 with (Qfloor 0). apply Qfloor_resp_le.
    apply Qmult_le_0_compat; [exact H0|]. by apply Qlt_le_weak.
  - rewrite Zlt_Qlt. eapply Qle_lt_trans; [apply Qfloor_le|].
    apply Qlt_le_trans with (1 * inject_Z len)%Q.
    + by apply Qmult_lt_compat_r.
    + rewrite Qmult_1_l. apply Qle_refl.
Qed.

Lemma randomFloor_run host len w :
  Web.randomFloor host len w = (Normal (drawnIndex host len (randomCalls w)), set_randomCalls S w).
Proof. reflexivity. Qed.

Lemma shuffleFrom_run {A} host i : forall (a : list A) w,
  Web.shuffleFrom host i a w = (Normal (fisherYates host i a (randomCalls w)), advanceRandom i w).
Proof.
  induction i as [|i IH]; intros a w.
  - simpl. by rewrite advanceRandom_0.
  - cbn [Web.shuffleFrom fisherYates]. unfold bind. rewrite randomFloor_run.
    rewrite IH, advanceRandom_S. by destruct w.
Qed.

Lemma fisherYates_Permutation {A} host i : forall (a : list A) k,
  fisherYates host i a k ≡ₚ a.
Proof.
  induction i as [|i IH]; intros a k; simpl; [reflexivity|].
  rewrite IH. apply swap_Permutation.
Qed.

(** Every exchange of the loop is between two positions of the array. *)
Lemma fisherYates_draw_in_range host (i : nat) k :
  (Z.to_nat (drawnIndex host (Z.of_nat i + 1) k) <= i)%nat.
Proof.
  pose proof (drawnIndex_range host (Z.of_nat i + 1) k ltac:(lia)). lia.
Qed.

Lemma swap_lookup_other {A} (a : list A) (i j p : nat) :
  p <> i -> p <> j -> JsArray.swap a i j !! p = a !! p.
Proof.
  intros Hi Hj. unfold JsArray.swap.
  destruct (a !! i), (a !! j); try reflexivity.
  by rewrite !list_lookup_insert_ne by done.
Qed.

Lemma swap_lookup_first {A} (a : list A) (i j : nat) :
  (i < length a)%nat -> (j < length a)%nat -> JsArray.swap a i j !! i = a !! j.
Proof.
  intros Hi Hj. unfold JsArray.swap.
  destruct (lookup_lt_is_Some_2 a i Hi) as [xi Hxi].
  destruct (lookup_lt_is_Some_2 a j Hj) as [xj Hxj].
  rewrite Hxi, Hxj.
  destruct (decide (i = j)) as [->|Hne].
  - rewrite list_lookup_insert_eq by (by rewrite length_insert). congruence.
  - rewrite list_lookup_insert_ne by done.
    by rewrite list_lookup_insert_eq.
Qed.

(** The loop started at [i] leaves the positions behind [i] alone. *)
Lemma fisherYates_above {A} host i : forall (a : list A) k (p : nat),
  (i < p)%nat -> fisherYates host i a k !! p = a !! p.
Proof.
  induction i as [|i IH]; intros a k p Hp; [reflexivity|].
  cbn [fisherYates]. rewrite IH by lia.
  pose proof (fisherYates_draw_in_range host (S i) k).
  apply swap_lookup_other; lia.
Qed.

(** Position [i] receives the element the first draw points at. *)
Lemma fisherYates_top {A} host i (a : list A) k :
  (S i < length a)%nat ->
  fisherYates host (S i) a k !! S i
  = a !! Z.to_nat (drawnIndex host (Z.of_nat (S i) + 1) k).
Proof.
  intros Hi. cbn [fisherYates]. rewrite fisherYates_above by lia.
  pose proof (fisherYates_draw_in_range host (S i) k).
  apply swap_lookup_first; lia.
Qed.

(** On an array without duplicates, two runs of the loop that end with the
    same arrangement made the same draws: each arrangement comes from one
    sequence of draws only. *)
Lemma fisherYates_injective {A} host1 host2 i : forall (a : list A) k1 k2,
  NoDup a -> (i < length a)%nat ->
  fisherYates host1 i a k1 = fisherYates host2 i a k2 ->
  forall m, (m < i)%nat ->
    drawnIndex host1 (Z.of_nat (i - m) + 1) (k1 + m)
    = drawnIndex host2 (Z.of_nat (i - m) + 1) (k2 + m).
Proof.
  induction i as [|i IH]; intros a k1 k2 Hnd Hi Heq m Hm; [lia|].
  pose proof (drawnIndex_range host1 (Z.of_nat (S i) + 1) k1 ltac:(lia)) as Hr1.
  pose proof (drawnIndex_range host2 (Z.of_nat (S i) + 1) k2 ltac:(lia)) as Hr2.
  assert (Hdraw : drawnIndex host1 (Z.of_nat (S i) + 1) k1
                  = drawnIndex host2 (Z.of_nat (S i) + 1) k2).
  { pose proof (f_equal (fun l => l !! S i) Heq) as Htop. cbv beta in Htop.
    rewrite !fisherYates_top in Htop by exact Hi.
    destruct (lookup_lt_is_Some_2 a (Z.to_nat (drawnIndex host1 (Z.of_nat (S i) + 1) k1))
                ltac:(lia)) as [x Hx].
    rewrite Hx in Htop. symmetry in Htop.
    pose proof (NoDup_lookup a _ _ x Hnd Hx Htop). lia. }
  destruct m as [|m].
  - rewrite Nat.sub_0_r, !Nat.add_0_r. exact Hdraw.
  - cbn [fisherYates] in Heq. rewrite Hdraw in Heq.
    replace (k1 + S m)%nat with (S k1 + m)%nat by lia.
    replace (k2 + S m)%nat with (S k2 + m)%nat by lia.
    replace (S i - S m)%nat with (i - m)%nat by lia.
    refine (IH _ _ _ _ _ Heq m _); [|rewrite swap_length; lia|lia].
    by rewrite swap_Permutation.
Qed.

(** ** The object store *)

Lemma lookup_put k r l :
  GalleryDB.lookup k (GalleryDB.put r l)
  = if k =? StoredGallery.id r then Some r else GalleryDB.lookup k l.
Proof.
  unfold GalleryDB.lookup.
  induction l as [|x t IH]; simpl.
  - rewrite (Z.eqb_sym (StoredGallery.id r)). by destruct (k =? _).
  - destruct (StoredGallery.id r <? StoredGallery.id x) eqn:Hlt; simpl.
    + rewrite (Z.eqb_sym (StoredGallery.id r)). by destruct (k =? _).
    + destruct (StoredGallery.id r =? StoredGallery.id x) eqn:Heq; simpl.
      * apply Z.eqb_eq in Heq. rewrite <- Heq, (Z.eqb_sym (StoredGallery.id r)).
        by destruct (k =? _).
      * destruct (StoredGallery.id x =? k) eqn:Hx; [|exact IH].
        apply Z.eqb_eq in Hx. subst k. rewrite Z.eqb_sym, Heq. reflexivity.
Qed.

Lemma lookup_delete k l : GalleryDB.lookup k (GalleryDB.delete k l) = None.
Proof.
  unfold GalleryDB.lookup, GalleryDB.delete.
  induction l as [|x t IH]; simpl; [reflexivity|].
  destruct (StoredGallery.id x =? k) eqn:Hx; simpl; [exact IH|].
  by rewrite Hx.
Qed.

Lemma lookup_delete_ne k k' l :
  k <> k' -> GalleryDB.lookup k (GalleryDB.delete k' l) = GalleryDB.lookup k l.
Proof.
  intros Hne. unfold GalleryDB.lookup, GalleryDB.delete.
  induction l as [|x t IH]; simpl; [reflexivity|].
  destruct (StoredGallery.id x =? k') eqn:Hx; simpl.
  - apply Z.eqb_eq in Hx. rewrite IH.
    destruct (StoredGallery.id x =? k) eqn:Hk; [|reflexivity].
    apply Z.eqb_eq in Hk. congruence.
  - by rewrite IH.
Qed.

Lemma saveGallery_run host g w :
  transactionThrows host (PutRequest (Gallery.id g)) = false ->
  GalleryDB.saveGallery host g w = (Normal tt, set_store (GalleryDB.put (GalleryDB.galleryData g)) w).
Proof.
  intros H. unfold GalleryDB.saveGallery, GalleryDB.transaction, bind.
  simpl. by rewrite H.
Qed.

Lemma saveGallery_throws host g w :
  transactionThrows host (PutRequest (Gallery.id g)) = true ->
  GalleryDB.saveGallery host g w = (Throw "InvalidStateError", w).
Proof.
  intros H. unfold GalleryDB.saveGallery, GalleryDB.transaction, bind.
  simpl. by rewrite H.
Qed.

(** ** Indexing the array of galleries *)

Lemma at_Some {A} (l : list A) i x :
  JsArray.at_ l i = Some x <-> 0 <= i /\ l !! Z.to_nat i = Some x.
Proof.
  unfold JsArray.at_. destruct (i <? 0) eqn:E.
  - apply Z.ltb_lt in E. split; [discriminate|lia].
  - apply Z.ltb_ge in E. tauto.
Qed.

Lemma at_lt {A} (l : list A) i x :
  JsArray.at_ l i = Some x -> 0 <= i < Z.of_nat (length l).
Proof.
  intros [H0 H]%at_Some. apply lookup_lt_Some in H. lia.
Qed.

Lemma at_of_nat {A} (l : list A) (n : nat) : JsArray.at_ l (Z.of_nat n) = l !! n.
Proof.
  unfold JsArray.at_. destruct (Z.of_nat n <? 0) eqn:E.
  - apply Z.ltb_lt in E. lia.
  - by rewrite Nat2Z.id.
Qed.

Lemma activeGallery_displayMedia i gm :
  GalleryManager.activeGallery (GalleryManager.displayMedia i gm)
  = GalleryManager.activeGallery gm.
Proof.
  unfold GalleryManager.displayMedia.
  destruct (GalleryManager.activeGallery gm) eqn:E; [|exact E].
  destruct (_ || _)%bool; exact E.
Qed.

Lemma galleries_displayMedia i gm :
  GalleryManager.galleries (GalleryManager.displayMedia i gm) = GalleryManager.galleries gm.
Proof.
  unfold GalleryManager.displayMedia.
  destruct (GalleryManager.activeGallery gm); [|reflexivity].
  by destruct (_ || _)%bool.
Qed.

Lemma activeGalleryIndex_displayMedia i gm :
  GalleryManager.activeGalleryIndex (GalleryManager.displayMedia i gm)
  = GalleryManager.activeGalleryIndex gm.
Proof.
  unfold GalleryManager.displayMedia.
  destruct (GalleryManager.activeGallery gm); [|reflexivity].
  by destruct (_ || _)%bool.
Qed.

(** [displayMedia(index)] with an index of the active gallery's media. *)
Lemma displayMedia_in_range i gm g :
  GalleryManager.activeGallery gm = Some g ->
  0 <= i < Z.of_nat (length (Gallery.media g)) ->
  GalleryManager.displayMedia i gm = GalleryManager.set_activeMediaIndex i gm.
Proof.
  intros Hg Hi. unfold GalleryManager.displayMedia. rewrite Hg.
  destruct (i <? 0) eqn:E1; [apply Z.ltb_lt in E1; lia|].
  destruct (_ <=? i) eqn:E2; [apply Z.leb_le in E2; lia|]. reflexivity.
Qed.

Lemma activeGallery_update g' gm g :
  GalleryManager.activeGallery gm = Some g ->
  GalleryManager.activeGallery (App.updateActiveGallery g' gm) = Some g'.
Proof.
  unfold GalleryManager.activeGallery, App.updateActiveGallery. simpl.
  intros [H0 H]%at_Some. apply at_Some. split; [done|].
  apply list_lookup_insert_eq. by apply lookup_lt_Some in H.
Qed.

(** ** Toggling shuffle *)

Lemma media_length_nonzero (g : Gallery.t) :
  Gallery.media g <> [] -> (Z.of_nat (length (Gallery.media g)) =? 0) = false.
Proof.
  intros H. apply Z.eqb_neq. destruct (Gallery.media g); [done|simpl; lia].
Qed.

Lemma shuffleGallery_on host gm w g :
  GalleryManager.activeGallery gm = Some g ->
  Gallery.media g <> [] ->
  Gallery.isShuffled g = false ->
  let g' := shuffledGallery host (randomCalls w) g in
  let gm1 := App.updateActiveGallery g' gm in
  let w1 := advanceRandom (length (Gallery.media g) - 1) w in
  App.shuffleGallery host (gm, w)
  = if transactionThrows host (PutRequest (Gallery.id g))
    then (Throw "InvalidStateError", (gm1, w1))
    else (Normal tt,
          (GalleryManager.displayMedia 0 gm1, set_store (GalleryDB.put (GalleryDB.galleryData g')) w1)).
Proof.
  intros Hg Hne Hoff. cbv zeta.
  unfold App.shuffleGallery, bind, getThis. cbn [fst snd].
  rewrite Hg, (media_length_nonzero g Hne).
  cbn [Gallery.isShuffled Gallery.set_isShuffled]. rewrite Hoff. cbn [negb].
  unfold liftWorld, Web.shuffleInPlace. cbn [fst snd Gallery.media].
  rewrite shuffleFrom_run. unfold setThis. cbn [fst snd].
  destruct (transactionThrows host (PutRequest (Gallery.id g))) eqn:Hthrow.
  - rewrite saveGallery_throws by exact Hthrow. reflexivity.
  - rewrite saveGallery_run by exact Hthrow. reflexivity.
Qed.

Lemma shuffleGallery_off host gm w g :
  GalleryManager.activeGallery gm = Some g ->
  Gallery.media g <> [] ->
  Gallery.isShuffled g = true ->
  let g' := unshuffledGallery g in
  let gm1 := App.updateActiveGallery g' gm in
  App.shuffleGallery host (gm, w)
  = if transactionThrows host (PutRequest (Gallery.id g))
    then (Throw "InvalidStateError", (gm1, w))
    else (Normal tt,
          (GalleryManager.displayMedia 0 gm1, set_store (GalleryDB.put (GalleryDB.galleryData g')) w)).
Proof.
  intros Hg Hne Hon. cbv zeta.
  unfold App.shuffleGallery, bind, getThis. cbn [fst snd].
  rewrite Hg, (media_length_nonzero g Hne).
  cbn [Gallery.isShuffled Gallery.set_isShuffled]. rewrite Hon. cbn [negb].
  unfold ret, setThis. cbn [fst snd]. unfold liftWorld. cbn [fst snd].
  destruct (transactionThrows host (PutRequest (Gallery.id g))) eqn:Hthrow.
  - rewrite saveGallery_throws by exact Hthrow. reflexivity.
  - rewrite saveGallery_run by exact Hthrow. reflexivity.
Qed.

Lemma shuffledGallery_media_nonempty host k g :
  Gallery.media g <> [] -> Gallery.media (shuffledGallery host k g) <> [].
Proof.
  intros H E. simpl in E. apply H.
  apply Permutation_nil_r. rewrite <- E. symmetry. apply fisherYates_Permutation.
Qed.

Lemma galleries_update_other g' gm g (i : nat) :
  GalleryManager.activeGallery gm = Some g ->
  Z.of_nat i <> GalleryManager.activeGalleryIndex gm ->
  GalleryManager.galleries (App.updateActiveGallery g' gm) !! i
  = GalleryManager.galleries gm !! i.
Proof.
  intros [Hpos _]%at_Some Hi. unfold App.updateActiveGallery. simpl.
  apply list_lookup_insert_ne. lia.
Qed.

(** C10. Toggling shuffle, in either direction, only rearranges the active
    gallery's media: the new list is a permutation of the old one, the
    gallery keeps its id, name, folder handle and order, its flag is flipped,
    and no other gallery is touched. This holds whether or not the record
    can be written afterwards. *)
Theorem shuffleGallery_keeps_media host gm w g :
  GalleryManager.activeGallery gm = Some g ->
  Gallery.media g <> [] ->
  let gm' := fst (snd (App.shuffleGallery host (gm, w))) in
  exists g',
    GalleryManager.activeGallery gm' = Some g' /\
    Gallery.media g' ≡ₚ Gallery.media g /\
    Gallery.id g' = Gallery.id g /\
    Gallery.name g' = Gallery.name g /\
    Gallery.directoryHandle g' = Gallery.directoryHandle g /\
    Gallery.order g' = Gallery.order g /\
    Gallery.isShuffled g' = negb (Gallery.isShuffled g) /\
    length (GalleryManager.galleries gm') = length (GalleryManager.galleries gm) /\
    forall i : nat, Z.of_nat i <> GalleryManager.activeGalleryIndex gm ->
      GalleryManager.galleries gm' !! i = GalleryManager.galleries gm !! i.
Proof.
  intros Hg Hne gm'. subst gm'.
  destruct (Gallery.isShuffled g) eqn:Hflag.
  - rewrite (shuffleGallery_off host gm w g Hg Hne Hflag).
    exists (unshuffledGallery g).
    assert (Hperm : Gallery.media (unshuffledGallery g) ≡ₚ Gallery.media g)
      by apply sort_Permutation.
    destruct (transactionThrows host _); cbn [fst snd];
      rewrite ?activeGallery_displayMedia, ?galleries_displayMedia;
      (split; [by eapply activeGallery_update|]);
      repeat (split; [done|]);
      (split; [apply length_insert|]);
      intros i Hi; by eapply galleries_update_other.
  - rewrite (shuffleGallery_on host gm w g Hg Hne Hflag).
    exists (shuffledGallery host (randomCalls w) g).
    assert (Hperm : Gallery.media (shuffledGallery host (randomCalls w) g) ≡ₚ Gallery.media g)
      by apply fisherYates_Permutation.
    destruct (transactionThrows host _); cbn [fst snd];
      rewrite ?activeGallery_displayMedia, ?galleries_displayMedia;
      (split; [by eapply activeGallery_update|]);
      repeat (split; [done|]);
      (split; [apply length_insert|]);
      intros i Hi; by eapply galleries_update_other.
Qed.

Lemma shuffleGallery_keeps_media_witness :
  GalleryManager.activeGallery Demo.manager = Some Demo.holiday /\
  Gallery.media Demo.holiday <> [] /\
  let gm' := fst (snd (App.shuffleGallery Demo.host (Demo.manager, Demo.world))) in
  exists g',
    GalleryManager.activeGallery gm' = Some g' /\
    Gallery.media g' ≡ₚ Gallery.media Demo.holiday /\
    Gallery.id g' = Gallery.id Demo.holiday /\
    Gallery.name g' = Gallery.name Demo.holiday /\
    Gallery.directoryHandle g' = Gallery.directoryHandle Demo.holiday /\
    Gallery.order g' = Gallery.order Demo.holiday /\
    Gallery.isShuffled g' = negb (Gallery.isShuffled Demo.holiday) /\
    length (GalleryManager.galleries gm') = length (GalleryManager.galleries Demo.manager) /\
    forall i : nat, Z.of_nat i <> GalleryManager.activeGalleryIndex Demo.manager ->
      GalleryManager.galleries gm' !! i = GalleryManager.galleries Demo.manager !! i.
Proof.
  split; [reflexivity|]. split; [discriminate|].
  apply (shuffleGallery_keeps_media Demo.host Demo.manager Demo.world Demo.holiday);
    [reflexivity | discriminate].
Defined.

(** ** Shuffle on, then off *)

Lemma StronglySorted_weaken {A} (R1 R2 : A -> A -> Prop) l :
  (forall a b, R1 a b -> R2 a b) -> StronglySorted R1 l -> StronglySorted R2 l.
Proof.
  intros HR. induction 1 as [|x t Hs IH Hall]; constructor; [exact IH|].
  eapply Forall_impl; [exact Hall|]. intros b. apply HR.
Qed.

(** The key under which [byLastModifiedDesc] is an ascending comparator. *)
Lemma byLastModifiedDesc_key a b :
  Gallery.byLastModifiedDesc a b
  = (fun m => - Media.lastModified m) a - (fun m => - Media.lastModified m) b.
Proof. unfold Gallery.byLastModifiedDesc. lia. Qed.

Lemma sort_media_descending l :
  StronglySorted (fun a b => Media.lastModified b <= Media.lastModified a)
                 (JsArray.sort Gallery.byLastModifiedDesc l).
Proof.
  eapply StronglySorted_weaken;
    [|apply (sort_sorted _ _ byLastModifiedDesc_key)].
  unfold ascendingBy. intros a b; simpl; lia.
Qed.

Lemma sort_media_restores l l' :
  StronglySorted (fun a b => Media.lastModified b < Media.lastModified a) l ->
  l' ≡ₚ l -> JsArray.sort Gallery.byLastModifiedDesc l' = l.
Proof.
  intros Hl Hp. apply (sort_restores _ _ byLastModifiedDesc_key); [|exact Hp].
  eapply StronglySorted_weaken; [|exact Hl]. intros a b; simpl; lia.
Qed.

(** C4 (as amended). Starting from an unshuffled active gallery with media,
    toggling shuffle on and then off, with the store accepting the writes:
    both toggles complete; the final list holds the same descriptors in a
    [lastModified]-descending order, and is exactly the list before the
    toggles whenever that list was in descending order with pairwise
    distinct [lastModified]; the store holds the gallery's updated record
    after each toggle; each toggle leaves media index 0 displayed; no scan
    takes place (no permission call is made and no object URL is created or
    revoked). *)
Theorem shuffle_on_then_off host gm w g :
  GalleryManager.activeGallery gm = Some g ->
  Gallery.media g <> [] ->
  Gallery.isShuffled g = false ->
  transactionThrows host (PutRequest (Gallery.id g)) = false ->
  exists gm1 w1 gm2 w2 g1 g2,
    App.shuffleGallery host (gm, w) = (Normal tt, (gm1, w1)) /\
    App.shuffleGallery host (gm1, w1) = (Normal tt, (gm2, w2)) /\
    GalleryManager.activeGallery gm1 = Some g1 /\
    GalleryManager.activeGallery gm2 = Some g2 /\
    Gallery.isShuffled g1 = true /\
    Gallery.isShuffled g2 = false /\
    Gallery.media g2 ≡ₚ Gallery.media g /\
    StronglySorted (fun a b => Media.lastModified b <= Media.lastModified a) (Gallery.media g2) /\
    (StronglySorted (fun a b => Media.lastModified b < Media.lastModified a) (Gallery.media g) ->
     Gallery.media g2 = Gallery.media g) /\
    GalleryDB.lookup (Gallery.id g) (store w1) = Some (GalleryDB.galleryData g1) /\
    GalleryDB.lookup (Gallery.id g) (store w2) = Some (GalleryDB.galleryData g2) /\
    GalleryManager.activeMediaIndex gm1 = 0 /\
    GalleryManager.activeMediaIndex gm2 = 0 /\
    permissionCalls w2 = permissionCalls w /\
    objectURLs w2 = objectURLs w /\
    nextObjectURL w2 = nextObjectURL w.
Proof.
  intros Hg Hne Hoff Hput.
  set (g1 := shuffledGallery host (randomCalls w) g).
  set (g2 := unshuffledGallery g1).
  assert (Hg1 : GalleryManager.activeGallery (App.updateActiveGallery g1 gm) = Some g1)
    by (by eapply activeGallery_update).
  assert (Hne1 : Gallery.media g1 <> []) by (by apply shuffledGallery_media_nonempty).
  set (gm1 := GalleryManager.displayMedia 0 (App.updateActiveGallery g1 gm)).
  assert (Hgm1 : GalleryManager.activeGallery gm1 = Some g1)
    by (unfold gm1; by rewrite activeGallery_displayMedia).
  assert (Hg2 : GalleryManager.activeGallery (App.updateActiveGallery g2 gm1) = Some g2)
    by (by eapply activeGallery_update).
  assert (Hp1 : Gallery.media g1 ≡ₚ Gallery.media g) by apply fisherYates_Permutation.
  assert (Hne2 : Gallery.media g2 <> []).
  { intros E. apply Hne1. apply Permutation_nil_r. rewrite <- E.
    symmetry. apply sort_Permutation. }
  eexists gm1, _, (GalleryManager.displayMedia 0 (App.updateActiveGallery g2 gm1)), _, g1, g2.
  split.
  { rewrite (shuffleGallery_on host gm w g Hg Hne Hoff), Hput. reflexivity. }
  split.
  { rewrite (shuffleGallery_off host gm1 _ g1 Hgm1 Hne1 eq_refl).
    change (Gallery.id g1) with (Gallery.id g). rewrite Hput. reflexivity. }
  split; [exact Hgm1|].
  split; [by rewrite activeGallery_displayMedia|].
  split; [reflexivity|]. split; [reflexivity|].
  split.
  { etransitivity; [apply sort_Permutation|exact Hp1]. }
  split; [apply sort_media_descending|].
  split.
  { intros Hstrict. by apply sort_media_restores. }
  split.
  { simpl. rewrite lookup_put. simpl. by rewrite Z.eqb_refl. }
  split.
  { simpl. rewrite lookup_put. simpl. by rewrite Z.eqb_refl. }
  split.
  { unfold gm1. erewrite displayMedia_in_range; [reflexivity|exact Hg1|].
    destruct (Gallery.media g1); [done|simpl; lia]. }
  split.
  { erewrite displayMedia_in_range; [reflexivity|exact Hg2|].
    destruct (Gallery.media g2); [done|simpl; lia]. }
  by destruct w.
Qed.

Lemma shuffle_on_then_off_witness :
  GalleryManager.activeGallery Demo.manager = Some Demo.holiday /\
  Gallery.media Demo.holiday <> [] /\
  Gallery.isShuffled Demo.holiday = false /\
  transactionThrows Demo.host (PutRequest (Gallery.id Demo.holiday)) = false /\
  exists gm1 w1 gm2 w2 g1 g2,
    App.shuffleGallery Demo.host (Demo.manager, Demo.world) = (Normal tt, (gm1, w1)) /\
    App.shuffleGallery Demo.host (gm1, w1) = (Normal tt, (gm2, w2)) /\
    GalleryManager.activeGallery gm1 = Some g1 /\
    GalleryManager.activeGallery gm2 = Some g2 /\
    Gallery.isShuffled g1 = true /\
    Gallery.isShuffled g2 = false /\
    Gallery.media g2 ≡ₚ Gallery.media Demo.holiday /\
    StronglySorted (fun a b => Media.lastModified b <= Media.lastModified a) (Gallery.media g2) /\
    (StronglySorted (fun a b => Media.lastModified b < Media.lastModified a)
                    (Gallery.media Demo.holiday) ->
     Gallery.media g2 = Gallery.media Demo.holiday) /\
    GalleryDB.lookup (Gallery.id Demo.holiday) (store w1) = Some (GalleryDB.galleryData g1) /\
    GalleryDB.lookup (Gallery.id Demo.holiday) (store w2) = Some (GalleryDB.galleryData g2) /\
    GalleryManager.activeMediaIndex gm1 = 0 /\
    GalleryManager.activeMediaIndex gm2 = 0 /\
    permissionCalls w2 = permissionCalls Demo.world /\
    objectURLs w2 = objectURLs Demo.world /\
    nextObjectURL w2 = nextObjectURL Demo.world.
Proof.
  split; [reflexivity|]. split; [discriminate|]. split; [reflexivity|]. split; [reflexivity|].
  apply (shuffle_on_then_off Demo.host Demo.manager Demo.world Demo.holiday);
    [reflexivity | discriminate | reflexivity | reflexivity].
Defined.

(** C4, the claim as stated fails. The gallery [Demo.twins] holds two files
    with the same [lastModified], in scan order [P; Q], which is a
    [lastModified]-descending list. With a first draw of 0 the shuffle
    exchanges them; the re-sort is stable and leaves [Q; P]: the list before
    the toggles is not restored. *)
Lemma shuffle_round_trip_ties :
  GalleryManager.activeGallery Demo.twinsManager = Some Demo.twins /\
  Gallery.isShuffled Demo.twins = false /\
  Gallery.media Demo.twins = [Demo.mediaP; Demo.mediaQ] /\
  JsArray.sort Gallery.byLastModifiedDesc [Demo.mediaP; Demo.mediaQ]
    = [Demo.mediaP; Demo.mediaQ] /\
  exists gm1 w1 gm2 w2,
    App.shuffleGallery Demo.host (Demo.twinsManager, Demo.world) = (Normal tt, (gm1, w1)) /\
    App.shuffleGallery Demo.host (gm1, w1) = (Normal tt, (gm2, w2)) /\
    option_map Gallery.media (GalleryManager.activeGallery gm1)
      = Some [Demo.mediaQ; Demo.mediaP] /\
    option_map Gallery.media (GalleryManager.activeGallery gm2)
      = Some [Demo.mediaQ; Demo.mediaP] /\
    option_map Gallery.media (GalleryManager.activeGallery gm2)
      <> Some (Gallery.media Demo.twins).
Proof.
  repeat (split; [reflexivity|]).
  eexists _, _, _, _.
  split; [vm_compute; reflexivity|].
  split; [vm_compute; reflexivity|].
  split; [reflexivity|]. split; [reflexivity|].
  vm_compute. discriminate.
Qed.

(** ** Permission verification *)

Lemma Gallery_verifyPermission_run host h (withWrite : bool) w :
  let mode := if withWrite then readwrite else read in
  Gallery.verifyPermission host h withWrite w
  = (verifies host h mode, afterCalls (verifyCalls host h mode) w).
Proof.
  cbv zeta. unfold Gallery.verifyPermission, verifies, verifyCalls, afterCalls.
  unfold Web.callQueryPermission, Web.callRequestPermission, bind, modify, Web.await, ret, throw.
  destruct (queryPermission host h _) as [[]|e];
    try destruct (requestPermission host h _) as [[]|e'];
    destruct w; unfold set_permissionCalls; simpl; rewrite <- ?app_assoc; reflexivity.
Qed.

Lemma GalleryManager_verifyPermission_run host h (withWrite : bool) w :
  let mode := if withWrite then readwrite else read in
  GalleryManager.verifyPermission host h withWrite w
  = (verifies host h mode, afterCalls (verifyCalls host h mode) w).
Proof. apply Gallery_verifyPermission_run. Qed.

(** ** Scanning a folder *)

Lemma afterCreate_0 w : afterCreate 0 w = w.
Proof.
  destruct w. unfold afterCreate, set_nextObjectURL, set_objectURLs. simpl.
  by rewrite (left_id_L ∅ (∪)).
Qed.

Lemma afterCreate_S k w :
  afterCreate k (set_nextObjectURL S (set_objectURLs (fun live => {[nextObjectURL w]} ∪ live) w))
  = afterCreate (S k) w.
Proof.
  destruct w. unfold afterCreate, set_nextObjectURL, set_objectURLs. simpl.
  f_equal; [|lia].
  rewrite (assoc_L (∪)). f_equal. apply (comm_L (∪)).
Qed.

Lemma loadEntry_resolved e f g w :
  Gallery.entry_getFile e = Resolved f ->
  Gallery.loadEntry e (g, w)
  = (Normal tt,
     (Gallery.set_media (fun m => m ++ [Media.mk (Gallery.entry_name e) (Gallery.scanned_path e)
                                          (nextObjectURL w) (Gallery.scanned_type e) f
                                          (File.lastModified f)]) g,
      set_nextObjectURL S (set_objectURLs (fun live => {[nextObjectURL w]} ∪ live) w))).
Proof.
  intros Hf. unfold Gallery.loadEntry, try_catch, bind. rewrite Hf. reflexivity.
Qed.

Lemma loadEntry_rejected e err g w :
  Gallery.entry_getFile e = Rejected err ->
  Gallery.loadEntry e (g, w) = (Normal tt, (g, w)).
Proof.
  intros Hf. unfold Gallery.loadEntry, try_catch, bind. rewrite Hf. reflexivity.
Qed.

Lemma for_of_loadEntry entries : forall g w,
  for_of entries Gallery.loadEntry (g, w)
  = (Normal tt,
     (Gallery.set_media (fun m => m ++ collect entries (nextObjectURL w)) g,
      afterCreate (length (List.filter readable entries)) w)).
Proof.
  induction entries as [|e t IH]; intros g w.
  - simpl. rewrite afterCreate_0. unfold ret. destruct g; unfold Gallery.set_media; simpl.
    by rewrite app_nil_r.
  - cbn [for_of]. unfold bind at 1. unfold readable at 1. cbn [List.filter collect].
    destruct (Gallery.entry_getFile e) as [f|err] eqn:Hf.
    + rewrite (loadEntry_resolved _ _ _ _ Hf), IH. cbn [length].
      rewrite afterCreate_S.
      destruct g, w; unfold Gallery.set_media; simpl. by rewrite <- app_assoc.
    + rewrite (loadEntry_rejected _ _ _ _ Hf), IH. reflexivity.
Qed.

(** The descriptors of one scan carry pairwise different object URLs. *)
Lemma collect_urls entries : forall u m, m ∈ collect entries u -> (u <= Media.url m)%nat.
Proof.
  induction entries as [|e t IH]; intros u m Hm; [by apply elem_of_nil in Hm|].
  cbn [collect] in Hm. destruct (Gallery.entry_getFile e).
  - apply elem_of_cons in Hm as [->|Hm]; [simpl; lia|].
    apply IH in Hm. lia.
  - by apply IH.
Qed.

Lemma collect_NoDup entries : forall u, NoDup (collect entries u).
Proof.
  induction entries as [|e t IH]; intros u; [constructor|].
  cbn [collect]. destruct (Gallery.entry_getFile e); [|apply IH].
  constructor; [|apply IH].
  intros Hin. apply collect_urls in Hin. simpl in Hin. lia.
Qed.

Lemma loadMedia_granted host g w :
  verifies host (Gallery.directoryHandle g) readwrite = Normal true ->
  Gallery.loadMedia host (g, w)
  = if Gallery.isShuffled g
    then (Normal tt,
          (Gallery.set_media
             (fun _ => fisherYates host (length (scanResult host g w) - 1)
                                   (scanResult host g w) (randomCalls w)) g,
           advanceRandom (length (scanResult host g w) - 1) (afterScan host g w)))
    else (Normal tt,
          (Gallery.set_media (fun _ => scanResult host g w) g, afterScan host g w)).
Proof.
  intros Hv. unfold Gallery.loadMedia.
  unfold bind at 1. unfold setThis at 1. cbn [fst snd].
  unfold try_catch. unfold bind at 1. unfold getThis at 1. cbn [fst snd].
  unfold bind at 1. unfold liftWorld at 1. cbn [fst snd Gallery.directoryHandle Gallery.set_media].
  rewrite (Gallery_verifyPermission_run host _ true). cbv zeta. rewrite Hv. cbn [negb].
  unfold bind at 1.
  change (Gallery.scanDirectoryRecursive _ _) with (scanned host g).
  rewrite for_of_loadEntry.
  unfold bind at 1. unfold setThis at 1. cbn [fst snd].
  unfold bind at 1. unfold getThis at 1. cbn [fst snd Gallery.isShuffled Gallery.set_media].
  change (JsArray.sort Gallery.byLastModifiedDesc _) with (scanResult host g w).
  destruct (Gallery.isShuffled g).
  - unfold bind, liftWorld, Web.shuffleInPlace. cbn [fst snd Gallery.media].
    rewrite shuffleFrom_run. unfold setThis. cbn [fst snd].
    destruct g, w; reflexivity.
  - unfold ret. destruct g, w; reflexivity.
Qed.

Lemma loadMedia_not_granted host g w :
  verifies host (Gallery.directoryHandle g) readwrite <> Normal true ->
  Gallery.loadMedia host (g, w)
  = (Normal tt,
     (Gallery.set_media (fun _ => []) g,
      afterCalls (verifyCalls host (Gallery.directoryHandle g) readwrite) w)).
Proof.
  intros Hv. unfold Gallery.loadMedia.
  unfold bind at 1. unfold setThis at 1. cbn [fst snd].
  unfold try_catch. unfold bind at 1. unfold getThis at 1. cbn [fst snd].
  unfold bind at 1. unfold liftWorld at 1. cbn [fst snd Gallery.directoryHandle Gallery.set_media].
  rewrite (Gallery_verifyPermission_run host _ true). cbv zeta.
  destruct (verifies host (Gallery.directoryHandle g) readwrite) as [[]|e]; [done|..];
    reflexivity.
Qed.

(** [loadMedia] handles every failure itself. *)
Lemma loadMedia_completes host g w : fst (Gallery.loadMedia host (g, w)) = Normal tt.
Proof.
  destruct (verifies host (Gallery.directoryHandle g) readwrite) as [[]|e] eqn:Hv.
  - rewrite loadMedia_granted by exact Hv. by destruct (Gallery.isShuffled g).
  - rewrite loadMedia_not_granted; [done|]. by rewrite Hv.
  - rewrite loadMedia_not_granted; [done|]. by rewrite Hv.
Qed.

Lemma sort_media_stable t l :
  List.filter (fun m => Media.lastModified m =? t) (JsArray.sort Gallery.byLastModifiedDesc l)
  = List.filter (fun m => Media.lastModified m =? t) l.
Proof.
  pose proof (sort_stable _ _ byLastModifiedDesc_key (- t) l) as H.
  assert (Hext : forall l',
    List.filter (fun m => - Media.lastModified m =? - t) l'
    = List.filter (fun m => Media.lastModified m =? t) l').
  { intros l'. apply List.filter_ext. intros m.
    destruct (Media.lastModified m =? t) eqn:E.
    - apply Z.eqb_eq in E. apply Z.eqb_eq. lia.
    - apply Z.eqb_neq in E. apply Z.eqb_neq. lia. }
  by rewrite !Hext in H.
Qed.

(** C3. A scan that is allowed to read the folder completes and leaves, for
    an unshuffled gallery, the descriptors of the readable media files
    sorted by [lastModified], latest first (a stable sort: files modified at
    the same time stay in the order they were found); for a shuffled gallery
    it leaves what the Fisher–Yates loop makes of that sorted list with the
    host's random draws, which is a permutation of it, and no two different
    sequences of draws lead to the same arrangement (the loop favours none:
    it is as uniform as the draws are). Three files found in the order
    A (100), B (300), C (200) are listed as B, C, A. *)
Theorem loadMedia_order host g w :
  verifies host (Gallery.directoryHandle g) readwrite = Normal true ->
  let found := collect (scanned host g) (nextObjectURL w) in
  let sorted := JsArray.sort Gallery.byLastModifiedDesc found in
  exists g' w',
    Gallery.loadMedia host (g, w) = (Normal tt, (g', w')) /\
    sorted ≡ₚ found /\
    StronglySorted (fun a b => Media.lastModified b <= Media.lastModified a) sorted /\
    (forall t, List.filter (fun m => Media.lastModified m =? t) sorted
               = List.filter (fun m => Media.lastModified m =? t) found) /\
    (Gallery.isShuffled g = false -> Gallery.media g' = sorted) /\
    (Gallery.isShuffled g = true ->
     Gallery.media g' = fisherYates host (length sorted - 1) sorted (randomCalls w) /\
     Gallery.media g' ≡ₚ sorted) /\
    (forall host' k',
       fisherYates host' (length sorted - 1) sorted k'
       = fisherYates host (length sorted - 1) sorted (randomCalls w) ->
       forall n, (n < length sorted - 1)%nat ->
         drawnIndex host' (Z.of_nat (length sorted - 1 - n) + 1) (k' + n)
         = drawnIndex host (Z.of_nat (length sorted - 1 - n) + 1) (randomCalls w + n)) /\
    (forall a b c,
       found = [a; b; c] ->
       Media.lastModified a = 100 -> Media.lastModified b = 300 ->
       Media.lastModified c = 200 ->
       Gallery.isShuffled g = false ->
       Gallery.media g' = [b; c; a]).
Proof.
  intros Hv found sorted.
  rewrite (loadMedia_granted host g w Hv).
  fold found. change (scanResult host g w) with sorted.
  assert (Hscenario : forall a b c, found = [a; b; c] ->
            Media.lastModified a = 100 -> Media.lastModified b = 300 ->
            Media.lastModified c = 200 -> sorted = [b; c; a]).
  { intros a b c Hf Ha Hb Hc. unfold sorted. rewrite Hf.
    unfold JsArray.sort. cbn [foldr JsArray.sortInsert].
    unfold Gallery.byLastModifiedDesc at 2. rewrite Hb, Hc.
    change (0 <? 200 - 300) with false. cbv iota. cbn [JsArray.sortInsert].
    unfold Gallery.byLastModifiedDesc. rewrite Ha, Hb, Hc. reflexivity. }
  assert (Hdraws : forall host' k',
            fisherYates host' (length sorted - 1) sorted k'
            = fisherYates host (length sorted - 1) sorted (randomCalls w) ->
            forall n, (n < length sorted - 1)%nat ->
              drawnIndex host' (Z.of_nat (length sorted - 1 - n) + 1) (k' + n)
              = drawnIndex host (Z.of_nat (length sorted - 1 - n) + 1) (randomCalls w + n)).
  { intros host' k' Heq n Hn.
    refine (fisherYates_injective host' host _ sorted k' _ _ _ Heq n Hn); [|lia].
    unfold sorted. rewrite sort_Permutation. apply collect_NoDup. }
  destruct (Gallery.isShuffled g) eqn:Hflag; eexists _, _; (split; [reflexivity|]).
  - split; [apply sort_Permutation|]. split; [apply sort_media_descending|].
    split; [intros t; apply sort_media_stable|].
    split; [discriminate|].
    split; [intros _; split; [reflexivity|apply fisherYates_Permutation]|].
    split; [exact Hdraws|discriminate].
  - split; [apply sort_Permutation|]. split; [apply sort_media_descending|].
    split; [intros t; apply sort_media_stable|].
    split; [reflexivity|].
    split; [discriminate|].
    split; [exact Hdraws|].
    intros a b c Hf Ha Hb Hc _. simpl. by eapply Hscenario.
Qed.

Lemma loadMedia_order_witness :
  verifies Demo.host (Gallery.directoryHandle Demo.holiday) readwrite = Normal true /\
  map Media.name (Gallery.media (fst (snd (Gallery.loadMedia Demo.host (Demo.holiday, Demo.world)))))
  = ["B.png"; "C.webm"; "A.jpg"]%string /\
  let found := collect (scanned Demo.host Demo.holiday) (nextObjectURL Demo.world) in
  let sorted := JsArray.sort Gallery.byLastModifiedDesc found in
  exists g' w',
    Gallery.loadMedia Demo.host (Demo.holiday, Demo.world) = (Normal tt, (g', w')) /\
    sorted ≡ₚ found /\
    StronglySorted (fun a b => Media.lastModified b <= Media.lastModified a) sorted /\
    (forall t, List.filter (fun m => Media.lastModified m =? t) sorted
               = List.filter (fun m => Media.lastModified m =? t) found) /\
    (Gallery.isShuffled Demo.holiday = false -> Gallery.media g' = sorted) /\
    (Gallery.isShuffled Demo.holiday = true ->
     Gallery.media g'
     = fisherYates Demo.host (length sorted - 1) sorted (randomCalls Demo.world) /\
     Gallery.media g' ≡ₚ sorted) /\
    (forall host' k',
       fisherYates host' (length sorted - 1) sorted k'
       = fisherYates Demo.host (length sorted - 1) sorted (randomCalls Demo.world) ->
       forall n, (n < length sorted - 1)%nat ->
         drawnIndex host' (Z.of_nat (length sorted - 1 - n) + 1) (k' + n)
         = drawnIndex Demo.host (Z.of_nat (length sorted - 1 - n) + 1)
                      (randomCalls Demo.world + n)) /\
    (forall a b c,
       found = [a; b; c] ->
       Media.lastModified a = 100 -> Media.lastModified b = 300 ->
       Media.lastModified c = 200 ->
       Gallery.isShuffled Demo.holiday = false ->
       Gallery.media g' = [b; c; a]).
Proof.
  split; [reflexivity|]. split; [vm_compute; reflexivity|].
  apply (loadMedia_order Demo.host Demo.holiday Demo.world). reflexivity.
Defined.

(** ** Closing a gallery *)

Lemma revoke_all (ms : list Media.t) : forall w,
  for_of ms (fun media => Web.revokeObjectURL (Media.url media)) w
  = (Normal tt, afterRevoke (map Media.url ms) w).
Proof.
  induction ms as [|m t IH]; intros w.
  - simpl. unfold ret, afterRevoke, set_objectURLs. destruct w; simpl.
    by rewrite difference_empty_L.
  - cbn [for_of map]. unfold bind, Web.revokeObjectURL, modify. rewrite IH.
    unfold afterRevoke, set_objectURLs. destruct w; simpl. f_equal. f_equal.
    apply difference_difference_l_L.
Qed.

Lemma selectGallery_index k gm :
  GalleryManager.activeGalleryIndex (GalleryManager.selectGallery k gm)
  = if ((k <? 0) || (GalleryManager.length_ gm <=? k))%bool
    then GalleryManager.activeGalleryIndex gm else k.
Proof.
  unfold GalleryManager.selectGallery.
  destruct ((k <? 0) || (GalleryManager.length_ gm <=? k))%bool; [reflexivity|].
  cbn [GalleryManager.galleries GalleryManager.set_previousMediaIndex
       GalleryManager.set_isRandomMode GalleryManager.set_activeMediaIndex
       GalleryManager.set_activeGalleryIndex].
  destruct (JsArray.at_ (GalleryManager.galleries gm) k); [|reflexivity].
  destruct (0 <? _); [|reflexivity].
  by rewrite activeGalleryIndex_displayMedia.
Qed.

Lemma selectGallery_galleries k gm :
  GalleryManager.galleries (GalleryManager.selectGallery k gm) = GalleryManager.galleries gm.
Proof.
  unfold GalleryManager.selectGallery.
  destruct ((k <? 0) || (GalleryManager.length_ gm <=? k))%bool; [reflexivity|].
  cbn [GalleryManager.galleries GalleryManager.set_previousMediaIndex
       GalleryManager.set_isRandomMode GalleryManager.set_activeMediaIndex
       GalleryManager.set_activeGalleryIndex].
  destruct (JsArray.at_ (GalleryManager.galleries gm) k); [|reflexivity].
  destruct (0 <? _); [|reflexivity].
  by rewrite galleries_displayMedia.
Qed.

Lemma spliceDelete1_in_range {A} (l : list A) i x :
  JsArray.at_ l i = Some x ->
  JsArray.spliceDelete1 l i = take (Z.to_nat i) l ++ drop (S (Z.to_nat i)) l.
Proof.
  intros H. pose proof (at_lt _ _ _ H) as Hi.
  unfold JsArray.spliceDelete1, JsArray.relativeStart.
  destruct (i <? 0) eqn:E; [apply Z.ltb_lt in E; lia|].
  by rewrite Z.min_l by lia.
Qed.

Lemma spliceDelete1_length {A} (l : list A) i x :
  JsArray.at_ l i = Some x ->
  Z.of_nat (length (JsArray.spliceDelete1 l i)) = Z.of_nat (length l) - 1.
Proof.
  intros H. pose proof (at_lt _ _ _ H) as Hi.
  rewrite (spliceDelete1_in_range _ _ _ H).
  rewrite length_app, length_take, length_drop. lia.
Qed.

Lemma closeGallery_run host gm w i g :
  JsArray.at_ (GalleryManager.galleries gm) i = Some g ->
  transactionThrows host (DeleteRequest (Gallery.id g)) = false ->
  let gs := JsArray.spliceDelete1 (GalleryManager.galleries gm) i in
  let gm1 := GalleryManager.set_galleries (fun _ => gs) gm in
  let w' := set_store (GalleryDB.delete (Gallery.id g))
                      (afterRevoke (map Media.url (Gallery.media g)) w) in
  GalleryManager.closeGallery host i (gm, w)
  = (Normal tt,
     (if 0 <? Z.of_nat (length gs)
      then
        let a := reselected i (GalleryManager.activeGalleryIndex gm) (Z.of_nat (length gs)) in
        GalleryManager.selectGallery a (GalleryManager.set_activeGalleryIndex a gm1)
      else GalleryManager.set_activeGalleryIndex (-1) gm1,
      w')).
Proof.
  intros Hg Hdel. cbv zeta.
  unfold GalleryManager.closeGallery.
  unfold bind at 1. unfold getThis at 1. cbn [fst snd]. rewrite Hg.
  unfold bind at 1. unfold liftWorld at 1. cbn [fst snd]. rewrite revoke_all.
  unfold bind at 1. unfold liftWorld at 1. cbn [fst snd].
  unfold GalleryDB.deleteGallery, GalleryDB.transaction. rewrite Hdel.
  unfold bind at 1. unfold bind at 1. unfold ret at 1. unfold modify at 1.
  unfold bind at 1. unfold setThis at 1. cbn [fst snd].
  unfold bind at 1. unfold getThis at 1. cbn [fst snd].
  unfold GalleryManager.length_ at 1. cbn [GalleryManager.galleries GalleryManager.set_galleries].
  destruct (0 <? _) eqn:Hlen; [|reflexivity].
  unfold reselected. cbn [GalleryManager.activeGalleryIndex GalleryManager.set_galleries].
  unfold GalleryManager.length_. cbn [GalleryManager.galleries].
  destruct (i <? GalleryManager.activeGalleryIndex gm);
    [reflexivity|destruct (i =? GalleryManager.activeGalleryIndex gm)];
    reflexivity.
Qed.

(** C5. Closing the gallery at a valid index [i] of a collection of [N]
    galleries, with the store accepting the deletion: the gallery is removed
    from the array and its record from the store; the active index becomes
    the old one minus 1 when [i] was before it, [min i (N-2)] when [i] was the
    active one and galleries remain, stays when [i] was behind it, and is [-1]
    when no gallery is left. *)
Theorem closeGallery_reselects host gm w i g :
  JsArray.at_ (GalleryManager.galleries gm) i = Some g ->
  -1 <= GalleryManager.activeGalleryIndex gm < GalleryManager.length_ gm ->
  transactionThrows host (DeleteRequest (Gallery.id g)) = false ->
  let N := GalleryManager.length_ gm in
  let a := GalleryManager.activeGalleryIndex gm in
  exists gm' w',
    GalleryManager.closeGallery host i (gm, w) = (Normal tt, (gm', w')) /\
    GalleryManager.galleries gm'
      = take (Z.to_nat i) (GalleryManager.galleries gm)
        ++ drop (S (Z.to_nat i)) (GalleryManager.galleries gm) /\
    GalleryManager.length_ gm' = N - 1 /\
    (i < a -> GalleryManager.activeGalleryIndex gm' = a - 1) /\
    (i = a -> 0 < N - 1 -> GalleryManager.activeGalleryIndex gm' = Z.min i (N - 2)) /\
    (a < i -> GalleryManager.activeGalleryIndex gm' = a) /\
    (N - 1 = 0 -> GalleryManager.activeGalleryIndex gm' = -1) /\
    store w' = GalleryDB.delete (Gallery.id g) (store w) /\
    GalleryDB.lookup (Gallery.id g) (store w') = None.
Proof.
  intros Hg Ha Hdel N a.
  pose proof (at_lt _ _ _ Hg) as Hi.
  pose proof (spliceDelete1_length _ _ _ Hg) as Hlen.
  rewrite (closeGallery_run host gm w i g Hg Hdel). cbv zeta.
  eexists _, _. split; [reflexivity|].
  unfold GalleryManager.length_ in *. fold a in Ha. 
  set (gs := JsArray.spliceDelete1 (GalleryManager.galleries gm) i) in *.
  assert (Hgal : forall k, GalleryManager.galleries
            (if 0 <? Z.of_nat (length gs)
             then GalleryManager.selectGallery k
                    (GalleryManager.set_activeGalleryIndex k
                       (GalleryManager.set_galleries (fun _ => gs) gm))
             else GalleryManager.set_activeGalleryIndex (-1)
                    (GalleryManager.set_galleries (fun _ => gs) gm)) = gs).
  { intros k. destruct (0 <? _); [|reflexivity]. by rewrite selectGallery_galleries. }
  rewrite Hgal.
  split; [by apply spliceDelete1_in_range in Hg|].
  split; [exact Hlen|].
  destruct (0 <? Z.of_nat (length gs)) eqn:Hpos.
  - apply Z.ltb_lt in Hpos. rewrite selectGallery_index.
    unfold GalleryManager.length_, reselected.
    cbn [GalleryManager.galleries GalleryManager.activeGalleryIndex
         GalleryManager.set_activeGalleryIndex GalleryManager.set_galleries].
    fold a. rewrite Hlen.
    split; [|split; [|split; [|split; [|split]]]].
    + intros Hlt. destruct (i <? a) eqn:E; [|apply Z.ltb_ge in E; lia].
      by destruct (_ || _)%bool.
    + intros Heq _. destruct (i <? a) eqn:E; [apply Z.ltb_lt in E; lia|].
      destruct (i =? a) eqn:E2; [|apply Z.eqb_neq in E2; lia].
      replace (Z.of_nat (length (GalleryManager.galleries gm)) - 1 - 1)
        with (N - 2) by (unfold N, GalleryManager.length_; lia).
      by destruct (_ || _)%bool.
    + intros Hgt. destruct (i <? a) eqn:E; [apply Z.ltb_lt in E; lia|].
      destruct (i =? a) eqn:E2; [apply Z.eqb_eq in E2; lia|].
      by destruct (_ || _)%bool.
    + unfold N, GalleryManager.length_. lia.
    + reflexivity.
    + cbn [store set_store]. apply lookup_delete.
  - apply Z.ltb_ge in Hpos. cbn [GalleryManager.activeGalleryIndex GalleryManager.set_activeGalleryIndex].
    split; [lia|]. split; [unfold N, GalleryManager.length_; lia|].
    split; [lia|]. split; [done|]. split; [reflexivity|].
    cbn [store set_store]. apply lookup_delete.
Qed.

Lemma closeGallery_reselects_witness :
  JsArray.at_ (GalleryManager.galleries Demo.manager) 0 = Some Demo.holiday /\
  -1 <= GalleryManager.activeGalleryIndex Demo.manager < GalleryManager.length_ Demo.manager /\
  transactionThrows Demo.host (DeleteRequest (Gallery.id Demo.holiday)) = false /\
  let N := GalleryManager.length_ Demo.manager in
  let a := GalleryManager.activeGalleryIndex Demo.manager in
  exists gm' w',
    GalleryManager.closeGallery Demo.host 0 (Demo.manager, Demo.world) = (Normal tt, (gm', w')) /\
    GalleryManager.galleries gm'
      = take (Z.to_nat 0) (GalleryManager.galleries Demo.manager)
        ++ drop (S (Z.to_nat 0)) (GalleryManager.galleries Demo.manager) /\
    GalleryManager.length_ gm' = N - 1 /\
    (0 < a -> GalleryManager.activeGalleryIndex gm' = a - 1) /\
    (0 = a -> 0 < N - 1 -> GalleryManager.activeGalleryIndex gm' = Z.min 0 (N - 2)) /\
    (a < 0 -> GalleryManager.activeGalleryIndex gm' = a) /\
    (N - 1 = 0 -> GalleryManager.activeGalleryIndex gm' = -1) /\
    store w' = GalleryDB.delete (Gallery.id Demo.holiday) (store Demo.world) /\
    GalleryDB.lookup (Gallery.id Demo.holiday) (store w') = None.
Proof.
  split; [reflexivity|].
  split; [unfold GalleryManager.length_; simpl; lia|]. split; [reflexivity|].
  apply (closeGallery_reselects Demo.host Demo.manager Demo.world 0 Demo.holiday);
    [reflexivity | unfold GalleryManager.length_; simpl; lia | reflexivity].
Defined.

(** ** Reordering by tab drop *)

Lemma lookup_without {A} (l : list A) (f k : nat) :
  (f < length l)%nat ->
  (take f l ++ drop (S f) l) !! k = if decide (k < f)%nat then l !! k else l !! S k.
Proof.
  intros Hf. destruct (decide (k < f)%nat) as [Hk|Hk].
  - rewrite lookup_app_l by (rewrite length_take; lia). by apply lookup_take_lt.
  - rewrite lookup_app_r by (rewrite length_take; lia).
    rewrite length_take, lookup_drop. f_equal. lia.
Qed.

Lemma lookup_with {A} (d : list A) (t k : nat) x :
  (t <= length d)%nat ->
  (take t d ++ x :: drop t d) !! k
  = if decide (k < t)%nat then d !! k
    else if decide (k = t) then Some x else d !! (k - 1)%nat.
Proof.
  intros Ht. destruct (decide (k < t)%nat) as [Hk|Hk].
  - rewrite lookup_app_l by (rewrite length_take; lia). by apply lookup_take_lt.
  - rewrite lookup_app_r by (rewrite length_take; lia).
    rewrite length_take, Nat.min_l by lia.
    destruct (decide (k = t)) as [->|Hne].
    + by rewrite Nat.sub_diag.
    + destruct (k - t)%nat as [|m] eqn:E; [lia|]. simpl.
      rewrite lookup_drop. f_equal. lia.
Qed.

Lemma spliceInsert_in_range {A} (d : list A) t x :
  0 <= t <= Z.of_nat (length d) ->
  JsArray.spliceInsert d t x = take (Z.to_nat t) d ++ x :: drop (Z.to_nat t) d.
Proof.
  intros Ht. unfold JsArray.spliceInsert, JsArray.relativeStart.
  destruct (t <? 0) eqn:E; [apply Z.ltb_lt in E; lia|].
  by rewrite Z.min_l by lia.
Qed.

Lemma spliceInsert_Permutation {A} (d : list A) t x : JsArray.spliceInsert d t x ≡ₚ x :: d.
Proof.
  unfold JsArray.spliceInsert. rewrite <- Permutation_middle.
  by rewrite take_drop.
Qed.

Lemma spliceDelete1_Permutation {A} (l : list A) i x :
  JsArray.at_ l i = Some x -> x :: JsArray.spliceDelete1 l i ≡ₚ l.
Proof.
  intros H. rewrite (spliceDelete1_in_range _ _ _ H).
  apply at_Some in H as [_ H].
  rewrite Permutation_middle. by rewrite take_drop_middle.
Qed.

(** Where the element that was at position [a] sits after the move. *)
Lemma moved_lookup {A} (l : list A) (from to a : Z) x :
  JsArray.at_ l from = Some x ->
  0 <= to < Z.of_nat (length l) ->
  0 <= a < Z.of_nat (length l) ->
  JsArray.at_ (JsArray.spliceInsert (JsArray.spliceDelete1 l from) to x) (movedActive from to a)
  = JsArray.at_ l a.
Proof.
  intros Hx Hto Ha.
  pose proof (at_lt _ _ _ Hx) as Hfrom.
  pose proof (spliceDelete1_length _ _ _ Hx) as Hlen.
  rewrite spliceInsert_in_range by lia.
  rewrite (spliceDelete1_in_range _ _ _ Hx).
  rewrite (spliceDelete1_in_range _ _ _ Hx) in Hlen.
  apply at_Some in Hx as [_ Hx].
  unfold movedActive.
  destruct (a =? from) eqn:E1; [apply Z.eqb_eq in E1|apply Z.eqb_neq in E1].
  { subst a. unfold JsArray.at_.
    destruct (to <? 0) eqn:E; [apply Z.ltb_lt in E; lia|].
    destruct (from <? 0) eqn:E'; [apply Z.ltb_lt in E'; lia|].
    rewrite lookup_with by lia.
    destruct (decide (Z.to_nat to < Z.to_nat to)%nat); [lia|].
    destruct (decide (Z.to_nat to = Z.to_nat to)); [by rewrite Hx|done]. }
  assert (Hcase :
    forall a' : Z, 0 <= a' ->
      (if decide (Z.to_nat a' < Z.to_nat to)%nat
       then (if decide (Z.to_nat a' < Z.to_nat from)%nat then a' = a else a' + 1 = a)
       else Z.to_nat a' <> Z.to_nat to /\
            (if decide (Z.to_nat a' - 1 < Z.to_nat from)%nat then a' - 1 = a else a' = a)) ->
      JsArray.at_ (take (Z.to_nat to) (take (Z.to_nat from) l ++ drop (S (Z.to_nat from)) l)
                   ++ x :: drop (Z.to_nat to) (take (Z.to_nat from) l ++ drop (S (Z.to_nat from)) l))
                  a'
      = JsArray.at_ l a).
  { intros a' Ha' Hc. unfold JsArray.at_.
    destruct (a' <? 0) eqn:E; [apply Z.ltb_lt in E; lia|].
    destruct (a <? 0) eqn:E'; [apply Z.ltb_lt in E'; lia|].
    rewrite lookup_with by lia.
    destruct (decide (Z.to_nat a' < Z.to_nat to)%nat).
    - rewrite lookup_without by lia.
      destruct (decide (Z.to_nat a' < Z.to_nat from)%nat); subst; [done|].
      f_equal. lia.
    - destruct Hc as [Hne Hc].
      destruct (decide (Z.to_nat a' = Z.to_nat to)); [done|].
      rewrite lookup_without by lia.
      destruct (decide (Z.to_nat a' - 1 < Z.to_nat from)%nat); subst; f_equal; lia. }
  destruct ((from <? a) && (a <=? to))%bool eqn:E2.
  { apply andb_true_iff in E2 as [E2 E3]. apply Z.ltb_lt in E2. apply Z.leb_le in E3.
    apply Hcase; [lia|]. repeat case_decide; try lia. }
  destruct ((a <? from) && (to <=? a))%bool eqn:E3.
  { apply andb_true_iff in E3 as [E3 E4]. apply Z.ltb_lt in E3. apply Z.leb_le in E4.
    apply Hcase; [lia|]. repeat case_decide; try lia. }
  apply andb_false_iff in E2, E3.
  rewrite Z.ltb_ge, Z.leb_gt in E2. rewrite Z.ltb_ge, Z.leb_gt in E3.
  apply Hcase; [lia|]. repeat case_decide; try lia.
Qed.

Lemma save_all host gs :
  (forall id, transactionThrows host (PutRequest id) = false) ->
  forall w, for_of gs (GalleryDB.saveGallery host) w = (Normal tt, set_store (savedAll gs) w).
Proof.
  intros Hput. induction gs as [|g t IH]; intros w.
  - by destruct w.
  - cbn [for_of]. unfold bind. rewrite saveGallery_run by apply Hput.
    rewrite IH. by destruct w.
Qed.

Lemma lookup_savedAll_other k gs : forall st,
  k ∉ map Gallery.id gs ->
  GalleryDB.lookup k (savedAll gs st) = GalleryDB.lookup k st.
Proof.
  induction gs as [|g t IH]; intros st Hk; [reflexivity|].
  cbn [savedAll foldl]. fold (savedAll t (GalleryDB.put (GalleryDB.galleryData g) st)).
  cbn [map] in Hk. apply not_elem_of_cons in Hk as [Hne Hk].
  rewrite IH by exact Hk. rewrite lookup_put. cbn [GalleryDB.galleryData StoredGallery.id].
  destruct (k =? Gallery.id g) eqn:E; [apply Z.eqb_eq in E; done|reflexivity].
Qed.

Lemma lookup_savedAll gs : forall st g,
  NoDup (map Gallery.id gs) -> g ∈ gs ->
  GalleryDB.lookup (Gallery.id g) (savedAll gs st) = Some (GalleryDB.galleryData g).
Proof.
  induction gs as [|x t IH]; intros st g Hnd Hg; [by apply elem_of_nil in Hg|].
  cbn [map] in Hnd. apply NoDup_cons in Hnd as [Hx Hnd].
  cbn [savedAll foldl]. fold (savedAll t (GalleryDB.put (GalleryDB.galleryData x) st)).
  apply elem_of_cons in Hg as [->|Hg].
  - rewrite lookup_savedAll_other by exact Hx.
    rewrite lookup_put. cbn [GalleryDB.galleryData StoredGallery.id]. by rewrite Z.eqb_refl.
  - by apply IH.
Qed.

Lemma reordered_ids gs from to g :
  JsArray.at_ gs from = Some g ->
  map Gallery.id (reordered gs from to g) ≡ₚ map Gallery.id gs.
Proof.
  intros Hg. unfold reordered, JsArray.mapIndexed.
  change (map Gallery.id ?l) with (Gallery.id <$> l).
  rewrite fmap_imap.
  rewrite (imap_ext _ (const Gallery.id)) by done. rewrite imap_const.
  rewrite spliceInsert_Permutation. by rewrite (spliceDelete1_Permutation _ _ _ Hg).
Qed.

Lemma reordered_length gs from to g :
  JsArray.at_ gs from = Some g -> length (reordered gs from to g) = length gs.
Proof.
  intros Hg. pose proof (reordered_ids gs from to g Hg) as Hp.
  apply Permutation_length in Hp. by rewrite !length_map in Hp.
Qed.

Lemma reordered_dense gs from to g (k : nat) g' :
  reordered gs from to g !! k = Some g' -> Gallery.order g' = Some (Z.of_nat k).
Proof.
  unfold reordered, JsArray.mapIndexed. rewrite list_lookup_imap.
  destruct (_ !! k); [|discriminate]. simpl. by intros [= <-].
Qed.

Lemma handleTabDrop_run host gm w from to g :
  from <> to ->
  JsArray.at_ (GalleryManager.galleries gm) from = Some g ->
  (forall id, transactionThrows host (PutRequest id) = false) ->
  GalleryManager.handleTabDrop host from to (gm, w)
  = (Normal tt,
     (GalleryManager.mk (reordered (GalleryManager.galleries gm) from to g)
                        (movedActive from to (GalleryManager.activeGalleryIndex gm))
                        (GalleryManager.activeMediaIndex gm)
                        (GalleryManager.isRandomMode gm)
                        (GalleryManager.previousMediaIndex gm),
      set_store (savedAll (reordered (GalleryManager.galleries gm) from to g)) w)).
Proof.
  intros Hne Hg Hput. unfold GalleryManager.handleTabDrop.
  destruct (from =? to) eqn:E; [apply Z.eqb_eq in E; done|].
  unfold bind at 1. unfold getThis at 1. cbn [fst snd]. rewrite Hg.
  unfold bind at 1. unfold setThis at 1. cbn [fst snd].
  unfold bind at 1. unfold setThis at 1. cbn [fst snd].
  unfold movedActive.
  destruct (GalleryManager.activeGalleryIndex gm =? from);
    [|destruct (_ && _)%bool; [|destruct (_ && _)%bool]];
    unfold bind, ret, setThis, getThis, try_catch, liftWorld; cbn [fst snd];
    rewrite (save_all host _ Hput); reflexivity.
Qed.

Lemma handleTabDrop_any host gm w from to g :
  from <> to ->
  JsArray.at_ (GalleryManager.galleries gm) from = Some g ->
  GalleryManager.handleTabDrop host from to (gm, w)
  = (Normal tt,
     (GalleryManager.mk (reordered (GalleryManager.galleries gm) from to g)
                        (movedActive from to (GalleryManager.activeGalleryIndex gm))
                        (GalleryManager.activeMediaIndex gm)
                        (GalleryManager.isRandomMode gm)
                        (GalleryManager.previousMediaIndex gm),
      snd (for_of (reordered (GalleryManager.galleries gm) from to g)
                  (GalleryDB.saveGallery host) w))).
Proof.
  intros Hne Hg. unfold GalleryManager.handleTabDrop.
  destruct (from =? to) eqn:E; [apply Z.eqb_eq in E; done|].
  unfold bind at 1. unfold getThis at 1. cbn [fst snd]. rewrite Hg.
  unfold bind at 1. unfold setThis at 1. cbn [fst snd].
  unfold bind at 1. unfold setThis at 1. cbn [fst snd].
  unfold movedActive, reordered.
  destruct (GalleryManager.activeGalleryIndex gm =? from);
    [|destruct (_ && _)%bool; [|destruct (_ && _)%bool]];
    unfold bind, ret, setThis, getThis, try_catch, liftWorld; cbn [fst snd];
    cbn [GalleryManager.galleries GalleryManager.set_galleries
         GalleryManager.set_activeGalleryIndex];
    destruct (for_of _ _ w) as [[[]|e] w']; reflexivity.
Qed.

Lemma save_stops host pre bad post :
  (forall x, x ∈ pre -> transactionThrows host (PutRequest (Gallery.id x)) = false) ->
  transactionThrows host (PutRequest (Gallery.id bad)) = true ->
  forall w, for_of (pre ++ bad :: post) (GalleryDB.saveGallery host) w
            = (Throw "InvalidStateError", set_store (savedAll pre) w).
Proof.
  intros Hpre Hbad. induction pre as [|x t IH]; intros w.
  - cbn [app for_of]. unfold bind. rewrite saveGallery_throws by done. by destruct w.
  - cbn [app for_of]. unfold bind.
    rewrite saveGallery_run by (apply Hpre; by left).
    rewrite IH by (intros y Hy; apply Hpre; by right). by destruct w.
Qed.

(** C1 (as amended). A drop that moves the tab at a valid index [from]
    onto the tab at a different valid index [to] completes whatever the
    store does. In memory the array holds the same galleries, the one that
    was at [from] now at [to]; every gallery's [order] is its position in the
    array, so the orders are exactly 0 .. N-1; and an active index that
    denoted a gallery (or none) still denotes that gallery (or none). In the
    store, when the ids are pairwise distinct and every write is accepted,
    the key of every gallery holds the record made of its id, name, folder
    handle, shuffle flag and its position as order. When the write of one
    gallery throws, the galleries in front of it have that record and the
    key of that gallery and of every gallery behind it holds what it held
    before the drop. *)
Theorem handleTabDrop_reorders host gm w from to :
  let N := GalleryManager.length_ gm in
  0 <= from < N -> 0 <= to < N -> from <> to ->
  exists gm' w',
    GalleryManager.handleTabDrop host from to (gm, w) = (Normal tt, (gm', w')) /\
    GalleryManager.length_ gm' = N /\
    map Gallery.id (GalleryManager.galleries gm') ≡ₚ map Gallery.id (GalleryManager.galleries gm) /\
    (forall (k : nat) g, GalleryManager.galleries gm' !! k = Some g ->
                         Gallery.order g = Some (Z.of_nat k)) /\
    map Gallery.order (GalleryManager.galleries gm')
      = map (fun k => Some (Z.of_nat k)) (seq 0 (Z.to_nat N)) /\
    JsArray.at_ (GalleryManager.galleries gm') to
      = Gallery.set_order (Some to) <$> JsArray.at_ (GalleryManager.galleries gm) from /\
    (-1 <= GalleryManager.activeGalleryIndex gm < N ->
     GalleryManager.activeGallery gm'
       = Gallery.set_order (Some (GalleryManager.activeGalleryIndex gm'))
           <$> GalleryManager.activeGallery gm) /\
    (NoDup (map Gallery.id (GalleryManager.galleries gm)) ->
     (forall id, transactionThrows host (PutRequest id) = false) ->
     forall (k : nat) g, GalleryManager.galleries gm' !! k = Some g ->
       GalleryDB.lookup (Gallery.id g) (store w')
       = Some (StoredGallery.mk (Gallery.id g) (Gallery.name g) (Gallery.directoryHandle g)
                                (Some (Gallery.isShuffled g)) (Some (Z.of_nat k)))) /\
    (NoDup (map Gallery.id (GalleryManager.galleries gm)) ->
     forall pre bad post,
       GalleryManager.galleries gm' = pre ++ bad :: post ->
       (forall x, x ∈ pre -> transactionThrows host (PutRequest (Gallery.id x)) = false) ->
       transactionThrows host (PutRequest (Gallery.id bad)) = true ->
       (forall (k : nat) g, pre !! k = Some g ->
          GalleryDB.lookup (Gallery.id g) (store w')
          = Some (StoredGallery.mk (Gallery.id g) (Gallery.name g) (Gallery.directoryHandle g)
                                   (Some (Gallery.isShuffled g)) (Some (Z.of_nat k)))) /\
       (forall g, g ∈ bad :: post ->
          GalleryDB.lookup (Gallery.id g) (store w') = GalleryDB.lookup (Gallery.id g) (store w))).
Proof.
  intros N Hfrom Hto Hne. unfold N, GalleryManager.length_ in *.
  destruct (JsArray.at_ (GalleryManager.galleries gm) from) as [g|] eqn:Hg.
  2:{ unfold JsArray.at_ in Hg. destruct (from <? 0) eqn:E; [apply Z.ltb_lt in E; lia|].
      apply lookup_ge_None in Hg. lia. }
  rewrite (handleTabDrop_any host gm w from to g Hne Hg).
  set (gs := GalleryManager.galleries gm) in *.
  set (a := GalleryManager.activeGalleryIndex gm) in *.
  eexists _, _. split; [reflexivity|].
  cbn [GalleryManager.galleries GalleryManager.activeGalleryIndex].
  pose proof (reordered_length gs from to g Hg) as Hlen.
  pose proof (reordered_ids gs from to g Hg) as Hids.
  assert (Hlookup : forall i : Z, 0 <= i ->
            JsArray.at_ (reordered gs from to g) i
            = Gallery.set_order (Some i)
                <$> JsArray.at_ (JsArray.spliceInsert (JsArray.spliceDelete1 gs from) to g) i).
  { intros i Hi. unfold JsArray.at_.
    destruct (i <? 0) eqn:E; [apply Z.ltb_lt in E; lia|].
    unfold reordered, JsArray.mapIndexed. rewrite list_lookup_imap.
    by rewrite Z2Nat.id by lia. }
  assert (Hrecord : forall (k : nat) g', reordered gs from to g !! k = Some g' ->
            GalleryDB.galleryData g'
            = StoredGallery.mk (Gallery.id g') (Gallery.name g') (Gallery.directoryHandle g')
                               (Some (Gallery.isShuffled g')) (Some (Z.of_nat k))).
  { intros k g' Hk. unfold GalleryDB.galleryData.
    by rewrite (reordered_dense gs from to g k g' Hk). }
  split; [by rewrite Hlen|].
  split; [exact Hids|].
  split; [intros k g'; apply reordered_dense|].
  split.
  { apply list_eq. intros k.
    change (map ?f ?l) with (f <$> l). rewrite !list_lookup_fmap.
    unfold reordered, JsArray.mapIndexed. rewrite list_lookup_imap.
    rewrite Nat2Z.id, <- Hlen. unfold reordered, JsArray.mapIndexed. rewrite length_imap.
    destruct (_ !! k) as [x|] eqn:Hk; simpl.
    - apply lookup_lt_Some in Hk. by rewrite lookup_seq_lt.
    - apply lookup_ge_None in Hk. by rewrite lookup_seq_ge. }
  split.
  { rewrite Hlookup by lia.
    pose proof (moved_lookup gs from to from g Hg Hto Hfrom) as Hm.
    unfold movedActive in Hm. rewrite Z.eqb_refl in Hm. by rewrite Hm, Hg. }
  split.
  { intros Ha. unfold GalleryManager.activeGallery.
    cbn [GalleryManager.galleries GalleryManager.activeGalleryIndex].
    fold gs a.
    destruct (decide (a = -1)) as [Hnone|Hsome].
    - rewrite Hnone. unfold movedActive.
      destruct (-1 =? from) eqn:E1; [apply Z.eqb_eq in E1; lia|].
      destruct (from <? -1) eqn:E2; [apply Z.ltb_lt in E2; lia|].
      destruct (to <=? -1) eqn:E3; [apply Z.leb_le in E3; lia|].
      rewrite andb_false_r. reflexivity.
    - assert (0 <= movedActive from to a).
      { unfold movedActive. destruct (a =? from); [lia|].
        destruct ((from <? a) && (a <=? to))%bool eqn:E2.
        - apply andb_true_iff in E2 as [E2 _]. apply Z.ltb_lt in E2. lia.
        - destruct ((a <? from) && (to <=? a))%bool; lia. }
      rewrite Hlookup by done. by rewrite moved_lookup by (done || lia). }
  split.
  { intros Hnd Hput k g' Hk. rewrite (save_all host _ Hput).
    replace (store (snd (Normal tt, set_store (savedAll (reordered gs from to g)) w)))
      with (savedAll (reordered gs from to g) (store w)) by by destruct w.
    rewrite lookup_savedAll; [by rewrite (Hrecord k g' Hk)|by rewrite Hids|].
    by eapply list_elem_of_lookup_2. }
  intros Hnd pre bad post Hsplit Hpre Hbad.
  rewrite Hsplit, (save_stops host pre bad post Hpre Hbad).
  replace (store (snd (@Throw unit "InvalidStateError", set_store (savedAll pre) w)))
    with (savedAll pre (store w)) by by destruct w.
  assert (Hnd' : NoDup (map Gallery.id (pre ++ bad :: post))) by by rewrite <- Hsplit, Hids.
  change (map ?f ?l) with (f <$> l) in Hnd'. rewrite fmap_app in Hnd'.
  apply NoDup_app in Hnd' as (Hndpre & Hdisj & _).
  split.
  - intros k g' Hk. rewrite lookup_savedAll; [|done|by eapply list_elem_of_lookup_2].
    rewrite (Hrecord k g'); [done|]. rewrite Hsplit. by apply lookup_app_l_Some.
  - intros g' Hg'. apply lookup_savedAll_other. intros Hin.
    apply (Hdisj _ Hin). by apply (list_elem_of_fmap_2 Gallery.id).
Qed.

Lemma handleTabDrop_reorders_witness :
  let N := GalleryManager.length_ Demo.manager in
  0 <= 0 < N /\ 0 <= 2 < N /\ 0 <> 2 /\
  -1 <= GalleryManager.activeGalleryIndex Demo.manager < N /\
  NoDup (map Gallery.id (GalleryManager.galleries Demo.manager)) /\
  (forall id, transactionThrows Demo.host (PutRequest id) = false) /\
  exists gm' w',
    GalleryManager.handleTabDrop Demo.host 0 2 (Demo.manager, Demo.world)
      = (Normal tt, (gm', w')) /\
    GalleryManager.length_ gm' = N /\
    map Gallery.id (GalleryManager.galleries gm')
      ≡ₚ map Gallery.id (GalleryManager.galleries Demo.manager) /\
    (forall (k : nat) g, GalleryManager.galleries gm' !! k = Some g ->
                         Gallery.order g = Some (Z.of_nat k)) /\
    map Gallery.order (GalleryManager.galleries gm')
      = map (fun k => Some (Z.of_nat k)) (seq 0 (Z.to_nat N)) /\
    JsArray.at_ (GalleryManager.galleries gm') 2
      = Gallery.set_order (Some 2) <$> JsArray.at_ (GalleryManager.galleries Demo.manager) 0 /\
    (-1 <= GalleryManager.activeGalleryIndex Demo.manager < N ->
     GalleryManager.activeGallery gm'
       = Gallery.set_order (Some (GalleryManager.activeGalleryIndex gm'))
           <$> GalleryManager.activeGallery Demo.manager) /\
    (NoDup (map Gallery.id (GalleryManager.galleries Demo.manager)) ->
     (forall id, transactionThrows Demo.host (PutRequest id) = false) ->
     forall (k : nat) g, GalleryManager.galleries gm' !! k = Some g ->
       GalleryDB.lookup (Gallery.id g) (store w')
       = Some (StoredGallery.mk (Gallery.id g) (Gallery.name g) (Gallery.directoryHandle g)
                                (Some (Gallery.isShuffled g)) (Some (Z.of_nat k)))) /\
    (NoDup (map Gallery.id (GalleryManager.galleries Demo.manager)) ->
     forall pre bad post,
       GalleryManager.galleries gm' = pre ++ bad :: post ->
       (forall x, x ∈ pre -> transactionThrows Demo.host (PutRequest (Gallery.id x)) = false) ->
       transactionThrows Demo.host (PutRequest (Gallery.id bad)) = true ->
       (forall (k : nat) g, pre !! k = Some g ->
          GalleryDB.lookup (Gallery.id g) (store w')
          = Some (StoredGallery.mk (Gallery.id g) (Gallery.name g) (Gallery.directoryHandle g)
                                   (Some (Gallery.isShuffled g)) (Some (Z.of_nat k)))) /\
       (forall g, g ∈ bad :: post ->
          GalleryDB.lookup (Gallery.id g) (store w')
          = GalleryDB.lookup (Gallery.id g) (store Demo.world))).
Proof.
  assert (Hnd : NoDup (map Gallery.id (GalleryManager.galleries Demo.manager))).
  { apply (bool_decide_unpack _). vm_compute. exact I. }
  cbv zeta. unfold GalleryManager.length_.
  split; [simpl; lia|]. split; [simpl; lia|]. split; [lia|]. split; [simpl; lia|].
  split; [exact Hnd|]. split; [reflexivity|].
  apply (handleTabDrop_reorders Demo.host Demo.manager Demo.world 0 2);
    [unfold GalleryManager.length_; simpl; lia | unfold GalleryManager.length_; simpl; lia
     | lia].
Defined.

(** C1, the claim as stated fails. The record of "Holiday" cannot be
    written. The drop that moves "Holiday" from the first tab onto the second
    completes normally and "Holiday" is the second tab with [order] 1, yet
    the store still holds its record with order 0, beside the record of
    "Work" that was written with order 0 before the failing write: not every
    gallery's record is persisted again, and the orders in the store are
    not dense. *)
Lemma handleTabDrop_not_persisted :
  let after := GalleryManager.handleTabDrop Faults.brokenHost 0 1 (Demo.manager, Demo.world) in
  fst after = Normal tt /\
  map (fun g => (Gallery.name g, Gallery.order g)) (GalleryManager.galleries (fst (snd after)))
    = [("Work", Some 0); ("Holiday", Some 1); ("Pets", Some 2)]%string /\
  GalleryDB.lookup (Gallery.id Demo.holiday) (store (snd (snd after)))
    = Some (StoredGallery.mk 1700000000000 "Holiday" 7%nat (Some false) (Some 0)) /\
  store (snd (snd after))
    = [StoredGallery.mk 1700000000000 "Holiday" 7%nat (Some false) (Some 0);
       StoredGallery.mk 1700000000001 "Work" 8%nat (Some false) (Some 0);
       StoredGallery.mk 1700000000002 "Pets" 9%nat (Some true) (Some 2)].
Proof. vm_compute. repeat split; reflexivity. Qed.

(** ** The permission gate *)

(** C7 (as amended). [verifyPermission] first queries the permission state for
    the requested mode. If the query resolves to "granted" it returns [true]
    without asking the user. If the query resolves to anything else it asks
    the user exactly once and returns [true] when the request resolves to
    "granted" and [false] when it resolves to anything else. It has no
    handler of its own: when the query or the request rejects, the rejection
    is thrown to the caller. Nothing but the log of permission calls
    changes. *)
Theorem verifyPermission_outcome host h (withWrite : bool) w :
  let mode := if withWrite then readwrite else read in
  let c := fst (GalleryManager.verifyPermission host h withWrite w) in
  let w' := snd (GalleryManager.verifyPermission host h withWrite w) in
  (exists rest, permissionCalls w' = permissionCalls w ++ QueryPermission h mode :: rest /\
                (rest = [] \/ rest = [RequestPermission h mode])) /\
  (queryPermission host h mode = Resolved granted ->
     c = Normal true /\
     permissionCalls w' = permissionCalls w ++ [QueryPermission h mode]) /\
  (forall q, queryPermission host h mode = Resolved q -> q <> granted ->
     permissionCalls w'
       = permissionCalls w ++ [QueryPermission h mode; RequestPermission h mode] /\
     (requestPermission host h mode = Resolved granted -> c = Normal true) /\
     (forall r, requestPermission host h mode = Resolved r -> r <> granted -> c = Normal false) /\
     (forall e, requestPermission host h mode = Rejected e -> c = Throw e)) /\
  (forall e, queryPermission host h mode = Rejected e ->
     c = Throw e /\
     permissionCalls w' = permissionCalls w ++ [QueryPermission h mode]) /\
  store w' = store w /\ objectURLs w' = objectURLs w /\
  nextObjectURL w' = nextObjectURL w /\ randomCalls w' = randomCalls w /\
  clockReads w' = clockReads w /\ writtenFiles w' = writtenFiles w.
Proof.
  cbv zeta. rewrite (GalleryManager_verifyPermission_run host h withWrite w). cbv zeta.
  cbn [fst snd]. unfold verifies, verifyCalls, afterCalls.
  set (mode := if withWrite then readwrite else read).
  destruct w as [st live next rc cr calls files]. cbn.
  destruct (queryPermission host h mode) as [q|e] eqn:Hq.
  - destruct q; (split; [eexists; split; [reflexivity|tauto]|]);
      (split; [try discriminate; by intros _|]);
      (split; [|split; [discriminate|done]]);
      intros q [= <-] Hne; try done;
      (split; [reflexivity|]);
      destruct (requestPermission host h mode) as [[]|e'];
      repeat split; try discriminate; try done; intros; congruence.
  - split; [eexists; split; [reflexivity|tauto]|].
    split; [discriminate|]. split; [discriminate|].
    split; [|done]. by intros e' [= <-].
Qed.

(** C7, the claim as stated fails: [verifyPermission] does not return a
    boolean on every path. Asked about folder 7 on a host whose query
    resolves to "prompt" and whose request rejects with a [SecurityError],
    it throws that error. *)
Lemma verifyPermission_throws :
  queryPermission Demo.strictHost 7%nat readwrite = Resolved prompt /\
  requestPermission Demo.strictHost 7%nat readwrite = Rejected "SecurityError" /\
  fst (GalleryManager.verifyPermission Demo.strictHost 7%nat true Demo.world)
    = Throw "SecurityError" /\
  forall b : bool,
    fst (GalleryManager.verifyPermission Demo.strictHost 7%nat true Demo.world) <> Normal b.
Proof. repeat split; discriminate. Qed.

(** ** Loading the stored galleries *)

Lemma bySavedOrder_key a b :
  GalleryManager.bySavedOrder a b
  = (fun r => default 0 (StoredGallery.order r)) a
    - (fun r => default 0 (StoredGallery.order r)) b.
Proof. reflexivity. Qed.

(** A scan only replaces the media of the gallery object. *)
Lemma loadMedia_shape host g w :
  exists m w', Gallery.loadMedia host (g, w) = (Normal tt, (Gallery.set_media (fun _ => m) g, w')).
Proof.
  destruct (verifies host (Gallery.directoryHandle g) readwrite) as [[]|e] eqn:Hv.
  - rewrite loadMedia_granted by exact Hv. destruct (Gallery.isShuffled g); by eexists _, _.
  - rewrite loadMedia_not_granted by (by rewrite Hv). by eexists _, _.
  - rewrite loadMedia_not_granted by (by rewrite Hv). by eexists _, _.
Qed.

Lemma restoredFrom_loadMedia host r w :
  restoredFrom host r (fst (snd (Gallery.loadMedia host (fromRecord r, w)))).
Proof.
  destruct (loadMedia_shape host (fromRecord r) w) as (m & w' & Hrun).
  unfold restoredFrom. split_and!; [by rewrite Hrun..|by exists w].
Qed.

Lemma loadStored_granted host r gm w :
  verifies host (StoredGallery.directoryHandle r) readwrite = Normal true ->
  exists g w',
    GalleryManager.loadStored host r (gm, w)
    = (Normal tt, (GalleryManager.set_galleries (fun gs => gs ++ [g]) gm, w')) /\
    restoredFrom host r g.
Proof.
  intros Hv. unfold GalleryManager.loadStored.
  unfold bind at 1. unfold liftWorld at 1. cbn [fst snd].
  rewrite (GalleryManager_verifyPermission_run host _ true). cbv zeta. rewrite Hv.
  fold (fromRecord r).
  set (w1 := afterCalls _ w).
  pose proof (restoredFrom_loadMedia host r w1) as Hres.
  destruct (loadMedia_shape host (fromRecord r) w1) as (m & w' & Hrun).
  rewrite Hrun in Hres. cbn [fst snd] in Hres.
  exists (Gallery.set_media (fun _ => m) (fromRecord r)), w'.
  split; [|exact Hres].
  unfold bind, onGallery, setThis. cbn [fst snd]. rewrite Hrun. reflexivity.
Qed.

Lemma loadStored_denied host r gm w :
  verifies host (StoredGallery.directoryHandle r) readwrite = Normal false ->
  GalleryManager.loadStored host r (gm, w)
  = (Normal tt,
     (gm, afterCalls (verifyCalls host (StoredGallery.directoryHandle r) readwrite) w)).
Proof.
  intros Hv. unfold GalleryManager.loadStored.
  unfold bind at 1. unfold liftWorld at 1. cbn [fst snd].
  rewrite (GalleryManager_verifyPermission_run host _ true). cbv zeta. rewrite Hv.
  reflexivity.
Qed.

Lemma set_galleries_app gm (l1 l2 : list Gallery.t) :
  GalleryManager.set_galleries (fun gs => gs ++ l2)
    (GalleryManager.set_galleries (fun gs => gs ++ l1) gm)
  = GalleryManager.set_galleries (fun gs => gs ++ (l1 ++ l2)) gm.
Proof. destruct gm. unfold GalleryManager.set_galleries. simpl. by rewrite <- app_assoc. Qed.

Lemma loadStored_loop host rs :
  Forall (fun r => exists b, verifies host (StoredGallery.directoryHandle r) readwrite = Normal b) rs ->
  forall gm w,
  exists loaded w',
    for_of rs (GalleryManager.loadStored host) (gm, w)
    = (Normal tt, (GalleryManager.set_galleries (fun gs => gs ++ loaded) gm, w')) /\
    Forall2 (restoredFrom host)
            (List.filter (fun r => grants host (StoredGallery.directoryHandle r)) rs) loaded.
Proof.
  induction 1 as [|r t [b Hb] Hall IH]; intros gm w.
  - exists [], w. split; [|constructor].
    simpl. unfold ret. destruct gm. unfold GalleryManager.set_galleries. simpl.
    by rewrite app_nil_r.
  - cbn [for_of List.filter]. unfold grants at 1. rewrite Hb. unfold bind.
    destruct b.
    + destruct (loadStored_granted host r gm w Hb) as (g & w1 & Hrun & Hres).
      rewrite Hrun.
      destruct (IH (GalleryManager.set_galleries (fun gs => gs ++ [g]) gm) w1)
        as (loaded & w' & Hloop & Hrest).
      exists (g :: loaded), w'. rewrite Hloop, set_galleries_app.
      split; [reflexivity|by constructor].
    + rewrite (loadStored_denied host r gm w Hb).
      destruct (IH gm (afterCalls (verifyCalls host (StoredGallery.directoryHandle r) readwrite) w))
        as (loaded & w' & Hloop & Hrest).
      exists loaded, w'. by rewrite Hloop.
Qed.

Lemma selectGallery_in_range k gm :
  0 <= k < GalleryManager.length_ gm ->
  GalleryManager.activeGalleryIndex (GalleryManager.selectGallery k gm) = k /\
  GalleryManager.activeMediaIndex (GalleryManager.selectGallery k gm) = 0 /\
  GalleryManager.isRandomMode (GalleryManager.selectGallery k gm) = false /\
  GalleryManager.previousMediaIndex (GalleryManager.selectGallery k gm) = -1 /\
  GalleryManager.galleries (GalleryManager.selectGallery k gm) = GalleryManager.galleries gm.
Proof.
  intros Hk. unfold GalleryManager.selectGallery.
  destruct (k <? 0) eqn:E1; [apply Z.ltb_lt in E1; lia|].
  destruct (GalleryManager.length_ gm <=? k) eqn:E2; [apply Z.leb_le in E2; lia|].
  cbn [orb GalleryManager.galleries GalleryManager.set_previousMediaIndex
       GalleryManager.set_isRandomMode GalleryManager.set_activeMediaIndex
       GalleryManager.set_activeGalleryIndex].
  destruct (JsArray.at_ (GalleryManager.galleries gm) k) as [g|] eqn:Hg; [|done].
  destruct (0 <? Z.of_nat (length (Gallery.media g))) eqn:Hm; [|done].
  apply Z.ltb_lt in Hm.
  erewrite displayMedia_in_range; [done|exact Hg|lia].
Qed.

Lemma for_of_app {St A} (l1 l2 : list A) (body : A -> M St unit) s :
  for_of (l1 ++ l2) body s
  = match for_of l1 body s with
    | (Normal _, s') => for_of l2 body s'
    | (Throw e, s') => (Throw e, s')
    end.
Proof.
  revert s. induction l1 as [|x t IH]; intros s; [done|].
  cbn [app for_of]. unfold bind. destruct (body x s) as [[[]|e] s1]; [apply IH|done].
Qed.

Lemma loadStored_rejected host r gm w e :
  verifies host (StoredGallery.directoryHandle r) readwrite = Throw e ->
  GalleryManager.loadStored host r (gm, w)
  = (Throw e, (gm, afterCalls (verifyCalls host (StoredGallery.directoryHandle r) readwrite) w)).
Proof.
  intros Hv. unfold GalleryManager.loadStored.
  unfold bind at 1. unfold liftWorld at 1. cbn [fst snd].
  rewrite (GalleryManager_verifyPermission_run host _ true). cbv zeta. by rewrite Hv.
Qed.

(** C6 (as amended). [loadFromStorage] never throws. It takes the records
    of the store in ascending [order] (a missing [order] counting as 0,
    records with equal [order] in the order the store returns them).
    As long as every permission call settles with an answer, a gallery is
    appended to the array for every record whose verification ends with
    [true], and for no other, in that sequence, built from the record's id,
    name and folder handle with its [isShuffled] and [order] carried over and
    its media scanned; a record whose verification ends with [false] is
    skipped and the records behind it are still loaded; and when the array
    is not empty afterwards, gallery 0 is selected. When a permission call
    rejects for a record, loading ends there: the galleries of the records
    in front of it stay appended, the records behind it are not tried, and
    no gallery is selected. When the store cannot be read, nothing
    changes. *)
Theorem loadFromStorage_loads host gm w :
  let records := JsArray.sort GalleryManager.bySavedOrder (store w) in
  records ≡ₚ store w /\
  StronglySorted (fun a b => default 0 (StoredGallery.order a) <= default 0 (StoredGallery.order b))
                 records /\
  (forall k, List.filter (fun r => default 0 (StoredGallery.order r) =? k) records
             = List.filter (fun r => default 0 (StoredGallery.order r) =? k) (store w)) /\
  (transactionThrows host GetAllRequest = false ->
   Forall (fun r => exists b,
             verifies host (StoredGallery.directoryHandle r) readwrite = Normal b) (store w) ->
   exists gm' w' loaded,
     GalleryManager.loadFromStorage host (gm, w) = (Normal tt, (gm', w')) /\
     GalleryManager.galleries gm' = GalleryManager.galleries gm ++ loaded /\
     Forall2 (restoredFrom host)
             (List.filter (fun r => grants host (StoredGallery.directoryHandle r)) records)
             loaded /\
     (GalleryManager.galleries gm' <> [] ->
        GalleryManager.activeGalleryIndex gm' = 0 /\
        GalleryManager.activeMediaIndex gm' = 0 /\
        GalleryManager.isRandomMode gm' = false /\
        GalleryManager.previousMediaIndex gm' = -1) /\
     (GalleryManager.galleries gm' = [] ->
        GalleryManager.activeGalleryIndex gm' = GalleryManager.activeGalleryIndex gm)) /\
  (transactionThrows host GetAllRequest = false ->
   forall pre bad post e,
     records = pre ++ bad :: post ->
     Forall (fun r => exists b,
               verifies host (StoredGallery.directoryHandle r) readwrite = Normal b) pre ->
     verifies host (StoredGallery.directoryHandle bad) readwrite = Throw e ->
     exists gm' w' loaded,
       GalleryManager.loadFromStorage host (gm, w) = (Normal tt, (gm', w')) /\
       GalleryManager.galleries gm' = GalleryManager.galleries gm ++ loaded /\
       Forall2 (restoredFrom host)
               (List.filter (fun r => grants host (StoredGallery.directoryHandle r)) pre)
               loaded /\
       GalleryManager.activeGalleryIndex gm' = GalleryManager.activeGalleryIndex gm /\
       GalleryManager.activeMediaIndex gm' = GalleryManager.activeMediaIndex gm /\
       GalleryManager.isRandomMode gm' = GalleryManager.isRandomMode gm /\
       GalleryManager.previousMediaIndex gm' = GalleryManager.previousMediaIndex gm) /\
  (transactionThrows host GetAllRequest = true ->
   GalleryManager.loadFromStorage host (gm, w) = (Normal tt, (gm, w))).
Proof.
  intros records.
  assert (Hsorted : StronglySorted
            (fun a b => default 0 (StoredGallery.order a) <= default 0 (StoredGallery.order b))
            records) by apply (sort_sorted _ _ bySavedOrder_key).
  assert (Hstable : forall k,
            List.filter (fun r => default 0 (StoredGallery.order r) =? k) records
            = List.filter (fun r => default 0 (StoredGallery.order r) =? k) (store w))
    by (intros k; apply (sort_stable _ _ bySavedOrder_key)).
  split; [apply sort_Permutation|]. split; [exact Hsorted|]. split; [exact Hstable|].
  split; [|split].
  - intros Hget Hall.
    assert (Hall' : Forall (fun r => exists b,
              verifies host (StoredGallery.directoryHandle r) readwrite = Normal b) records).
    { unfold records. by rewrite sort_Permutation. }
    unfold GalleryManager.loadFromStorage, try_catch.
    unfold bind at 1. unfold liftWorld at 1. cbn [fst snd].
    unfold GalleryDB.loadGalleries, GalleryDB.transaction. rewrite Hget.
    unfold bind at 1. unfold bind at 1. unfold ret at 1. unfold get at 1. unfold ret at 1.
    fold records.
    destruct (loadStored_loop host records Hall' gm w) as (loaded & w' & Hloop & Hrest).
    unfold bind at 1. rewrite Hloop.
    unfold bind at 1. unfold getThis at 1. cbn [fst snd].
    set (gm1 := GalleryManager.set_galleries (fun gs => gs ++ loaded) gm).
    destruct (0 <? GalleryManager.length_ gm1) eqn:Hlen; unfold setThis, ret; cbn [fst snd].
    + apply Z.ltb_lt in Hlen.
      destruct (selectGallery_in_range 0 gm1 ltac:(lia)) as (H1 & H2 & H3 & H4 & H5).
      eexists _, _, loaded. split; [reflexivity|].
      rewrite H5. split; [reflexivity|]. split; [exact Hrest|].
      split; [done|].
      intros Hnil. unfold GalleryManager.length_ in Hlen.
      rewrite Hnil in Hlen. simpl in Hlen. lia.
    + eexists _, _, loaded. split; [reflexivity|].
      split; [reflexivity|]. split; [exact Hrest|].
      split; [|done].
      intros Hne. apply Z.ltb_ge in Hlen. unfold GalleryManager.length_ in Hlen.
      destruct (GalleryManager.galleries gm1); [done|simpl in Hlen; lia].
  - intros Hget pre bad post e Hsplit Hpre Hbad.
    unfold GalleryManager.loadFromStorage, try_catch.
    unfold bind at 1. unfold liftWorld at 1. cbn [fst snd].
    unfold GalleryDB.loadGalleries, GalleryDB.transaction. rewrite Hget.
    unfold bind at 1. unfold bind at 1. unfold ret at 1. unfold get at 1. unfold ret at 1.
    unfold bind at 1. fold records. rewrite Hsplit, for_of_app.
    destruct (loadStored_loop host pre Hpre gm w) as (loaded & w1 & Hloop & Hrest).
    rewrite Hloop. cbn [for_of]. unfold bind at 1.
    rewrite (loadStored_rejected host bad _ w1 e Hbad).
    eexists _, _, loaded. split; [reflexivity|].
    split; [by destruct gm|]. split; [done|]. by destruct gm.
  - intros Hget.
    unfold GalleryManager.loadFromStorage, try_catch.
    unfold bind at 1. unfold liftWorld at 1. cbn [fst snd].
    unfold GalleryDB.loadGalleries, GalleryDB.transaction. by rewrite Hget.
Qed.

Lemma loadFromStorage_loads_witness :
  (transactionThrows Demo.pickyHost GetAllRequest = false /\
   Forall (fun r => exists b,
             verifies Demo.pickyHost (StoredGallery.directoryHandle r) readwrite = Normal b)
          (store Demo.startWorld) /\
   map Gallery.name
       (GalleryManager.galleries
          (fst (snd (GalleryManager.loadFromStorage Demo.pickyHost
                       (GalleryManager.constructor, Demo.startWorld)))))
   = ["Pets"; "Holiday"]%string /\
   exists gm' w' loaded,
     GalleryManager.loadFromStorage Demo.pickyHost (GalleryManager.constructor, Demo.startWorld)
       = (Normal tt, (gm', w')) /\
     GalleryManager.galleries gm' = GalleryManager.galleries GalleryManager.constructor ++ loaded /\
     Forall2 (restoredFrom Demo.pickyHost)
             (List.filter (fun r => grants Demo.pickyHost (StoredGallery.directoryHandle r))
                          (JsArray.sort GalleryManager.bySavedOrder (store Demo.startWorld)))
             loaded /\
     (GalleryManager.galleries gm' <> [] ->
        GalleryManager.activeGalleryIndex gm' = 0 /\
        GalleryManager.activeMediaIndex gm' = 0 /\
        GalleryManager.isRandomMode gm' = false /\
        GalleryManager.previousMediaIndex gm' = -1) /\
     (GalleryManager.galleries gm' = [] ->
        GalleryManager.activeGalleryIndex gm'
        = GalleryManager.activeGalleryIndex GalleryManager.constructor)) /\
  (transactionThrows Demo.moodyHost GetAllRequest = false /\
   JsArray.sort GalleryManager.bySavedOrder (store Demo.startWorld)
   = [StoredGallery.mk 1700000000001 "Work" 8%nat None None]
     ++ StoredGallery.mk 1700000000002 "Pets" 9%nat (Some true) (Some 1)
     :: [StoredGallery.mk 1700000000000 "Holiday" 7%nat (Some false) (Some 2)] /\
   verifies Demo.moodyHost 9%nat readwrite = Throw "NotFoundError" /\
   exists gm' w' loaded,
     GalleryManager.loadFromStorage Demo.moodyHost (GalleryManager.constructor, Demo.startWorld)
       = (Normal tt, (gm', w')) /\
     GalleryManager.galleries gm' = GalleryManager.galleries GalleryManager.constructor ++ loaded /\
     Forall2 (restoredFrom Demo.moodyHost)
             (List.filter (fun r => grants Demo.moodyHost (StoredGallery.directoryHandle r))
                          [StoredGallery.mk 1700000000001 "Work" 8%nat None None])
             loaded /\
     GalleryManager.activeGalleryIndex gm'
       = GalleryManager.activeGalleryIndex GalleryManager.constructor /\
     GalleryManager.activeMediaIndex gm'
       = GalleryManager.activeMediaIndex GalleryManager.constructor /\
     GalleryManager.isRandomMode gm' = GalleryManager.isRandomMode GalleryManager.constructor /\
     GalleryManager.previousMediaIndex gm'
       = GalleryManager.previousMediaIndex GalleryManager.constructor).
Proof.
  assert (Hall : Forall (fun r => exists b,
            verifies Demo.pickyHost (StoredGallery.directoryHandle r) readwrite = Normal b)
         (store Demo.startWorld)).
  { repeat constructor; eexists; reflexivity. }
  split.
  - split; [reflexivity|]. split; [exact Hall|]. split; [vm_compute; reflexivity|].
    exact (proj1 (proj2 (proj2 (proj2
             (loadFromStorage_loads Demo.pickyHost GalleryManager.constructor Demo.startWorld))))
             eq_refl Hall).
  - split; [reflexivity|]. split; [reflexivity|]. split; [reflexivity|].
    apply (proj1 (proj2 (proj2 (proj2 (proj2
             (loadFromStorage_loads Demo.moodyHost GalleryManager.constructor Demo.startWorld)))))
             eq_refl
             [StoredGallery.mk 1700000000001 "Work" 8%nat None None]
             (StoredGallery.mk 1700000000002 "Pets" 9%nat (Some true) (Some 1))
             [StoredGallery.mk 1700000000000 "Holiday" 7%nat (Some false) (Some 2)]
             "NotFoundError");
      [reflexivity | repeat constructor; by exists true | reflexivity].
Defined.

(** C6, the claim as stated fails. A permission call that rejects is not a
    denial: [verifyPermission] throws, the [catch] of [loadFromStorage] ends
    the batch, and the galleries loaded so far stay without a selection.
    Here "Work" is loaded, the query for the folder of "Pets" rejects, and
    "Holiday", whose folder would be granted, is never tried: a gallery
    has been loaded and none is selected, and the failure for one gallery
    has ended the loading of the remaining one. *)
Lemma loadFromStorage_stops_at_rejection :
  let after := GalleryManager.loadFromStorage Demo.moodyHost
                 (GalleryManager.constructor, Demo.startWorld) in
  fst after = Normal tt /\
  map StoredGallery.name (JsArray.sort GalleryManager.bySavedOrder (store Demo.startWorld))
    = ["Work"; "Pets"; "Holiday"]%string /\
  verifies Demo.moodyHost 8%nat readwrite = Normal true /\
  verifies Demo.moodyHost 9%nat readwrite = Throw "NotFoundError" /\
  verifies Demo.moodyHost 7%nat readwrite = Normal true /\
  map Gallery.name (GalleryManager.galleries (fst (snd after))) = ["Work"]%string /\
  GalleryManager.activeGalleryIndex (fst (snd after)) = -1.
Proof. vm_compute. repeat split; reflexivity. Qed.

(** ** Navigation in random mode *)

Lemma drawOther_run host len current n : forall fuel w,
  firstOther host len current (randomCalls w) n ->
  (n < fuel)%nat ->
  App.drawOther host fuel len current w
  = Some (drawnIndex host len (randomCalls w + n), advanceRandom (S n) w).
Proof.
  induction n as [|n IH]; intros fuel w [Hsame Hother] Hfuel;
    (destruct fuel as [|fuel]; [lia|]); cbn [App.drawOther]; unfold Web.nextRandomFloor;
    fold (drawnIndex host len (randomCalls w)).
  - rewrite Nat.add_0_r in *.
    destruct (_ =? current) eqn:E; [apply Z.eqb_eq in E; done|].
    by destruct w.
  - pose proof (Hsame 0%nat ltac:(lia)) as H0. rewrite Nat.add_0_r in H0.
    rewrite H0, Z.eqb_refl.
    rewrite (IH fuel (set_randomCalls S w)); [|split|lia].
    + rewrite advanceRandom_S. destruct w; simpl. do 3 f_equal. lia.
    + intros k Hk. destruct w; simpl in *.
      rewrite <- (Hsame (S k) ltac:(lia)). f_equal. lia.
    + destruct w; simpl in *. intros E. apply Hother. rewrite <- E. f_equal. lia.
Qed.

Lemma selectRandomMedia_run host fuel gm w g n :
  GalleryManager.activeGallery gm = Some g ->
  let len := Z.of_nat (length (Gallery.media g)) in
  1 < len ->
  firstOther host len (GalleryManager.activeMediaIndex gm) (randomCalls w) n ->
  (n < fuel)%nat ->
  App.selectRandomMedia host fuel (gm, w)
  = Some (GalleryManager.mk (GalleryManager.galleries gm)
                            (GalleryManager.activeGalleryIndex gm)
                            (drawnIndex host len (randomCalls w + n))
                            true
                            (GalleryManager.activeMediaIndex gm),
          advanceRandom (S n) w).
Proof.
  intros Hg len Hlen Hfirst Hfuel. unfold App.selectRandomMedia. rewrite Hg. fold len.
  destruct (len <=? 1) eqn:E; [apply Z.leb_le in E; lia|].
  cbn [GalleryManager.activeMediaIndex GalleryManager.set_previousMediaIndex
       GalleryManager.set_isRandomMode].
  rewrite (drawOther_run host len _ n fuel w Hfirst Hfuel).
  erewrite displayMedia_in_range; [reflexivity|exact Hg|].
  apply drawnIndex_range. lia.
Qed.

Lemma navigateMedia_random host fuel direction gm w g :
  GalleryManager.activeGallery gm = Some g ->
  Gallery.media g <> [] ->
  GalleryManager.isRandomMode gm = true ->
  App.navigateMedia host fuel direction (gm, w)
  = if ((direction =? -1)
        && negb (GalleryManager.previousMediaIndex gm =? -1)
        && negb (GalleryManager.previousMediaIndex gm =? GalleryManager.activeMediaIndex gm))%bool
    then Some (GalleryManager.displayMedia (GalleryManager.previousMediaIndex gm)
                 (GalleryManager.set_previousMediaIndex (-1) gm), w)
    else App.selectRandomMedia host fuel (gm, w).
Proof.
  intros Hg Hne Hrandom. unfold App.navigateMedia.
  rewrite Hg, (media_length_nonzero g Hne), Hrandom.
  destruct (direction =? -1); [|reflexivity].
  by destruct (_ && _)%bool.
Qed.

(** C2. In random mode, on an active gallery:
    - with at most one media item a step forward changes nothing;
    - with more than one item, a step forward records the current index in
      [previousMediaIndex] and displays the first index drawn by
      [Math.floor(Math.random() * mediaCount)] that differs from it (an index
      of the media list); a step backward right after it displays the
      recorded index again and clears [previousMediaIndex], without a draw;
      a second step backward does not jump back but draws again: it displays
      the first newly drawn index that differs from the current one and
      records the current one.
    The loop that draws ends as soon as [Math.random()] gives another index;
    [n1] and [n2] count the draws rejected before that. *)
Theorem random_mode_navigation host gm w g :
  GalleryManager.activeGallery gm = Some g ->
  GalleryManager.isRandomMode gm = true ->
  let len := Z.of_nat (length (Gallery.media g)) in
  let a := GalleryManager.activeMediaIndex gm in
  (len <= 1 -> forall fuel, App.navigateMedia host fuel 1 (gm, w) = Some (gm, w)) /\
  (1 < len -> 0 <= a < len ->
   forall (n1 n2 fuel1 fuel2 fuel3 : nat),
     firstOther host len a (randomCalls w) n1 -> (n1 < fuel1)%nat ->
     firstOther host len a (randomCalls (advanceRandom (S n1) w)) n2 -> (n2 < fuel3)%nat ->
     exists gm1 w1 gm2 gm3 w3,
       App.navigateMedia host fuel1 1 (gm, w) = Some (gm1, w1) /\
       App.navigateMedia host fuel2 (-1) (gm1, w1) = Some (gm2, w1) /\
       App.navigateMedia host fuel3 (-1) (gm2, w1) = Some (gm3, w3) /\
       (GalleryManager.previousMediaIndex gm1 = a /\
        GalleryManager.activeMediaIndex gm1 = drawnIndex host len (randomCalls w + n1) /\
        0 <= GalleryManager.activeMediaIndex gm1 < len /\
        GalleryManager.activeMediaIndex gm1 <> a /\
        GalleryManager.isRandomMode gm1 = true /\
        w1 = advanceRandom (S n1) w) /\
       (GalleryManager.activeMediaIndex gm2 = a /\
        GalleryManager.previousMediaIndex gm2 = -1 /\
        GalleryManager.isRandomMode gm2 = true) /\
       (GalleryManager.activeMediaIndex gm3 = drawnIndex host len (randomCalls w1 + n2) /\
        0 <= GalleryManager.activeMediaIndex gm3 < len /\
        GalleryManager.activeMediaIndex gm3 <> a /\
        GalleryManager.previousMediaIndex gm3 = a /\
        GalleryManager.isRandomMode gm3 = true /\
        w3 = advanceRandom (S n2) w1)).
Proof.
  intros Hg Hrandom len a. split.
  - intros Hlen fuel. unfold App.navigateMedia. rewrite Hg. fold len.
    destruct (len =? 0) eqn:E0; [reflexivity|]. rewrite Hrandom.
    cbn [Z.eqb]. unfold App.selectRandomMedia. rewrite Hg. fold len.
    destruct (len <=? 1) eqn:E1; [reflexivity|]. apply Z.leb_gt in E1. lia.
  - intros Hlen Ha n1 n2 fuel1 fuel2 fuel3 Hfirst1 Hfuel1 Hfirst2 Hfuel3.
    assert (Hne : Gallery.media g <> []).
    { intros E. unfold len in Hlen. rewrite E in Hlen. simpl in Hlen. lia. }
    set (r1 := drawnIndex host len (randomCalls w + n1)).
    assert (Hr1 : 0 <= r1 < len) by (apply drawnIndex_range; lia).
    assert (Hr1a : r1 <> a) by apply Hfirst1.
    set (gm1 := GalleryManager.mk (GalleryManager.galleries gm)
                  (GalleryManager.activeGalleryIndex gm) r1 true a).
    set (w1 := advanceRandom (S n1) w) in *.
    set (gm2 := GalleryManager.mk (GalleryManager.galleries gm)
                  (GalleryManager.activeGalleryIndex gm) a true (-1)).
    set (r2 := drawnIndex host len (randomCalls w1 + n2)).
    assert (Hr2 : 0 <= r2 < len) by (apply drawnIndex_range; lia).
    assert (Hr2a : r2 <> a) by apply Hfirst2.
    set (gm3 := GalleryManager.mk (GalleryManager.galleries gm)
                  (GalleryManager.activeGalleryIndex gm) r2 true a).
    exists gm1, w1, gm2, gm3, (advanceRandom (S n2) w1).
    split.
    { rewrite (navigateMedia_random host fuel1 1 gm w g Hg Hne Hrandom). cbn [Z.eqb andb].
      by rewrite (selectRandomMedia_run host fuel1 gm w g n1 Hg Hlen Hfirst1 Hfuel1). }
    split.
    { rewrite (navigateMedia_random host fuel2 (-1) gm1 w1 g Hg Hne eq_refl).
      cbn [GalleryManager.previousMediaIndex GalleryManager.activeMediaIndex gm1 Z.eqb andb].
      destruct (a =? -1) eqn:E1; [apply Z.eqb_eq in E1; lia|].
      destruct (a =? r1) eqn:E2; [apply Z.eqb_eq in E2; congruence|].
      cbn [negb andb Pos.eqb].
      by erewrite displayMedia_in_range; [|exact Hg|exact Ha]. }
    split.
    { rewrite (navigateMedia_random host fuel3 (-1) gm2 w1 g Hg Hne eq_refl).
      cbn [GalleryManager.previousMediaIndex GalleryManager.activeMediaIndex gm2 Z.eqb
           negb andb Pos.eqb].
      by rewrite (selectRandomMedia_run host fuel3 gm2 w1 g n2 Hg Hlen Hfirst2 Hfuel3). }
    done.
Qed.

Lemma random_mode_navigation_witness :
  GalleryManager.activeGallery Demo.randomManager = Some Demo.holiday /\
  GalleryManager.isRandomMode Demo.randomManager = true /\
  1 < Z.of_nat (length (Gallery.media Demo.holiday)) /\
  0 <= GalleryManager.activeMediaIndex Demo.randomManager
    < Z.of_nat (length (Gallery.media Demo.holiday)) /\
  firstOther Demo.host 3 0 (randomCalls Demo.world) 1 /\
  firstOther Demo.host 3 0 (randomCalls (advanceRandom 2 Demo.world)) 1 /\
  exists gm1 w1 gm2 gm3 w3,
    App.navigateMedia Demo.host 5 1 (Demo.randomManager, Demo.world) = Some (gm1, w1) /\
    App.navigateMedia Demo.host 0 (-1) (gm1, w1) = Some (gm2, w1) /\
    App.navigateMedia Demo.host 5 (-1) (gm2, w1) = Some (gm3, w3) /\
    (GalleryManager.previousMediaIndex gm1 = 0 /\
     GalleryManager.activeMediaIndex gm1 = drawnIndex Demo.host 3 (randomCalls Demo.world + 1) /\
     0 <= GalleryManager.activeMediaIndex gm1 < 3 /\
     GalleryManager.activeMediaIndex gm1 <> 0 /\
     GalleryManager.isRandomMode gm1 = true /\
     w1 = advanceRandom 2 Demo.world) /\
    (GalleryManager.activeMediaIndex gm2 = 0 /\
     GalleryManager.previousMediaIndex gm2 = -1 /\
     GalleryManager.isRandomMode gm2 = true) /\
    (GalleryManager.activeMediaIndex gm3 = drawnIndex Demo.host 3 (randomCalls w1 + 1) /\
     0 <= GalleryManager.activeMediaIndex gm3 < 3 /\
     GalleryManager.activeMediaIndex gm3 <> 0 /\
     GalleryManager.previousMediaIndex gm3 = 0 /\
     GalleryManager.isRandomMode gm3 = true /\
     w3 = advanceRandom 2 w1).
Proof.
  assert (Hfirst1 : firstOther Demo.host 3 0 (randomCalls Demo.world) 1).
  { split; [intros k Hk; assert (k = 0%nat) as -> by lia; reflexivity|].
    vm_compute. discriminate. }
  assert (Hfirst2 : firstOther Demo.host 3 0 (randomCalls (advanceRandom 2 Demo.world)) 1).
  { split; [intros k Hk; assert (k = 0%nat) as -> by lia; reflexivity|].
    vm_compute. discriminate. }
  split; [reflexivity|]. split; [reflexivity|]. split; [simpl; lia|]. split; [simpl; lia|].
  split; [exact Hfirst1|]. split; [exact Hfirst2|].
  apply (proj2 (random_mode_navigation Demo.host Demo.randomManager Demo.world Demo.holiday
                  eq_refl eq_refl));
    [simpl; lia | simpl; lia | exact Hfirst1 | lia | exact Hfirst2 | lia].
Defined.

(** ** Strings *)

Lemma split_no_separator c s : JsString.includes c s = false -> JsString.split c s = [s].
Proof.
  induction s as [|d s IH]; [reflexivity|]. cbn [JsString.includes JsString.split].
  destruct (Ascii.eqb d c); [discriminate|]. intros H. by rewrite (IH H).
Qed.

Lemma append_cons d (s1 s2 : string) :
  (String d s1 ++ s2)%string = String d (s1 ++ s2)%string.
Proof. reflexivity. Qed.

Lemma append_empty (s : string) : (EmptyString ++ s)%string = s.
Proof. reflexivity. Qed.


(** The pieces of [s.split(c)] end with what follows the last [c]. *)
Lemma split_last c pre suf :
  JsString.includes c suf = false ->
  exists h t, JsString.split c (pre ++ String c suf)%string = (h :: t) ++ [suf].
Proof.
  intros Hsuf. induction pre as [|d pre (h & t & IH)].
  - rewrite append_empty. cbn [JsString.split].
    rewrite Ascii.eqb_refl, (split_no_separator _ _ Hsuf). by exists EmptyString, [].
  - rewrite append_cons. cbn [JsString.split]. rewrite IH. destruct (Ascii.eqb d c).
    + by exists EmptyString, (h :: t).
    + by exists (String d h), t.
Qed.

Lemma pop_split_last c pre suf :
  JsString.includes c suf = false ->
  JsString.pop (JsString.split c (pre ++ String c suf)%string) = Some suf.
Proof.
  intros Hsuf. destruct (split_last c pre suf Hsuf) as (h & t & ->).
  unfold JsString.pop. by rewrite last_snoc.
Qed.














Example extension_of_upper_case_name :
  App.getExtensionFromFileName "Photo.JPG" = Some "jpg"%string.
Proof. reflexivity. Qed.

Example extension_of_dotted_name :
  App.getExtensionFromFileName "archive.tar.gz" = Some "gz"%string.
Proof. reflexivity. Qed.

Example extension_of_plain_name : App.getExtensionFromFileName "clip" = None.
Proof. reflexivity. Qed.

Example extension_of_mapped_mime : App.getExtensionFromMime "image/jpeg" = Some "jpg"%string.
Proof. vm_compute. reflexivity. Qed.

Example extension_of_suffixed_mime : App.getExtensionFromMime "image/svg+xml" = Some "svg"%string.
Proof. vm_compute. reflexivity. Qed.

Example extension_of_unmapped_mime : App.getExtensionFromMime "video/ogg" = Some "ogg"%string.
Proof. vm_compute. reflexivity. Qed.

Example extension_of_inherited_mime :
  App.getExtensionFromMime "image/constructor"
  = Some "function Object() { [native code] }"%string.
Proof. vm_compute. reflexivity. Qed.

Example name_of_untyped_file :
  App.generatedName (File.mk "notes." "" 0) "2024-01-15T10:30:45.123Z"
  = "file2024-01-15T10-30-45-123Z.bin"%string.
Proof. vm_compute. reflexivity. Qed.

(** ** Importing a file *)









(** ** Object URLs *)

(** Closing a gallery revokes the object URL of each of its media. *)
Lemma closeGallery_revokes host gm w i g :
  JsArray.at_ (GalleryManager.galleries gm) i = Some g ->
  forall m, m ∈ Gallery.media g ->
    Media.url m ∉ objectURLs (snd (snd (GalleryManager.closeGallery host i (gm, w)))).
Proof.
  intros Hg m Hm. unfold GalleryManager.closeGallery.
  unfold bind at 1. unfold getThis at 1. cbn [fst snd]. rewrite Hg.
  unfold bind at 1. unfold liftWorld at 1. cbn [fst snd]. rewrite revoke_all.
  assert (Hgone : Media.url m ∉ objectURLs (afterRevoke (map Media.url (Gallery.media g)) w)).
  { destruct w. unfold afterRevoke, set_objectURLs. cbn.
    apply not_elem_of_difference. right. apply elem_of_list_to_set.
    by apply (list_elem_of_fmap_2 Media.url). }
  unfold bind at 1. unfold liftWorld at 1. cbn [fst snd].
  unfold GalleryDB.deleteGallery, GalleryDB.transaction.
  destruct (transactionThrows host (DeleteRequest (Gallery.id g))).
  - exact Hgone.
  - unfold bind at 1. unfold bind at 1. unfold ret at 1. unfold modify at 1.
    unfold bind at 1. unfold setThis at 1. cbn [fst snd].
    unfold bind at 1. unfold getThis at 1. cbn [fst snd].
    destruct (0 <? _).
    + destruct (i <? _); [|destruct (i =? _)];
        unfold bind, setThis, getThis, ret; cbn [fst snd];
        by destruct w.
    + unfold setThis. cbn [fst snd]. by destruct w.
Qed.

(** A scan never revokes an object URL: every URL that is live before
    [loadMedia] is still live after it. *)
Lemma loadMedia_keeps_object_urls host g w :
  objectURLs w ⊆ objectURLs (snd (snd (Gallery.loadMedia host (g, w)))).
Proof.
  destruct (verifies host (Gallery.directoryHandle g) readwrite) as [[]|e] eqn:Hv.
  - rewrite loadMedia_granted by exact Hv.
    destruct (Gallery.isShuffled g); destruct w; cbn; apply union_subseteq_r.
  - rewrite loadMedia_not_granted by (by rewrite Hv). by destruct w.
  - rewrite loadMedia_not_granted by (by rewrite Hv). by destruct w.
Qed.

(** C9, the rescan path. The gallery "Holiday" holds three descriptors whose
    object URLs 0, 1 and 2 are live. After the rescan that ends a drop, the
    gallery holds three new descriptors with the URLs 3, 4 and 5, and the
    URLs 0, 1 and 2 are still live although no descriptor holds them:
    [loadMedia] empties the list without revoking, where [closeGallery]
    revokes. *)
Theorem rescan_leaks_object_urls :
  map Media.url (Gallery.media Demo.holiday) = [1; 2; 0]%nat /\
  objectURLs Demo.world = {[0; 1; 2]}%nat /\
  let after := snd (App.handleDrop Demo.host [] (Demo.manager, Demo.world)) in
  option_map (fun g => map Media.url (Gallery.media g))
             (GalleryManager.activeGallery (fst after)) = Some [4; 5; 3]%nat /\
  (0 ∈ objectURLs (snd after) /\ 1 ∈ objectURLs (snd after) /\ 2 ∈ objectURLs (snd after))%nat.
Proof.
  split; [reflexivity|]. split; [reflexivity|].
  cbv zeta. split; [vm_compute; reflexivity|].
  assert (Hlive : objectURLs (snd (snd (App.handleDrop Demo.host [] (Demo.manager, Demo.world))))
                  = {[3; 4; 5; 0; 1; 2]}%nat).
  { vm_compute. reflexivity. }
  rewrite Hlive. set_solver.
Qed.

(** * Further properties *)

(** ** Sequential navigation *)

Lemma set_activeMediaIndex_same gm :
  GalleryManager.set_activeMediaIndex (GalleryManager.activeMediaIndex gm) gm = gm.
Proof. by destruct gm. Qed.

Lemma navigateMedia_sequential_step host fuel gm w g d :
  GalleryManager.activeGallery gm = Some g ->
  GalleryManager.isRandomMode gm = false ->
  0 <= GalleryManager.activeMediaIndex gm < Z.of_nat (length (Gallery.media g)) ->
  d = 1 \/ d = -1 ->
  App.navigateMedia host fuel d (gm, w)
  = Some (GalleryManager.set_activeMediaIndex
            ((GalleryManager.activeMediaIndex gm + d) mod Z.of_nat (length (Gallery.media g))) gm,
          w).
Proof.
  intros Hg Hseq Ha Hd. unfold App.navigateMedia. rewrite Hg, Hseq.
  set (len := Z.of_nat (length (Gallery.media g))) in *.
  set (a := GalleryManager.activeMediaIndex gm) in *.
  destruct (len =? 0) eqn:E0; [apply Z.eqb_eq in E0; lia|].
  assert (Hmod : (if len <=? (if a + d <? 0 then len - 1 else a + d) then 0
                  else if a + d <? 0 then len - 1 else a + d) = (a + d) mod len).
  { destruct Hd as [-> | ->].
    - destruct (a + 1 <? 0) eqn:E1; [apply Z.ltb_lt in E1; lia|].
      destruct (len <=? a + 1) eqn:E2.
      + apply Z.leb_le in E2. replace (a + 1) with len by lia. by rewrite Z_mod_same_full.
      + apply Z.leb_gt in E2. by rewrite Z.mod_small by lia.
    - destruct (a + -1 <? 0) eqn:E1.
      + apply Z.ltb_lt in E1. replace (a + -1) with (-1) by lia.
        destruct (len <=? len - 1) eqn:E2; [apply Z.leb_le in E2; lia|].
        apply Z.mod_unique with (q := -1); lia.
      + apply Z.ltb_ge in E1.
        destruct (len <=? a + -1) eqn:E2; [apply Z.leb_le in E2; lia|].
        by rewrite Z.mod_small by lia. }
  rewrite Hmod.
  erewrite displayMedia_in_range; [reflexivity|exact Hg|].
  apply Z.mod_pos_bound. lia.
Qed.

(** X1. In sequential mode, on an active gallery with media and a media index
    inside the list, the right arrow shows the next item and the left arrow
    the previous one, both wrapping around: the new index is the old one
    plus or minus 1 modulo the number of items; nothing else changes and no
    random number is drawn. *)
Theorem navigateMedia_sequential_wraps host fuel gm w g :
  GalleryManager.activeGallery gm = Some g ->
  GalleryManager.isRandomMode gm = false ->
  let len := Z.of_nat (length (Gallery.media g)) in
  let a := GalleryManager.activeMediaIndex gm in
  0 <= a < len ->
  App.navigateMedia host fuel 1 (gm, w)
    = Some (GalleryManager.set_activeMediaIndex ((a + 1) mod len) gm, w) /\
  App.navigateMedia host fuel (-1) (gm, w)
    = Some (GalleryManager.set_activeMediaIndex ((a - 1) mod len) gm, w) /\
  (a = len - 1 -> (a + 1) mod len = 0) /\
  (a = 0 -> (a - 1) mod len = len - 1) /\
  (a < len - 1 -> (a + 1) mod len = a + 1) /\
  (0 < a -> (a - 1) mod len = a - 1).
Proof.
  intros Hg Hseq len a Ha.
  split; [by apply navigateMedia_sequential_step; [| | |left]|].
  split; [by apply (navigateMedia_sequential_step host fuel gm w g (-1)); [| | |right]|].
  split; [intros ->; replace (len - 1 + 1) with len by lia; apply Z_mod_same_full|].
  split; [intros ->; symmetry; apply Z.mod_unique with (q := -1); lia|].
  split; intros; apply Z.mod_small; lia.
Qed.

Lemma navigateMedia_sequential_wraps_witness :
  GalleryManager.activeGallery Demo.manager = Some Demo.holiday /\
  GalleryManager.isRandomMode Demo.manager = false /\
  let len := Z.of_nat (length (Gallery.media Demo.holiday)) in
  let a := GalleryManager.activeMediaIndex Demo.manager in
  0 <= a < len /\
  App.navigateMedia Demo.host 0 1 (Demo.manager, Demo.world)
    = Some (GalleryManager.set_activeMediaIndex ((a + 1) mod len) Demo.manager, Demo.world) /\
  App.navigateMedia Demo.host 0 (-1) (Demo.manager, Demo.world)
    = Some (GalleryManager.set_activeMediaIndex ((a - 1) mod len) Demo.manager, Demo.world) /\
  (a = len - 1 -> (a + 1) mod len = 0) /\
  (a = 0 -> (a - 1) mod len = len - 1) /\
  (a < len - 1 -> (a + 1) mod len = a + 1) /\
  (0 < a -> (a - 1) mod len = a - 1).
Proof.
  split; [reflexivity|]. split; [reflexivity|]. cbv zeta.
  split; [simpl; lia|].
  apply (navigateMedia_sequential_wraps Demo.host 0 Demo.manager Demo.world Demo.holiday);
    [reflexivity | reflexivity | simpl; lia].
Defined.

Lemma set_activeMediaIndex_twice i j gm :
  GalleryManager.set_activeMediaIndex j (GalleryManager.set_activeMediaIndex i gm)
  = GalleryManager.set_activeMediaIndex j gm.
Proof. by destruct gm. Qed.

Lemma activeGallery_set_activeMediaIndex i gm :
  GalleryManager.activeGallery (GalleryManager.set_activeMediaIndex i gm)
  = GalleryManager.activeGallery gm.
Proof. by destruct gm. Qed.

Lemma navigateMedia_sequential_at host fuel gm w g d i :
  GalleryManager.activeGallery gm = Some g ->
  GalleryManager.isRandomMode gm = false ->
  0 <= i < Z.of_nat (length (Gallery.media g)) ->
  d = 1 \/ d = -1 ->
  App.navigateMedia host fuel d (GalleryManager.set_activeMediaIndex i gm, w)
  = Some (GalleryManager.set_activeMediaIndex
            ((i + d) mod Z.of_nat (length (Gallery.media g))) gm, w).
Proof.
  intros Hg Hseq Hi Hd.
  rewrite (navigateMedia_sequential_step host fuel
             (GalleryManager.set_activeMediaIndex i gm) w g d).
  - by destruct gm.
  - by rewrite activeGallery_set_activeMediaIndex.
  - by destruct gm.
  - by destruct gm.
  - done.
Qed.

(** X2. In sequential mode a step forward followed by a step backward, and
    a step backward followed by a step forward, bring the manager back to
    the state it started from, also across the two ends of the list. *)
Theorem navigateMedia_forth_and_back host fuel1 fuel2 gm w g :
  GalleryManager.activeGallery gm = Some g ->
  GalleryManager.isRandomMode gm = false ->
  0 <= GalleryManager.activeMediaIndex gm < Z.of_nat (length (Gallery.media g)) ->
  (exists s1, App.navigateMedia host fuel1 1 (gm, w) = Some s1 /\
              App.navigateMedia host fuel2 (-1) s1 = Some (gm, w)) /\
  (exists s1, App.navigateMedia host fuel1 (-1) (gm, w) = Some s1 /\
              App.navigateMedia host fuel2 1 s1 = Some (gm, w)).
Proof.
  intros Hg Hseq Ha.
  assert (Hback : forall d, d = 1 \/ d = -1 ->
    exists s1, App.navigateMedia host fuel1 d (gm, w) = Some s1 /\
               App.navigateMedia host fuel2 (- d) s1 = Some (gm, w)).
  { intros d Hd. eexists. split.
    - by apply navigateMedia_sequential_step.
    - rewrite (navigateMedia_sequential_at host fuel2 gm w g (- d)); [|done|done| |lia].
      + rewrite Zplus_mod_idemp_l.
        replace (GalleryManager.activeMediaIndex gm + d + - d)
          with (GalleryManager.activeMediaIndex gm) by lia.
        rewrite Z.mod_small by lia. by rewrite set_activeMediaIndex_same.
      + apply Z.mod_pos_bound. lia. }
  split; [apply (Hback 1); by left | apply (Hback (-1)); by right].
Qed.

Lemma navigateMedia_forth_and_back_witness :
  (exists s1, App.navigateMedia Demo.host 0 1 (Demo.manager, Demo.world) = Some s1 /\
              App.navigateMedia Demo.host 0 (-1) s1 = Some (Demo.manager, Demo.world)) /\
  (exists s1, App.navigateMedia Demo.host 0 (-1) (Demo.manager, Demo.world) = Some s1 /\
              App.navigateMedia Demo.host 0 1 s1 = Some (Demo.manager, Demo.world)).
Proof.
  apply (navigateMedia_forth_and_back Demo.host 0 0 Demo.manager Demo.world Demo.holiday);
    [reflexivity | reflexivity | simpl; lia].
Defined.

Lemma forwardSteps_at host w g gm n : forall i,
  GalleryManager.activeGallery gm = Some g ->
  GalleryManager.isRandomMode gm = false ->
  0 <= i < Z.of_nat (length (Gallery.media g)) ->
  forwardSteps host n (GalleryManager.set_activeMediaIndex i gm, w)
  = Some (GalleryManager.set_activeMediaIndex
            ((i + Z.of_nat n) mod Z.of_nat (length (Gallery.media g))) gm, w).
Proof.
  induction n as [|n IH]; intros i Hg Hseq Hi.
  - cbn [forwardSteps]. by rewrite Z.add_0_r, Z.mod_small.
  - cbn [forwardSteps].
    rewrite (navigateMedia_sequential_at host 0 gm w g 1 i Hg Hseq Hi (or_introl eq_refl)).
    rewrite IH; [|done|done|apply Z.mod_pos_bound; lia].
    rewrite Zplus_mod_idemp_l.
    by replace (i + 1 + Z.of_nat n) with (i + Z.of_nat (S n)) by lia.
Qed.

Lemma forwardSteps_run host w g n gm :
  GalleryManager.activeGallery gm = Some g ->
  GalleryManager.isRandomMode gm = false ->
  0 <= GalleryManager.activeMediaIndex gm < Z.of_nat (length (Gallery.media g)) ->
  forwardSteps host n (gm, w)
  = Some (GalleryManager.set_activeMediaIndex
            ((GalleryManager.activeMediaIndex gm + Z.of_nat n)
               mod Z.of_nat (length (Gallery.media g))) gm, w).
Proof.
  intros Hg Hseq Ha.
  rewrite <- (set_activeMediaIndex_same gm) at 1.
  by apply forwardSteps_at.
Qed.

(** X3. Sequential navigation is a cycle through the media list: [n] steps
    forward from index [a] end on index [(a + n) mod len], and as many
    steps as the list has items end on the state the manager started
    from. *)
Theorem forward_steps_cycle host gm w g n :
  GalleryManager.activeGallery gm = Some g ->
  GalleryManager.isRandomMode gm = false ->
  0 <= GalleryManager.activeMediaIndex gm < Z.of_nat (length (Gallery.media g)) ->
  forwardSteps host n (gm, w)
  = Some (GalleryManager.set_activeMediaIndex
            ((GalleryManager.activeMediaIndex gm + Z.of_nat n)
               mod Z.of_nat (length (Gallery.media g))) gm, w) /\
  forwardSteps host (length (Gallery.media g)) (gm, w) = Some (gm, w).
Proof.
  intros Hg Hseq Ha. split; [by apply forwardSteps_run|].
  rewrite (forwardSteps_run host w g _ gm Hg Hseq Ha).
  rewrite <- (Z.mul_1_l (Z.of_nat (length (Gallery.media g)))) at 1.
  rewrite Z_mod_plus_full, Z.mod_small by done.
  by rewrite set_activeMediaIndex_same.
Qed.

Lemma forward_steps_cycle_witness :
  forwardSteps Demo.host 5 (Demo.manager, Demo.world)
  = Some (GalleryManager.set_activeMediaIndex
            ((GalleryManager.activeMediaIndex Demo.manager + Z.of_nat 5)
               mod Z.of_nat (length (Gallery.media Demo.holiday))) Demo.manager, Demo.world) /\
  forwardSteps Demo.host (length (Gallery.media Demo.holiday)) (Demo.manager, Demo.world)
  = Some (Demo.manager, Demo.world).
Proof.
  apply (forward_steps_cycle Demo.host Demo.manager Demo.world Demo.holiday 5);
    [reflexivity | reflexivity | simpl; lia].
Defined.

(** ** What navigation never touches *)

Lemma sameButDraws_refl w : sameButDraws w w.
Proof. by repeat split. Qed.

Lemma sameButDraws_trans w1 w2 w3 :
  sameButDraws w1 w2 -> sameButDraws w2 w3 -> sameButDraws w1 w3.
Proof.
  intros (A1 & A2 & A3 & A4 & A5 & A6 & A7) (B1 & B2 & B3 & B4 & B5 & B6 & B7).
  repeat split; try congruence. lia.
Qed.

Lemma drawOther_sound host len current : forall fuel w r w',
  0 < len ->
  App.drawOther host fuel len current w = Some (r, w') ->
  0 <= r < len /\ r <> current /\ sameButDraws w w'.
Proof.
  induction fuel as [|fuel IH]; intros w r w' Hlen; cbn [App.drawOther]; [discriminate|].
  unfold Web.nextRandomFloor. fold (drawnIndex host len (randomCalls w)).
  destruct (_ =? current) eqn:E.
  - intros H. destruct (IH _ _ _ Hlen H) as (Hr & Hne & Hsame).
    split; [done|]. split; [done|].
    eapply sameButDraws_trans; [|exact Hsame].
    destruct w; repeat split; simpl; lia.
  - intros [= <- <-]. apply Z.eqb_neq in E.
    split; [by apply drawnIndex_range|]. split; [done|].
    destruct w; repeat split; simpl; lia.
Qed.

Lemma keepsSelection_refl gm : keepsSelection gm gm.
Proof. by repeat split. Qed.

Lemma keepsSelection_trans gm1 gm2 gm3 :
  keepsSelection gm1 gm2 -> keepsSelection gm2 gm3 -> keepsSelection gm1 gm3.
Proof.
  intros (A1 & A2 & A3) (B1 & B2 & B3). repeat split; try congruence. tauto.
Qed.

Lemma keepsSelection_displayMedia i gm : keepsSelection gm (GalleryManager.displayMedia i gm).
Proof.
  split; [apply galleries_displayMedia|]. split; [apply activeGalleryIndex_displayMedia|].
  intros Hvalid. unfold GalleryManager.displayMedia.
  destruct (GalleryManager.activeGallery gm) as [g|] eqn:Hg; [|done].
  destruct (i <? 0) eqn:E1; [done|]. apply Z.ltb_ge in E1.
  destruct (Z.of_nat (length (Gallery.media g)) <=? i) eqn:E2; [done|]. apply Z.leb_gt in E2.
  cbn [orb]. right. exists g. split; [by rewrite activeGallery_set_activeMediaIndex|].
  right. destruct gm; simpl. lia.
Qed.

Lemma keepsSelection_set_isRandomMode b gm :
  keepsSelection gm (GalleryManager.set_isRandomMode b gm).
Proof. by destruct gm. Qed.

Lemma keepsSelection_set_previousMediaIndex i gm :
  keepsSelection gm (GalleryManager.set_previousMediaIndex i gm).
Proof. by destruct gm. Qed.

Lemma selectRandomMedia_keeps host fuel gm w gm' w' :
  App.selectRandomMedia host fuel (gm, w) = Some (gm', w') ->
  keepsSelection gm gm' /\ sameButDraws w w'.
Proof.
  unfold App.selectRandomMedia.
  destruct (GalleryManager.activeGallery gm) as [g|] eqn:Hg;
    [|intros [= <- <-]; split; [apply keepsSelection_refl | apply sameButDraws_refl]].
  destruct (_ <=? 1) eqn:E;
    [intros [= <- <-]; split; [apply keepsSelection_refl | apply sameButDraws_refl]|].
  apply Z.leb_gt in E.
  destruct (App.drawOther _ _ _ _ _) as [[r w1]|] eqn:Hdraw; [|discriminate].
  intros [= <- <-]. apply drawOther_sound in Hdraw as (_ & _ & Hsame); [|lia].
  split; [|done].
  eapply keepsSelection_trans; [apply keepsSelection_set_isRandomMode|].
  eapply keepsSelection_trans; [apply keepsSelection_set_previousMediaIndex|].
  apply keepsSelection_displayMedia.
Qed.

Lemma navigateMedia_keeps host fuel direction gm w gm' w' :
  App.navigateMedia host fuel direction (gm, w) = Some (gm', w') ->
  keepsSelection gm gm' /\ sameButDraws w w'.
Proof.
  unfold App.navigateMedia.
  destruct (GalleryManager.activeGallery gm) as [g|] eqn:Hg;
    [|intros [= <- <-]; split; [apply keepsSelection_refl | apply sameButDraws_refl]].
  destruct (_ =? 0) eqn:E;
    [intros [= <- <-]; split; [apply keepsSelection_refl | apply sameButDraws_refl]|].
  destruct (GalleryManager.isRandomMode gm).
  - destruct (direction =? -1); [|apply selectRandomMedia_keeps].
    destruct (_ && _)%bool; [|apply selectRandomMedia_keeps].
    intros [= <- <-]. split; [|apply sameButDraws_refl].
    eapply keepsSelection_trans; [apply keepsSelection_set_previousMediaIndex|].
    apply keepsSelection_displayMedia.
  - intros [= <- <-]. split; [apply keepsSelection_displayMedia | apply sameButDraws_refl].
Qed.

Lemma toggleRandomMedia_keeps host fuel gm w gm' w' :
  App.toggleRandomMedia host fuel (gm, w) = Some (gm', w') ->
  keepsSelection gm gm' /\ sameButDraws w w'.
Proof.
  unfold App.toggleRandomMedia.
  destruct (GalleryManager.isRandomMode (GalleryManager.set_isRandomMode _ gm)).
  - intros [Hk Hw]%selectRandomMedia_keeps. split; [|done].
    eapply keepsSelection_trans; [apply keepsSelection_set_isRandomMode|exact Hk].
  - intros [= <- <-]. split; [apply keepsSelection_set_isRandomMode | apply sameButDraws_refl].
Qed.

Lemma handleKeyboard_keeps host fuel modalActive key gm w gm' w' :
  App.handleKeyboard host fuel modalActive key (gm, w) = Some (gm', w') ->
  keepsSelection gm gm' /\ sameButDraws w w'.
Proof.
  assert (Hsame : Some (gm, w) = Some (gm', w') ->
                  keepsSelection gm gm' /\ sameButDraws w w').
  { intros [= <- <-]. split; [apply keepsSelection_refl | apply sameButDraws_refl]. }
  unfold App.handleKeyboard.
  destruct modalActive; [done|].
  destruct (_ =? -1); [done|].
  repeat (case_match; try done);
    first [apply navigateMedia_keeps | apply selectRandomMedia_keeps].
Qed.

Lemma navigates_keeps host s s' :
  navigates host s s' ->
  keepsSelection (fst s) (fst s') /\ sameButDraws (snd s) (snd s').
Proof.
  destruct 1 as [fuel d [gm w] [gm' w'] H | fuel [gm w] [gm' w'] H
                | fuel [gm w] [gm' w'] H | fuel m k [gm w] [gm' w'] H | index gm w];
    cbn [fst snd].
  - by eapply navigateMedia_keeps.
  - by eapply selectRandomMedia_keeps.
  - by eapply toggleRandomMedia_keeps.
  - by eapply handleKeyboard_keeps.
  - split; [|apply sameButDraws_refl]. unfold GalleryManager.thumbnailClick.
    eapply keepsSelection_trans; [apply keepsSelection_set_isRandomMode|].
    apply keepsSelection_displayMedia.
Qed.

(** X4. Whatever sequence of navigation actions the user performs (arrow
    buttons and keys in either mode, the random button, the random toggle,
    key presses, clicks on thumbnails), the array of galleries and the
    active gallery stay as they were, a valid selection stays valid (the
    media index never leaves the media list), and of the outside world only
    the number of random draws made can have grown: nothing is stored,
    written, asked for or revoked. *)
Theorem navigation_keeps_selection host s s' :
  rtc (navigates host) s s' ->
  GalleryManager.galleries (fst s') = GalleryManager.galleries (fst s) /\
  GalleryManager.activeGalleryIndex (fst s') = GalleryManager.activeGalleryIndex (fst s) /\
  (selectionValid (fst s) -> selectionValid (fst s')) /\
  store (snd s') = store (snd s) /\
  objectURLs (snd s') = objectURLs (snd s) /\
  permissionCalls (snd s') = permissionCalls (snd s) /\
  writtenFiles (snd s') = writtenFiles (snd s) /\
  clockReads (snd s') = clockReads (snd s) /\
  (randomCalls (snd s) <= randomCalls (snd s'))%nat.
Proof.
  intros Hsteps.
  assert (H : keepsSelection (fst s) (fst s') /\ sameButDraws (snd s) (snd s')).
  { induction Hsteps as [s|s1 s2 s3 Hstep _ [IHk IHw]].
    - split; [apply keepsSelection_refl | apply sameButDraws_refl].
    - apply navigates_keeps in Hstep as [Hk Hw].
      split; [by eapply keepsSelection_trans | by eapply sameButDraws_trans]. }
  destruct H as [(H1 & H2 & H3) (W1 & W2 & W3 & W4 & W5 & W6 & W7)].
  by repeat split.
Qed.

Lemma navigation_keeps_selection_witness :
  let s := (Demo.randomManager, Demo.world) in
  exists s',
    rtc (navigates Demo.host) s s' /\
    GalleryManager.galleries (fst s') = GalleryManager.galleries (fst s) /\
    GalleryManager.activeGalleryIndex (fst s') = GalleryManager.activeGalleryIndex (fst s) /\
    (selectionValid (fst s) -> selectionValid (fst s')) /\
    store (snd s') = store (snd s) /\
    objectURLs (snd s') = objectURLs (snd s) /\
    permissionCalls (snd s') = permissionCalls (snd s) /\
    writtenFiles (snd s') = writtenFiles (snd s) /\
    clockReads (snd s') = clockReads (snd s) /\
    (randomCalls (snd s) <= randomCalls (snd s'))%nat.
Proof.
  cbv zeta.
  assert (Hsteps : rtc (navigates Demo.host) (Demo.randomManager, Demo.world)
            (GalleryManager.thumbnailClick 1
               (default Demo.randomManager
                  (fst <$> App.navigateMedia Demo.host 5 1 (Demo.randomManager, Demo.world))),
             default Demo.world
               (snd <$> App.navigateMedia Demo.host 5 1 (Demo.randomManager, Demo.world)))).
  { eapply rtc_l; [apply (nav_arrow Demo.host 5 1); reflexivity|].
    apply rtc_once. apply nav_thumbnail. }
  eexists. split; [exact Hsteps|].
  exact (navigation_keeps_selection Demo.host _ _ Hsteps).
Defined.

(** ** The random toggle *)

(** X5. Switching random mode on from sequential mode, on a gallery with
    more than one item, draws until an index other than the current one
    comes up, shows it and records the index it left; one step backward
    then shows the recorded item again without a draw; switching random
    mode off then draws nothing and leaves the manager as it was before the
    toggle, apart from [previousMediaIndex], which is cleared. *)
Theorem toggleRandomMedia_round_trip host gm w g n fuel1 fuel2 fuel3 :
  GalleryManager.activeGallery gm = Some g ->
  GalleryManager.isRandomMode gm = false ->
  let len := Z.of_nat (length (Gallery.media g)) in
  let a := GalleryManager.activeMediaIndex gm in
  1 < len -> 0 <= a < len ->
  firstOther host len a (randomCalls w) n -> (n < fuel1)%nat ->
  exists gm1 gm2,
    App.toggleRandomMedia host fuel1 (gm, w) = Some (gm1, advanceRandom (S n) w) /\
    GalleryManager.isRandomMode gm1 = true /\
    GalleryManager.activeMediaIndex gm1 = drawnIndex host len (randomCalls w + n) /\
    GalleryManager.activeMediaIndex gm1 <> a /\
    0 <= GalleryManager.activeMediaIndex gm1 < len /\
    GalleryManager.previousMediaIndex gm1 = a /\
    App.navigateMedia host fuel2 (-1) (gm1, advanceRandom (S n) w)
      = Some (gm2, advanceRandom (S n) w) /\
    GalleryManager.isRandomMode gm2 = true /\
    GalleryManager.activeMediaIndex gm2 = a /\
    App.toggleRandomMedia host fuel3 (gm2, advanceRandom (S n) w)
      = Some (GalleryManager.set_previousMediaIndex (-1) gm, advanceRandom (S n) w).
Proof.
  intros Hg Hseq len a Hlen Ha Hfirst Hfuel.
  destruct gm as [gs idx a' mode p]. simpl in Hseq. subst mode. simpl in a. subst a.
  set (r := drawnIndex host len (randomCalls w + n)).
  assert (Hr : 0 <= r < len) by (apply drawnIndex_range; lia).
  assert (Hra : r <> a') by apply Hfirst.
  exists (GalleryManager.mk gs idx r true a'), (GalleryManager.mk gs idx a' true (-1)).
  split.
  { change (App.toggleRandomMedia host fuel1 (GalleryManager.mk gs idx a' false p, w))
      with (App.selectRandomMedia host fuel1 (GalleryManager.mk gs idx a' true p, w)).
    by rewrite (selectRandomMedia_run host fuel1 (GalleryManager.mk gs idx a' true p) w g n). }
  split; [done|]. split; [done|]. split; [done|]. split; [done|]. split; [done|].
  split.
  { unfold App.navigateMedia.
    replace (GalleryManager.activeGallery (GalleryManager.mk gs idx r true a'))
      with (Some g) by (symmetry; exact Hg).
    fold len. destruct (len =? 0) eqn:E0; [apply Z.eqb_eq in E0; lia|].
    cbn [GalleryManager.isRandomMode GalleryManager.previousMediaIndex
         GalleryManager.activeMediaIndex Z.eqb Pos.eqb].
    destruct (a' =? -1) eqn:E1; [apply Z.eqb_eq in E1; lia|].
    destruct (a' =? r) eqn:E2; [apply Z.eqb_eq in E2; lia|].
    cbn [negb andb GalleryManager.set_previousMediaIndex].
    by rewrite (displayMedia_in_range a' _ g). }
  split; [done|]. split; [done|]. reflexivity.
Qed.

Lemma toggleRandomMedia_round_trip_witness :
  firstOther Demo.host 3 0 (randomCalls Demo.world) 1 /\
  exists gm1 gm2,
    App.toggleRandomMedia Demo.host 5 (Demo.manager, Demo.world)
      = Some (gm1, advanceRandom 2 Demo.world) /\
    GalleryManager.isRandomMode gm1 = true /\
    GalleryManager.activeMediaIndex gm1 = drawnIndex Demo.host 3 (randomCalls Demo.world + 1) /\
    GalleryManager.activeMediaIndex gm1 <> 0 /\
    0 <= GalleryManager.activeMediaIndex gm1 < 3 /\
    GalleryManager.previousMediaIndex gm1 = 0 /\
    App.navigateMedia Demo.host 0 (-1) (gm1, advanceRandom 2 Demo.world)
      = Some (gm2, advanceRandom 2 Demo.world) /\
    GalleryManager.isRandomMode gm2 = true /\
    GalleryManager.activeMediaIndex gm2 = 0 /\
    App.toggleRandomMedia Demo.host 0 (gm2, advanceRandom 2 Demo.world)
      = Some (GalleryManager.set_previousMediaIndex (-1) Demo.manager, advanceRandom 2 Demo.world).
Proof.
  assert (Hfirst : firstOther Demo.host 3 0 (randomCalls Demo.world) 1).
  { split; [intros k Hk; assert (k = 0%nat) as -> by lia; reflexivity|].
    vm_compute. discriminate. }
  split; [exact Hfirst|].
  apply (toggleRandomMedia_round_trip Demo.host Demo.manager Demo.world Demo.holiday 1 5 0 0
           eq_refl eq_refl); [simpl; lia | simpl; lia | exact Hfirst | lia].
Defined.

(** ** The object store *)

Lemma Forall_put (P : StoredGallery.t -> Prop) r l :
  P r -> Forall P l -> Forall P (GalleryDB.put r l).
Proof.
  intros Hr. induction 1 as [|x t Hx Ht IH]; simpl; [by constructor|].
  destruct (_ <? _); [by repeat constructor|].
  destruct (_ =? _); by constructor.
Qed.

Lemma put_ordered r l : storeOrdered l -> storeOrdered (GalleryDB.put r l).
Proof.
  unfold storeOrdered. induction 1 as [|x t Hsorted IH Hall]; simpl.
  - repeat constructor.
  - destruct (_ <? _) eqn:Hlt.
    + apply Z.ltb_lt in Hlt. constructor; [by constructor|].
      constructor; [done|]. eapply Forall_impl; [exact Hall|]. simpl. intros y Hy. lia.
    + apply Z.ltb_ge in Hlt. destruct (_ =? _) eqn:Heq.
      * apply Z.eqb_eq in Heq. constructor; [done|]. by rewrite Heq.
      * apply Z.eqb_neq in Heq. constructor; [done|].
        apply Forall_put; [lia|done].
Qed.

Lemma delete_ordered k l : storeOrdered l -> storeOrdered (GalleryDB.delete k l).
Proof.
  unfold storeOrdered, GalleryDB.delete. induction 1 as [|x t Hsorted IH Hall]; simpl.
  - constructor.
  - destruct (negb _); [|done]. constructor; [done|].
    apply List.Forall_forall. intros y [Hy _]%List.filter_In.
    by eapply List.Forall_forall in Hall.
Qed.

Lemma delete_put r l :
  GalleryDB.delete (StoredGallery.id r) (GalleryDB.put r l)
  = GalleryDB.delete (StoredGallery.id r) l.
Proof.
  unfold GalleryDB.delete. induction l as [|x t IH]; simpl.
  - by rewrite Z.eqb_refl.
  - destruct (_ <? _) eqn:Hlt; simpl.
    + by rewrite Z.eqb_refl.
    + destruct (StoredGallery.id r =? StoredGallery.id x) eqn:Heq; simpl.
      * by rewrite Z.eqb_refl, Z.eqb_sym, Heq.
      * by rewrite IH.
Qed.

Lemma delete_absent k l : GalleryDB.lookup k l = None -> GalleryDB.delete k l = l.
Proof.
  unfold GalleryDB.lookup, GalleryDB.delete. induction l as [|x t IH]; simpl; [done|].
  destruct (_ =? k); [done|]. simpl. intros H. by rewrite IH.
Qed.

(** X6. The object store keeps its records in key order with one record per
    key: whatever [saveGallery] and [deleteGallery] do to a store that is in
    that order, whether their transaction throws or not, the store is in
    that order afterwards; [loadGalleries] never changes the store. *)
Theorem store_stays_ordered host g id w :
  storeOrdered (store w) ->
  storeOrdered (store (snd (GalleryDB.saveGallery host g w))) /\
  storeOrdered (store (snd (GalleryDB.deleteGallery host id w))) /\
  snd (GalleryDB.loadGalleries host w) = w.
Proof.
  intros Hw.
  unfold GalleryDB.saveGallery, GalleryDB.deleteGallery, GalleryDB.loadGalleries,
    GalleryDB.transaction, bind, modify, get, ret, throw.
  split; [|split].
  - destruct (transactionThrows host _); simpl; [done|].
    destruct w; simpl in *. by apply put_ordered.
  - destruct (transactionThrows host _); simpl; [done|].
    destruct w; simpl in *. by apply delete_ordered.
  - by destruct (transactionThrows host _).
Qed.

Lemma store_stays_ordered_witness :
  storeOrdered (store Demo.world) /\
  storeOrdered (store (snd (GalleryDB.saveGallery Demo.host Demo.twins Demo.world))) /\
  storeOrdered (store (snd (GalleryDB.deleteGallery Demo.host 1700000000001 Demo.world))) /\
  snd (GalleryDB.loadGalleries Demo.host Demo.world) = Demo.world.
Proof.
  assert (H : storeOrdered (store Demo.world)).
  { unfold storeOrdered. simpl. repeat constructor; simpl; lia. }
  split; [exact H|].
  exact (store_stays_ordered Demo.host Demo.twins 1700000000001 Demo.world H).
Defined.

(** X7. What is saved can be loaded, and deleting undoes saving. When no
    transaction throws: after [saveGallery], [loadGalleries] returns a list
    in which the gallery's key holds exactly the saved record (id, name,
    folder handle, shuffle flag, order) and every other key holds what it
    held before; after [deleteGallery] of that key, [loadGalleries] returns
    the earlier records without that key, which is the store as it was
    when the key was new. *)
Theorem store_round_trip host g w :
  transactionThrows host (PutRequest (Gallery.id g)) = false ->
  transactionThrows host GetAllRequest = false ->
  transactionThrows host (DeleteRequest (Gallery.id g)) = false ->
  let saved := (GalleryDB.saveGallery host g ;; GalleryDB.loadGalleries host) w in
  let deleted := (GalleryDB.saveGallery host g ;;
                  GalleryDB.deleteGallery host (Gallery.id g) ;;
                  GalleryDB.loadGalleries host) w in
  (exists l, fst saved = Normal l /\ store (snd saved) = l /\
     GalleryDB.lookup (Gallery.id g) l
       = Some (StoredGallery.mk (Gallery.id g) (Gallery.name g) (Gallery.directoryHandle g)
                                (Some (Gallery.isShuffled g)) (Gallery.order g)) /\
     (forall k, k <> Gallery.id g -> GalleryDB.lookup k l = GalleryDB.lookup k (store w))) /\
  fst deleted = Normal (GalleryDB.delete (Gallery.id g) (store w)) /\
  (forall k, GalleryDB.lookup k (store (snd deleted))
             = if k =? Gallery.id g then None else GalleryDB.lookup k (store w)) /\
  (GalleryDB.lookup (Gallery.id g) (store w) = None -> deleted = (Normal (store w), w)).
Proof.
  intros Hput Hget Hdel saved deleted.
  assert (Hsaved : saved = (Normal (GalleryDB.put (GalleryDB.galleryData g) (store w)),
                            set_store (GalleryDB.put (GalleryDB.galleryData g)) w)).
  { unfold saved, bind. rewrite (saveGallery_run host g w Hput).
    unfold GalleryDB.loadGalleries, GalleryDB.transaction, bind, get, ret.
    rewrite Hget. by destruct w. }
  assert (Hdeleted : deleted = (Normal (GalleryDB.delete (Gallery.id g) (store w)),
                                set_store (fun _ => GalleryDB.delete (Gallery.id g) (store w)) w)).
  { unfold deleted, bind. rewrite (saveGallery_run host g w Hput).
    unfold GalleryDB.deleteGallery, GalleryDB.loadGalleries, GalleryDB.transaction,
      bind, get, ret, modify.
    rewrite Hdel. cbn [fst snd]. rewrite Hget. destruct w; unfold set_store; simpl.
    by rewrite (delete_put (GalleryDB.galleryData g)). }
  split.
  { eexists. rewrite Hsaved. split; [reflexivity|]. split; [by destruct w|].
    split.
    - by rewrite lookup_put, Z.eqb_refl.
    - intros k Hk. rewrite lookup_put. simpl.
      destruct (k =? Gallery.id g) eqn:E; [apply Z.eqb_eq in E; done|done]. }
  rewrite Hdeleted. split; [done|]. split.
  - intros k. replace (store (snd _)) with (GalleryDB.delete (Gallery.id g) (store w))
      by by destruct w.
    destruct (k =? Gallery.id g) eqn:E.
    + apply Z.eqb_eq in E. subst k. apply lookup_delete.
    + apply Z.eqb_neq in E. by apply lookup_delete_ne.
  - intros Hnew. rewrite (delete_absent _ _ Hnew). by destruct w.
Qed.

Lemma store_round_trip_witness :
  let saved := (GalleryDB.saveGallery Demo.host Demo.twins ;;
                GalleryDB.loadGalleries Demo.host) Demo.world in
  let deleted := (GalleryDB.saveGallery Demo.host Demo.twins ;;
                  GalleryDB.deleteGallery Demo.host (Gallery.id Demo.twins) ;;
                  GalleryDB.loadGalleries Demo.host) Demo.world in
  (exists l, fst saved = Normal l /\ store (snd saved) = l /\
     GalleryDB.lookup (Gallery.id Demo.twins) l
       = Some (StoredGallery.mk (Gallery.id Demo.twins) (Gallery.name Demo.twins)
                                (Gallery.directoryHandle Demo.twins)
                                (Some (Gallery.isShuffled Demo.twins))
                                (Gallery.order Demo.twins)) /\
     (forall k, k <> Gallery.id Demo.twins ->
                GalleryDB.lookup k l = GalleryDB.lookup k (store Demo.world))) /\
  fst deleted = Normal (GalleryDB.delete (Gallery.id Demo.twins) (store Demo.world)) /\
  (forall k, GalleryDB.lookup k (store (snd deleted))
             = if k =? Gallery.id Demo.twins then None
               else GalleryDB.lookup k (store Demo.world)) /\
  (GalleryDB.lookup (Gallery.id Demo.twins) (store Demo.world) = None ->
   deleted = (Normal (store Demo.world), Demo.world)).
Proof.
  exact (store_round_trip Demo.host Demo.twins Demo.world eq_refl eq_refl eq_refl).
Defined.

(** ** Closing a gallery *)

(** X8. When the store refuses the deletion, [closeGallery] ends with the
    store's exception after the object URLs of the gallery have been
    revoked: the gallery stays in the array, selected as before, and its
    record stays in the store, but none of its media URLs is live any more.
    An index outside the array is a [TypeError] that changes nothing. *)
Theorem closeGallery_store_failure host gm w i g :
  JsArray.at_ (GalleryManager.galleries gm) i = Some g ->
  transactionThrows host (DeleteRequest (Gallery.id g)) = true ->
  (exists w',
     GalleryManager.closeGallery host i (gm, w) = (Throw "InvalidStateError", (gm, w')) /\
     store w' = store w /\
     objectURLs w' = objectURLs w ∖ list_to_set (map Media.url (Gallery.media g)) /\
     (forall m, m ∈ Gallery.media g -> Media.url m ∉ objectURLs w')) /\
  (forall j, JsArray.at_ (GalleryManager.galleries gm) j = None ->
     GalleryManager.closeGallery host j (gm, w) = (Throw "TypeError", (gm, w))).
Proof.
  intros Hg Hdel. split.
  - exists (afterRevoke (map Media.url (Gallery.media g)) w).
    split.
    { unfold GalleryManager.closeGallery.
      unfold bind at 1. unfold getThis at 1. cbn [fst snd]. rewrite Hg.
      unfold bind at 1. unfold liftWorld at 1. cbn [fst snd]. rewrite revoke_all.
      unfold bind at 1. unfold liftWorld at 1. cbn [fst snd].
      unfold GalleryDB.deleteGallery, GalleryDB.transaction. rewrite Hdel.
      reflexivity. }
    split; [by destruct w|]. split; [by destruct w|].
    intros m Hm. destruct w. unfold afterRevoke, set_objectURLs. cbn.
    apply not_elem_of_difference. right. apply elem_of_list_to_set.
    by apply (list_elem_of_fmap_2 Media.url).
  - intros j Hj. unfold GalleryManager.closeGallery.
    unfold bind at 1. unfold getThis at 1. cbn [fst snd]. by rewrite Hj.
Qed.

Lemma closeGallery_store_failure_witness :
  (exists w',
     GalleryManager.closeGallery Faults.offlineHost 0 (Demo.manager, Demo.world)
       = (Throw "InvalidStateError", (Demo.manager, w')) /\
     store w' = store Demo.world /\
     objectURLs w' = objectURLs Demo.world ∖ list_to_set (map Media.url (Gallery.media Demo.holiday)) /\
     (forall m, m ∈ Gallery.media Demo.holiday -> Media.url m ∉ objectURLs w')) /\
  (forall j, JsArray.at_ (GalleryManager.galleries Demo.manager) j = None ->
     GalleryManager.closeGallery Faults.offlineHost j (Demo.manager, Demo.world)
     = (Throw "TypeError", (Demo.manager, Demo.world))).
Proof.
  exact (closeGallery_store_failure Faults.offlineHost Demo.manager Demo.world 0 Demo.holiday
           eq_refl eq_refl).
Defined.

Lemma at_Some_lookup {A} (l : list A) i :
  0 <= i -> JsArray.at_ l i = l !! Z.to_nat i.
Proof.
  intros Hi. unfold JsArray.at_. destruct (i <? 0) eqn:E; [apply Z.ltb_lt in E; lia|done].
Qed.

(** X9. Closing one of several galleries while one is selected: the
    galleries that remain are the same objects as before (their [order]
    fields are not renumbered), the records of the other galleries and the
    object URLs of the other galleries are untouched, and the selection is
    re-made: when another tab than the active one is closed the same
    gallery stays active, yet the view restarts on its first item with
    random mode off and the recorded previous index cleared. *)
Theorem closeGallery_keeps_the_rest host gm w i g :
  JsArray.at_ (GalleryManager.galleries gm) i = Some g ->
  0 <= GalleryManager.activeGalleryIndex gm < GalleryManager.length_ gm ->
  1 < GalleryManager.length_ gm ->
  transactionThrows host (DeleteRequest (Gallery.id g)) = false ->
  exists gm' w',
    GalleryManager.closeGallery host i (gm, w) = (Normal tt, (gm', w')) /\
    GalleryManager.activeMediaIndex gm' = 0 /\
    GalleryManager.isRandomMode gm' = false /\
    GalleryManager.previousMediaIndex gm' = -1 /\
    selectionValid gm' /\
    (i <> GalleryManager.activeGalleryIndex gm ->
     GalleryManager.activeGallery gm' = GalleryManager.activeGallery gm) /\
    (forall g', g' ∈ GalleryManager.galleries gm' -> g' ∈ GalleryManager.galleries gm) /\
    (forall k, k <> Gallery.id g ->
       GalleryDB.lookup k (store w') = GalleryDB.lookup k (store w)) /\
    (forall u, u ∉ map Media.url (Gallery.media g) ->
       (u ∈ objectURLs w' <-> u ∈ objectURLs w)).
Proof.
  intros Hg Ha HN Hdel.
  pose proof (at_lt _ _ _ Hg) as Hi.
  pose proof (spliceDelete1_length _ _ _ Hg) as Hlen.
  pose proof (spliceDelete1_in_range _ _ _ Hg) as Hgs.
  rewrite (closeGallery_run host gm w i g Hg Hdel). cbv zeta.
  unfold GalleryManager.length_ in *.
  set (a := GalleryManager.activeGalleryIndex gm) in *.
  set (l := GalleryManager.galleries gm) in *.
  set (gs := JsArray.spliceDelete1 l i) in *.
  destruct (0 <? Z.of_nat (length gs)) eqn:E; [|apply Z.ltb_ge in E; lia].
  set (a' := reselected i a (Z.of_nat (length gs))).
  assert (Ha' : 0 <= a' < Z.of_nat (length gs)).
  { unfold a', reselected. destruct (i <? a) eqn:E1; [apply Z.ltb_lt in E1; lia|].
    apply Z.ltb_ge in E1. destruct (i =? a) eqn:E2; [apply Z.eqb_eq in E2; lia|].
    apply Z.eqb_neq in E2. lia. }
  set (gm2 := GalleryManager.set_activeGalleryIndex a'
                (GalleryManager.set_galleries (fun _ => gs) gm)).
  assert (Hgm2 : GalleryManager.galleries gm2 = gs) by by destruct gm.
  destruct (selectGallery_in_range a' gm2) as (S1 & S2 & S3 & S4 & S5).
  { unfold GalleryManager.length_. by rewrite Hgm2. }
  rewrite Hgm2 in S5.
  eexists _, _. split; [reflexivity|].
  split; [done|]. split; [done|]. split; [done|].
  assert (Hact : GalleryManager.activeGallery (GalleryManager.selectGallery a' gm2)
                 = gs !! Z.to_nat a').
  { unfold GalleryManager.activeGallery. rewrite S1, S5. apply at_Some_lookup. lia. }
  split.
  { right. destruct (gs !! Z.to_nat a') as [g'|] eqn:Hg'.
    - exists g'. split; [by rewrite Hact|]. rewrite S2.
      destruct (Gallery.media g'); [by left|right; simpl; lia].
    - apply lookup_ge_None in Hg'. lia. }
  split.
  { intros Hne. rewrite Hact. unfold GalleryManager.activeGallery. fold l a.
    rewrite (at_Some_lookup l a) by lia.
    rewrite Hgs, lookup_without by lia.
    unfold a', reselected.
    destruct (i <? a) eqn:E1.
    - apply Z.ltb_lt in E1. destruct (decide _) as [Hd|Hd]; [lia|]. f_equal. lia.
    - apply Z.ltb_ge in E1. destruct (i =? a) eqn:E2; [apply Z.eqb_eq in E2; lia|].
      destruct (decide _) as [Hd|Hd]; [done|lia]. }
  split.
  { intros g'. rewrite S5, Hgs. intros [H|H]%elem_of_app.
    - rewrite <- (take_drop (Z.to_nat i) l). apply elem_of_app. by left.
    - rewrite <- (take_drop (S (Z.to_nat i)) l). apply elem_of_app. by right. }
  split.
  { intros k Hk. replace (store _) with (GalleryDB.delete (Gallery.id g) (store w))
      by by destruct w.
    by apply lookup_delete_ne. }
  intros u Hu.
  replace (objectURLs _)
    with (objectURLs w ∖ list_to_set (map Media.url (Gallery.media g)) : gset ObjectURL)
    by by destruct w.
  rewrite elem_of_difference, elem_of_list_to_set. tauto.
Qed.

Lemma closeGallery_keeps_the_rest_witness :
  exists gm' w',
    GalleryManager.closeGallery Demo.host 0
      (GalleryManager.mk [Demo.holiday; Demo.work; Demo.pets] 2 0 true 0, Demo.world)
      = (Normal tt, (gm', w')) /\
    GalleryManager.activeMediaIndex gm' = 0 /\
    GalleryManager.isRandomMode gm' = false /\
    GalleryManager.previousMediaIndex gm' = -1 /\
    selectionValid gm' /\
    (0 <> 2 -> GalleryManager.activeGallery gm' = Some Demo.pets) /\
    (forall g', g' ∈ GalleryManager.galleries gm' -> g' ∈ [Demo.holiday; Demo.work; Demo.pets]) /\
    (forall k, k <> Gallery.id Demo.holiday ->
       GalleryDB.lookup k (store w') = GalleryDB.lookup k (store Demo.world)) /\
    (forall u, u ∉ map Media.url (Gallery.media Demo.holiday) ->
       (u ∈ objectURLs w' <-> u ∈ objectURLs Demo.world)).
Proof.
  apply (closeGallery_keeps_the_rest Demo.host
           (GalleryManager.mk [Demo.holiday; Demo.work; Demo.pets] 2 0 true 0)
           Demo.world 0 Demo.holiday eq_refl);
    [unfold GalleryManager.length_; simpl; lia
    | unfold GalleryManager.length_; simpl; lia
    | reflexivity].
Defined.

(** ** Moving a tab *)

(** X10. A failing store does not stop a tab move. When the put of one of
    the galleries throws, [handleTabDrop] still ends normally with the
    array reordered, the orders renumbered and the active index adjusted
    exactly as when the store works; the position in the media, random mode
    and the recorded previous index are kept; but the store then holds the
    new records of the galleries in front of the failing one only, no
    later gallery is written. *)
Theorem handleTabDrop_store_failure host gm w from to g pre bad post :
  from <> to ->
  JsArray.at_ (GalleryManager.galleries gm) from = Some g ->
  reordered (GalleryManager.galleries gm) from to g = pre ++ bad :: post ->
  (forall x, x ∈ pre -> transactionThrows host (PutRequest (Gallery.id x)) = false) ->
  transactionThrows host (PutRequest (Gallery.id bad)) = true ->
  GalleryManager.handleTabDrop host from to (gm, w)
  = (Normal tt,
     (GalleryManager.mk (pre ++ bad :: post)
                        (movedActive from to (GalleryManager.activeGalleryIndex gm))
                        (GalleryManager.activeMediaIndex gm)
                        (GalleryManager.isRandomMode gm)
                        (GalleryManager.previousMediaIndex gm),
      set_store (savedAll pre) w)).
Proof.
  intros Hne Hg Hsplit Hpre Hbad.
  rewrite (handleTabDrop_any host gm w from to g Hne Hg), Hsplit.
  by rewrite (save_stops host pre bad post Hpre Hbad).
Qed.

Lemma handleTabDrop_store_failure_witness :
  GalleryManager.handleTabDrop Faults.brokenHost 0 1 (Demo.manager, Demo.world)
  = (Normal tt,
     (GalleryManager.mk ([Gallery.set_order (Some 0) Demo.work]
                           ++ Gallery.set_order (Some 1) Demo.holiday
                           :: [Gallery.set_order (Some 2) Demo.pets])
                        (movedActive 0 1 (GalleryManager.activeGalleryIndex Demo.manager))
                        (GalleryManager.activeMediaIndex Demo.manager)
                        (GalleryManager.isRandomMode Demo.manager)
                        (GalleryManager.previousMediaIndex Demo.manager),
      set_store (savedAll [Gallery.set_order (Some 0) Demo.work]) Demo.world)).
Proof.
  apply (handleTabDrop_store_failure Faults.brokenHost Demo.manager Demo.world 0 1 Demo.holiday
           [Gallery.set_order (Some 0) Demo.work]
           (Gallery.set_order (Some 1) Demo.holiday)
           [Gallery.set_order (Some 2) Demo.pets]);
    [lia | reflexivity | reflexivity
    | intros x ->%list_elem_of_singleton; reflexivity | reflexivity].
Defined.

Lemma spliceDelete1_inserted {A} (d : list A) (t : Z) x :
  0 <= t <= Z.of_nat (length d) ->
  JsArray.spliceDelete1 (JsArray.spliceInsert d t x) t = d.
Proof.
  intros Ht. rewrite (spliceInsert_in_range d t x Ht).
  assert (Hlen : length (take (Z.to_nat t) d) = Z.to_nat t) by (rewrite length_take; lia).
  rewrite (spliceDelete1_in_range _ t x).
  - rewrite take_app_length' by done.
    rewrite cons_middle, app_assoc.
    rewrite drop_app_length' by (rewrite length_app; simpl; lia).
    apply take_drop.
  - rewrite at_Some_lookup by lia.
    rewrite lookup_app_r by lia. by rewrite Hlen, Nat.sub_diag.
Qed.

Lemma spliceInsert_deleted {A} (l : list A) (f : Z) x :
  JsArray.at_ l f = Some x ->
  JsArray.spliceInsert (JsArray.spliceDelete1 l f) f x = l.
Proof.
  intros Hx. pose proof (at_lt _ _ _ Hx) as Hf.
  apply at_Some in Hx as [_ Hx].
  rewrite (spliceDelete1_in_range l f x) by (apply at_Some; split; [lia|done]).
  assert (Hlen : length (take (Z.to_nat f) l) = Z.to_nat f) by (rewrite length_take; lia).
  rewrite spliceInsert_in_range by (rewrite length_app, length_take, length_drop; lia).
  rewrite take_app_length' by done.
  rewrite drop_app_length' by done.
  by apply take_drop_middle.
Qed.

Lemma move_back {A} (l : list A) (from to : Z) x :
  JsArray.at_ l from = Some x ->
  0 <= to < Z.of_nat (length l) ->
  JsArray.spliceInsert
    (JsArray.spliceDelete1 (JsArray.spliceInsert (JsArray.spliceDelete1 l from) to x) to)
    from x = l.
Proof.
  intros Hx Hto. pose proof (spliceDelete1_length _ _ _ Hx) as Hlen.
  rewrite spliceDelete1_inserted by lia.
  by apply spliceInsert_deleted.
Qed.

Lemma relativeStart_fmap {A B} (h : A -> B) (l : list A) i :
  JsArray.relativeStart (h <$> l) i = JsArray.relativeStart l i.
Proof. unfold JsArray.relativeStart. by rewrite length_fmap. Qed.

Lemma fmap_spliceDelete1 {A B} (h : A -> B) (l : list A) i :
  h <$> JsArray.spliceDelete1 l i = JsArray.spliceDelete1 (h <$> l) i.
Proof.
  unfold JsArray.spliceDelete1. cbv zeta.
  by rewrite relativeStart_fmap, fmap_app, fmap_take, fmap_drop.
Qed.

Lemma fmap_spliceInsert {A B} (h : A -> B) (l : list A) i x :
  h <$> JsArray.spliceInsert l i x = JsArray.spliceInsert (h <$> l) i (h x).
Proof.
  unfold JsArray.spliceInsert. cbv zeta.
  by rewrite relativeStart_fmap, fmap_app, fmap_cons, fmap_take, fmap_drop.
Qed.

Lemma renumber_erased (l : list Gallery.t) :
  Gallery.set_order None
    <$> JsArray.mapIndexed (fun idx g => Gallery.set_order (Some idx) g) l
  = Gallery.set_order None <$> l.
Proof.
  unfold JsArray.mapIndexed. rewrite fmap_imap.
  rewrite (imap_ext _ (const (Gallery.set_order None))) by done.
  by rewrite imap_const.
Qed.

Lemma renumber_ext (l l' : list Gallery.t) :
  Gallery.set_order None <$> l = Gallery.set_order None <$> l' ->
  JsArray.mapIndexed (fun idx g => Gallery.set_order (Some idx) g) l
  = JsArray.mapIndexed (fun idx g => Gallery.set_order (Some idx) g) l'.
Proof.
  intros H. unfold JsArray.mapIndexed.
  transitivity (imap (fun i x => Gallery.set_order (Some (Z.of_nat i)) x)
                     (Gallery.set_order None <$> l)).
  - rewrite imap_fmap. by apply imap_ext.
  - rewrite H, imap_fmap. by apply imap_ext.
Qed.

Lemma renumber_dense (l : list Gallery.t) :
  (forall (k : nat) g, l !! k = Some g -> Gallery.order g = Some (Z.of_nat k)) ->
  JsArray.mapIndexed (fun idx g => Gallery.set_order (Some idx) g) l = l.
Proof.
  intros H. unfold JsArray.mapIndexed. apply list_eq. intros k.
  rewrite list_lookup_imap. destruct (l !! k) as [g|] eqn:Hg; [|done].
  simpl. f_equal. specialize (H k g Hg). destruct g; simpl in *. by rewrite H.
Qed.

Lemma movedActive_back from to a :
  from <> to -> movedActive to from (movedActive from to a) = a.
Proof.
  intros Hne.
  assert (Hv : exists v, movedActive from to a = v /\
             ((a = from /\ v = to) \/ (from < a <= to /\ v = a - 1) \/
              (to <= a < from /\ v = a + 1) \/
              (a <> from /\ ~ from < a <= to /\ ~ to <= a < from /\ v = a))).
  { eexists. split; [reflexivity|]. unfold movedActive.
    destruct (Z.eqb_spec a from); [lia|].
    destruct (Z.ltb_spec from a), (Z.leb_spec a to); cbn [andb]; try lia;
      destruct (Z.ltb_spec a from), (Z.leb_spec to a); cbn [andb]; lia. }
  destruct Hv as (v & -> & Hv). unfold movedActive.
  destruct (Z.eqb_spec v to); [lia|].
  destruct (Z.ltb_spec to v), (Z.leb_spec v from); cbn [andb]; try lia;
    destruct (Z.ltb_spec v to), (Z.leb_spec from v); cbn [andb]; lia.
Qed.

Lemma reordered_back gs from to g :
  JsArray.at_ gs from = Some g ->
  0 <= to < Z.of_nat (length gs) ->
  JsArray.at_ (reordered gs from to g) to = Some (Gallery.set_order (Some to) g) /\
  reordered (reordered gs from to g) to from (Gallery.set_order (Some to) g)
  = JsArray.mapIndexed (fun idx g => Gallery.set_order (Some idx) g) gs.
Proof.
  intros Hg Hto. pose proof (spliceDelete1_length _ _ _ Hg) as Hlen. split.
  - unfold reordered, JsArray.mapIndexed. rewrite at_Some_lookup by lia.
    rewrite list_lookup_imap, spliceInsert_in_range by lia.
    rewrite lookup_app_r by (rewrite length_take; lia).
    rewrite length_take. replace (_ - _)%nat with 0%nat by lia. simpl.
    by rewrite Z2Nat.id by lia.
  - unfold reordered at 1. apply renumber_ext.
    rewrite fmap_spliceInsert, fmap_spliceDelete1. unfold reordered.
    rewrite renumber_erased, fmap_spliceInsert, fmap_spliceDelete1.
    change (Gallery.set_order None (Gallery.set_order (Some to) g))
      with (Gallery.set_order None g).
    apply move_back; [|by rewrite length_fmap].
    apply at_Some in Hg as [H0 Hg]. apply at_Some. split; [done|].
    by rewrite list_lookup_fmap, Hg.
Qed.

(** X11. Moving a tab and moving it back: after [handleTabDrop] from
    [from] to [to] and then from [to] to [from], with the store accepting
    the writes, the array holds the galleries in their old sequence, each
    with its position as [order], and the active index, the position in
    the media, random mode and the previous index are the old ones; when
    the orders were the positions before, the manager is back in exactly
    the state it started from. *)
Theorem handleTabDrop_round_trip host gm w from to :
  let N := GalleryManager.length_ gm in
  0 <= from < N -> 0 <= to < N -> from <> to ->
  (forall id, transactionThrows host (PutRequest id) = false) ->
  exists gm1 w1 gm2 w2,
    GalleryManager.handleTabDrop host from to (gm, w) = (Normal tt, (gm1, w1)) /\
    GalleryManager.handleTabDrop host to from (gm1, w1) = (Normal tt, (gm2, w2)) /\
    GalleryManager.galleries gm2
      = JsArray.mapIndexed (fun idx g => Gallery.set_order (Some idx) g)
                           (GalleryManager.galleries gm) /\
    GalleryManager.activeGalleryIndex gm2 = GalleryManager.activeGalleryIndex gm /\
    GalleryManager.activeMediaIndex gm2 = GalleryManager.activeMediaIndex gm /\
    GalleryManager.isRandomMode gm2 = GalleryManager.isRandomMode gm /\
    GalleryManager.previousMediaIndex gm2 = GalleryManager.previousMediaIndex gm /\
    ((forall (k : nat) g, GalleryManager.galleries gm !! k = Some g ->
                          Gallery.order g = Some (Z.of_nat k)) ->
     gm2 = gm).
Proof.
  intros N Hfrom Hto Hne Hput. unfold N, GalleryManager.length_ in *.
  destruct (JsArray.at_ (GalleryManager.galleries gm) from) as [g|] eqn:Hg.
  2:{ rewrite at_Some_lookup in Hg by lia. apply lookup_ge_None in Hg. lia. }
  destruct (reordered_back _ from to g Hg Hto) as [Hat Hback].
  rewrite (handleTabDrop_run host gm w from to g Hne Hg Hput).
  eexists _, _. eexists _, _. split; [reflexivity|].
  rewrite (handleTabDrop_run host _ _ to from (Gallery.set_order (Some to) g));
    [|done|exact Hat|exact Hput].
  cbn [GalleryManager.galleries GalleryManager.activeGalleryIndex
       GalleryManager.activeMediaIndex GalleryManager.isRandomMode
       GalleryManager.previousMediaIndex].
  rewrite Hback, movedActive_back by done.
  split; [reflexivity|].
  cbn [GalleryManager.galleries GalleryManager.activeGalleryIndex
       GalleryManager.activeMediaIndex GalleryManager.isRandomMode
       GalleryManager.previousMediaIndex].
  split; [done|]. split; [done|]. split; [done|]. split; [done|]. split; [done|].
  intros Hdense. rewrite (renumber_dense _ Hdense). by destruct gm.
Qed.

Lemma handleTabDrop_round_trip_witness :
  exists gm1 w1 gm2 w2,
    GalleryManager.handleTabDrop Demo.host 0 2 (Demo.manager, Demo.world)
      = (Normal tt, (gm1, w1)) /\
    GalleryManager.handleTabDrop Demo.host 2 0 (gm1, w1) = (Normal tt, (gm2, w2)) /\
    GalleryManager.galleries gm2
      = JsArray.mapIndexed (fun idx g => Gallery.set_order (Some idx) g)
                           (GalleryManager.galleries Demo.manager) /\
    GalleryManager.activeGalleryIndex gm2 = GalleryManager.activeGalleryIndex Demo.manager /\
    GalleryManager.activeMediaIndex gm2 = GalleryManager.activeMediaIndex Demo.manager /\
    GalleryManager.isRandomMode gm2 = GalleryManager.isRandomMode Demo.manager /\
    GalleryManager.previousMediaIndex gm2 = GalleryManager.previousMediaIndex Demo.manager /\
    ((forall (k : nat) g, GalleryManager.galleries Demo.manager !! k = Some g ->
                          Gallery.order g = Some (Z.of_nat k)) ->
     gm2 = Demo.manager).
Proof.
  apply (handleTabDrop_round_trip Demo.host Demo.manager Demo.world 0 2);
    [unfold GalleryManager.length_; simpl; lia
    | unfold GalleryManager.length_; simpl; lia
    | lia
    | reflexivity].
Defined.

(** ** Creating a gallery *)

Lemma verifies_true_or_not host h mode :
  verifies host h mode = Normal true \/ verifies host h mode <> Normal true.
Proof. destruct (verifies host h mode) as [[]|]; [by left|by right|by right]. Qed.

Lemma createGallery_run host now name h gm w :
  let g0 := Gallery.set_order (Some (GalleryManager.length_ gm))
              (Gallery.constructor now name h) in
  exists m w1,
    Gallery.loadMedia host (g0, w) = (Normal tt, (Gallery.set_media (fun _ => m) g0, w1)) /\
    GalleryManager.createGallery host now name h (gm, w)
    = if transactionThrows host (PutRequest now)
      then (Throw "InvalidStateError", (gm, w1))
      else (Normal tt,
            (GalleryManager.selectGallery (GalleryManager.length_ gm)
               (GalleryManager.set_galleries
                  (fun gs => gs ++ [Gallery.set_media (fun _ => m) g0]) gm),
             set_store (GalleryDB.put (GalleryDB.galleryData
                                         (Gallery.set_media (fun _ => m) g0))) w1)).
Proof.
  intros g0. destruct (loadMedia_shape host g0 w) as (m & w1 & Hload).
  exists m, w1. split; [exact Hload|].
  unfold GalleryManager.createGallery. fold g0.
  unfold bind at 1. unfold getThis at 1. cbn [fst snd]. fold g0.
  unfold bind at 1. unfold onGallery at 1. cbn [fst snd]. rewrite Hload. cbn [fst snd].
  unfold bind at 1. unfold liftWorld at 1. cbn [fst snd].
  destruct (transactionThrows host (PutRequest now)) eqn:Hput.
  - by rewrite saveGallery_throws.
  - rewrite saveGallery_run by done.
    unfold bind, setThis, getThis. cbn [fst snd].
    do 3 f_equal. unfold GalleryManager.length_.
    destruct gm; cbn. rewrite length_app. simpl. lia.
Qed.

(** X12. [createGallery] with a name and a folder, the store accepting the
    write: a gallery with the time of the call as id is appended behind the
    existing ones with [order] equal to the number of galleries there were,
    not shuffled; it holds the scan of the folder when read-write access is
    granted and no media at all otherwise (it is created all the same); its
    record is in the store, the other records are untouched; and it is the
    selected gallery, shown from its first item in sequential mode. Without
    a name or without a folder nothing happens. *)
Theorem createGallery_appends host now name h gm w :
  name <> EmptyString ->
  transactionThrows host (PutRequest now) = false ->
  let N := GalleryManager.length_ gm in
  (exists g gm' w',
    App.createGallery host now name (Some h) (gm, w) = (Normal tt, (gm', w')) /\
    GalleryManager.galleries gm' = GalleryManager.galleries gm ++ [g] /\
    Gallery.id g = now /\ Gallery.name g = name /\ Gallery.directoryHandle g = h /\
    Gallery.isShuffled g = false /\ Gallery.order g = Some N /\
    Gallery.media g = (if grants host h then scanResult host g w else []) /\
    GalleryManager.activeGalleryIndex gm' = N /\
    GalleryManager.activeGallery gm' = Some g /\
    GalleryManager.activeMediaIndex gm' = 0 /\
    GalleryManager.isRandomMode gm' = false /\
    GalleryManager.previousMediaIndex gm' = -1 /\
    GalleryDB.lookup now (store w')
      = Some (StoredGallery.mk now name h (Some false) (Some N)) /\
    (forall k, k <> now -> GalleryDB.lookup k (store w') = GalleryDB.lookup k (store w))) /\
  App.createGallery host now EmptyString (Some h) (gm, w) = (Normal tt, (gm, w)) /\
  App.createGallery host now name None (gm, w) = (Normal tt, (gm, w)).
Proof.
  intros Hname Hput N. split; [|by destruct name].
  set (g0 := Gallery.set_order (Some N) (Gallery.constructor now name h)).
  destruct (createGallery_run host now name h gm w) as (m & w1 & Hload & Hrun).
  fold N g0 in Hload, Hrun. rewrite Hput in Hrun.
  set (g := Gallery.set_media (fun _ => m) g0) in *.
  set (gm1 := GalleryManager.set_galleries (fun gs => gs ++ [g]) gm) in *.
  assert (Hgm1 : GalleryManager.galleries gm1 = GalleryManager.galleries gm ++ [g])
    by by destruct gm.
  assert (HN : 0 <= N < GalleryManager.length_ gm1).
  { unfold N, GalleryManager.length_. rewrite Hgm1, length_app. simpl. lia. }
  destruct (selectGallery_in_range N gm1 HN) as (S1 & S2 & S3 & S4 & S5).
  exists g, (GalleryManager.selectGallery N gm1),
    (set_store (GalleryDB.put (GalleryDB.galleryData g)) w1).
  split; [by destruct name|].
  split; [by rewrite S5|].
  split; [done|]. split; [done|]. split; [done|]. split; [done|]. split; [done|].
  split.
  { unfold grants.
    destruct (verifies_true_or_not host h readwrite) as [Hv|Hv].
    - rewrite Hv. pose proof (loadMedia_granted host g0 w Hv) as Hg.
      cbn [Gallery.isShuffled g0 Gallery.set_order Gallery.constructor] in Hg.
      rewrite Hload in Hg. by injection Hg as -> _.
    - pose proof (loadMedia_not_granted host g0 w Hv) as Hg.
      rewrite Hload in Hg. injection Hg as -> _.
      destruct (verifies host h readwrite) as [[]|]; done. }
  split; [done|].
  split.
  { unfold GalleryManager.activeGallery. rewrite S1, S5, Hgm1.
    unfold N, GalleryManager.length_. rewrite at_of_nat.
    by rewrite lookup_app_r, Nat.sub_diag by lia. }
  split; [done|]. split; [done|]. split; [done|].
  replace (store (set_store _ w1)) with (GalleryDB.put (GalleryDB.galleryData g) (store w1))
    by by destruct w1.
  assert (Hstore : store w1 = store w).
  { destruct (verifies_true_or_not host h readwrite) as [Hv|Hv].
    - pose proof (loadMedia_granted host g0 w Hv) as Hg.
      cbn [Gallery.isShuffled g0 Gallery.set_order Gallery.constructor] in Hg.
      rewrite Hload in Hg. injection Hg as _ ->. by destruct w.
    - pose proof (loadMedia_not_granted host g0 w Hv) as Hg.
      rewrite Hload in Hg. injection Hg as _ ->. by destruct w. }
  rewrite Hstore. split.
  - rewrite lookup_put. cbn. by rewrite Z.eqb_refl.
  - intros k Hk. rewrite lookup_put. cbn.
    destruct (k =? now) eqn:E; [apply Z.eqb_eq in E; done|done].
Qed.

Lemma createGallery_appends_witness :
  let N := GalleryManager.length_ Demo.manager in
  (exists g gm' w',
    App.createGallery Demo.host 1700000000005 "Trips" (Some 11%nat) (Demo.manager, Demo.world)
      = (Normal tt, (gm', w')) /\
    GalleryManager.galleries gm' = GalleryManager.galleries Demo.manager ++ [g] /\
    Gallery.id g = 1700000000005 /\ Gallery.name g = "Trips"%string /\
    Gallery.directoryHandle g = 11%nat /\
    Gallery.isShuffled g = false /\ Gallery.order g = Some N /\
    Gallery.media g = (if grants Demo.host 11%nat then scanResult Demo.host g Demo.world else []) /\
    GalleryManager.activeGalleryIndex gm' = N /\
    GalleryManager.activeGallery gm' = Some g /\
    GalleryManager.activeMediaIndex gm' = 0 /\
    GalleryManager.isRandomMode gm' = false /\
    GalleryManager.previousMediaIndex gm' = -1 /\
    GalleryDB.lookup 1700000000005 (store w')
      = Some (StoredGallery.mk 1700000000005 "Trips" 11%nat (Some false) (Some N)) /\
    (forall k, k <> 1700000000005 ->
       GalleryDB.lookup k (store w') = GalleryDB.lookup k (store Demo.world))) /\
  App.createGallery Demo.host 1700000000005 EmptyString (Some 11%nat) (Demo.manager, Demo.world)
    = (Normal tt, (Demo.manager, Demo.world)) /\
  App.createGallery Demo.host 1700000000005 "Trips" None (Demo.manager, Demo.world)
    = (Normal tt, (Demo.manager, Demo.world)).
Proof.
  apply (createGallery_appends Demo.host 1700000000005 "Trips" 11%nat Demo.manager Demo.world);
    [discriminate | reflexivity].
Defined.

(** X13. When the store refuses the write, [createGallery] ends with the
    store's exception and the manager is left as it was: no gallery is
    added and none is selected anew. The folder has been scanned by then:
    the permission calls are logged and, with access granted, one object
    URL per readable file has been created; these URLs stay live although
    no gallery of the manager holds them. *)
Theorem createGallery_store_failure host now name h gm w :
  transactionThrows host (PutRequest now) = true ->
  let g0 := Gallery.set_order (Some (GalleryManager.length_ gm))
              (Gallery.constructor now name h) in
  exists w',
    GalleryManager.createGallery host now name h (gm, w)
      = (Throw "InvalidStateError", (gm, w')) /\
    store w' = store w /\
    permissionCalls w' = permissionCalls w ++ verifyCalls host h readwrite /\
    objectURLs w'
      = (if grants host h
         then list_to_set (seq (nextObjectURL w) (length (List.filter readable (scanned host g0))))
              ∪ objectURLs w
         else objectURLs w).
Proof.
  intros Hput g0.
  destruct (createGallery_run host now name h gm w) as (m & w1 & Hload & Hrun).
  fold g0 in Hload, Hrun. rewrite Hput in Hrun.
  exists w1. split; [exact Hrun|]. unfold grants.
  destruct (verifies_true_or_not host h readwrite) as [Hv|Hv].
  - rewrite Hv. pose proof (loadMedia_granted host g0 w Hv) as Hg.
    cbn [Gallery.isShuffled g0 Gallery.set_order Gallery.constructor] in Hg.
    rewrite Hload in Hg. injection Hg as _ ->. by destruct w.
  - pose proof (loadMedia_not_granted host g0 w Hv) as Hg.
    rewrite Hload in Hg. injection Hg as _ ->.
    destruct (verifies host h readwrite) as [[]|]; by destruct w.
Qed.

Lemma createGallery_store_failure_witness :
  let g0 := Gallery.set_order (Some (GalleryManager.length_ Demo.manager))
              (Gallery.constructor 1700000000005 "Trips" 11%nat) in
  exists w',
    GalleryManager.createGallery Faults.offlineHost 1700000000005 "Trips" 11%nat
      (Demo.manager, Demo.world)
      = (Throw "InvalidStateError", (Demo.manager, w')) /\
    store w' = store Demo.world /\
    permissionCalls w'
      = permissionCalls Demo.world ++ verifyCalls Faults.offlineHost 11%nat readwrite /\
    objectURLs w'
      = (if grants Faults.offlineHost 11%nat
         then list_to_set (seq (nextObjectURL Demo.world)
                               (length (List.filter readable (scanned Faults.offlineHost g0))))
              ∪ objectURLs Demo.world
         else objectURLs Demo.world).
Proof.
  exact (createGallery_store_failure Faults.offlineHost 1700000000005 "Trips" 11%nat
           Demo.manager Demo.world eq_refl).
Defined.

(** ** Memory and store *)

Lemma elem_of_put x r l : x ∈ GalleryDB.put r l -> x = r \/ x ∈ l.
Proof.
  induction l as [|y t IH]; simpl.
  - intros ->%list_elem_of_singleton. by left.
  - destruct (_ <? _).
    + intros [->|H]%elem_of_cons; [by left|by right].
    + destruct (_ =? _).
      * intros [->|H]%elem_of_cons; [by left|right; by right].
      * intros [->|H]%elem_of_cons; [right; by left|].
        destruct (IH H) as [->|H']; [by left|right; by right].
Qed.

Lemma lookup_Some_elem k l r :
  GalleryDB.lookup k l = Some r -> r ∈ l /\ StoredGallery.id r = k.
Proof.
  unfold GalleryDB.lookup. intros H. apply List.find_some in H as [Hin Hk].
  split; [by apply list_elem_of_In|by apply Z.eqb_eq].
Qed.

Lemma lookup_ordered l r :
  storeOrdered l -> r ∈ l -> GalleryDB.lookup (StoredGallery.id r) l = Some r.
Proof.
  unfold storeOrdered, GalleryDB.lookup.
  induction 1 as [|x t Hs IH Hall]; [by intros ?%elem_of_nil|].
  intros [->|Hr]%elem_of_cons; simpl.
  - by rewrite Z.eqb_refl.
  - destruct (StoredGallery.id x =? StoredGallery.id r) eqn:E; [|by apply IH].
    apply Z.eqb_eq in E. rewrite List.Forall_forall in Hall.
    apply list_elem_of_In in Hr. specialize (Hall r Hr). lia.
Qed.

Lemma ordered_NoDup l : storeOrdered l -> NoDup l.
Proof.
  unfold storeOrdered. induction 1 as [|x t Hs IH Hall]; constructor; [|done].
  intros Hx. rewrite List.Forall_forall in Hall.
  apply list_elem_of_In in Hx. specialize (Hall x Hx). lia.
Qed.

Lemma savedAll_ordered gs : forall st, storeOrdered st -> storeOrdered (savedAll gs st).
Proof.
  induction gs as [|g t IH]; intros st Hst; [done|].
  cbn [savedAll foldl]. fold (savedAll t (GalleryDB.put (GalleryDB.galleryData g) st)).
  by apply IH, put_ordered.
Qed.

Lemma elem_of_savedAll r gs : forall st,
  r ∈ savedAll gs st -> r ∈ st \/ exists g, g ∈ gs /\ r = GalleryDB.galleryData g.
Proof.
  induction gs as [|g t IH]; intros st; [by left|].
  cbn [savedAll foldl]. fold (savedAll t (GalleryDB.put (GalleryDB.galleryData g) st)).
  intros [H|(g' & Hg' & ->)]%IH.
  - apply elem_of_put in H as [->|H]; [|by left].
    right. exists g. split; [by left|done].
  - right. exists g'. split; [by right|done].
Qed.

Lemma galleryData_NoDup (gs : list Gallery.t) :
  NoDup (map Gallery.id gs) -> NoDup (map GalleryDB.galleryData gs).
Proof.
  intros H. apply (NoDup_fmap_1 StoredGallery.id).
  change (map GalleryDB.galleryData gs) with (GalleryDB.galleryData <$> gs).
  rewrite <- list_fmap_compose. exact H.
Qed.

Lemma galleryData_sorted (gs : list Gallery.t) :
  StronglySorted (fun a b => tabKey a < tabKey b) gs ->
  StronglySorted (fun a b => default 0 (StoredGallery.order a) < default 0 (StoredGallery.order b))
                 (map GalleryDB.galleryData gs).
Proof.
  induction 1 as [|x t Hs IH Hall]; simpl; constructor; [done|].
  apply List.Forall_map. eapply List.Forall_impl; [|exact Hall]. done.
Qed.

Lemma persisted_records gm w :
  persisted gm w ->
  JsArray.sort GalleryManager.bySavedOrder (store w)
  = map GalleryDB.galleryData (GalleryManager.galleries gm).
Proof.
  intros (Hord & Hnd & Hsorted & Hrec).
  apply (sort_restores _ _ bySavedOrder_key); [by apply galleryData_sorted|].
  apply NoDup_Permutation; [by apply ordered_NoDup|by apply galleryData_NoDup|].
  intros r. rewrite Hrec.
  change (map GalleryDB.galleryData ?l) with (GalleryDB.galleryData <$> l).
  rewrite list_elem_of_fmap. split; intros (g & H1 & H2); eauto.
Qed.

Lemma loadFromStorage_run host gm w :
  transactionThrows host GetAllRequest = false ->
  Forall (fun r => exists b, verifies host (StoredGallery.directoryHandle r) readwrite = Normal b)
         (store w) ->
  exists loaded w',
    GalleryManager.loadFromStorage host (gm, w)
    = (Normal tt,
       (let gm1 := GalleryManager.set_galleries (fun gs => gs ++ loaded) gm in
        if 0 <? GalleryManager.length_ gm1 then GalleryManager.selectGallery 0 gm1 else gm1,
        w')) /\
    Forall2 (restoredFrom host)
            (List.filter (fun r => grants host (StoredGallery.directoryHandle r))
                         (JsArray.sort GalleryManager.bySavedOrder (store w)))
            loaded.
Proof.
  intros Hget Hall.
  set (records := JsArray.sort GalleryManager.bySavedOrder (store w)).
  assert (Hall' : Forall (fun r => exists b,
            verifies host (StoredGallery.directoryHandle r) readwrite = Normal b) records).
  { unfold records. by rewrite sort_Permutation. }
  unfold GalleryManager.loadFromStorage, try_catch.
  unfold bind at 1. unfold liftWorld at 1. cbn [fst snd].
  unfold GalleryDB.loadGalleries, GalleryDB.transaction. rewrite Hget.
  unfold bind at 1. unfold bind at 1. unfold ret at 1. unfold get at 1. unfold ret at 1.
  fold records.
  destruct (loadStored_loop host records Hall' gm w) as (loaded & w' & Hloop & Hrest).
  unfold bind at 1. rewrite Hloop.
  unfold bind at 1. unfold getThis at 1. cbn [fst snd].
  exists loaded, w'. split; [|exact Hrest]. cbv zeta.
  destruct (0 <? _); reflexivity.
Qed.

Lemma filter_all {A} (p : A -> bool) (l : list A) :
  Forall (fun x => p x = true) l -> List.filter p l = l.
Proof.
  induction 1 as [|x t Hx Ht IH]; simpl; [done|]. by rewrite Hx, IH.
Qed.

Lemma loadMedia_keeps_store host g w :
  store (snd (snd (Gallery.loadMedia host (g, w)))) = store w.
Proof.
  destruct (verifies_true_or_not host (Gallery.directoryHandle g) readwrite) as [Hv|Hv].
  - rewrite (loadMedia_granted host g w Hv). destruct (Gallery.isShuffled g); by destruct w.
  - rewrite (loadMedia_not_granted host g w Hv). by destruct w.
Qed.

Lemma loadStored_keeps_store host r gm w :
  store (snd (snd (GalleryManager.loadStored host r (gm, w)))) = store w.
Proof.
  unfold GalleryManager.loadStored.
  unfold bind at 1. unfold liftWorld at 1. cbn [fst snd].
  rewrite (GalleryManager_verifyPermission_run host _ true). cbv zeta.
  set (w1 := afterCalls _ w).
  assert (Hw1 : store w1 = store w) by by destruct w.
  destruct (verifies host _ readwrite) as [[]|e]; [|by rewrite <- Hw1|by rewrite <- Hw1].
  unfold bind, onGallery, setThis. cbn [fst snd].
  pose proof (loadMedia_keeps_store host (fromRecord r) w1) as Hk.
  fold (fromRecord r).
  destruct (Gallery.loadMedia host (fromRecord r, w1)) as [[[]|e] [g' w']];
    cbn [fst snd] in *; congruence.
Qed.

Lemma loadStored_loop_keeps_store host rs : forall gm w,
  store (snd (snd (for_of rs (GalleryManager.loadStored host) (gm, w)))) = store w.
Proof.
  induction rs as [|r t IH]; intros gm w; [done|].
  cbn [for_of]. unfold bind.
  pose proof (loadStored_keeps_store host r gm w) as Hk.
  destruct (GalleryManager.loadStored host r (gm, w)) as [[[]|e] [gm' w']];
    cbn [fst snd] in *; [|done].
  by rewrite IH.
Qed.

(** X14. What the store holds brings the tabs back after a restart. When
    memory and store agree (the store holds exactly the records of the
    galleries, and the galleries stand in ascending [order]) and read-write
    access to every folder is granted, [loadFromStorage] on a fresh manager
    completes with as many galleries as there were, in the same sequence,
    each with the id, name, folder, shuffle flag and place of the gallery
    it stands for, and with the first one selected. *)
Theorem reload_restores_tabs host gm w :
  persisted gm w ->
  transactionThrows host GetAllRequest = false ->
  (forall g, g ∈ GalleryManager.galleries gm ->
             verifies host (Gallery.directoryHandle g) readwrite = Normal true) ->
  exists gm' w',
    GalleryManager.loadFromStorage host (GalleryManager.constructor, w)
      = (Normal tt, (gm', w')) /\
    Forall2 sameTab (GalleryManager.galleries gm) (GalleryManager.galleries gm') /\
    store w' = store w /\
    (GalleryManager.galleries gm <> [] ->
     GalleryManager.activeGalleryIndex gm' = 0 /\
     GalleryManager.activeMediaIndex gm' = 0 /\
     GalleryManager.isRandomMode gm' = false).
Proof.
  intros Hp Hget Hgrant.
  pose proof (persisted_records gm w Hp) as Hrecords.
  destruct Hp as (Hord & Hnd & Hsorted & Hrec).
  assert (Hall : Forall (fun r => verifies host (StoredGallery.directoryHandle r) readwrite
                                  = Normal true) (store w)).
  { apply Forall_forall. intros r (g & Hg & ->)%Hrec. by apply Hgrant. }
  destruct (loadFromStorage_run host GalleryManager.constructor w Hget) as (loaded & w' & Hrun & Hrest).
  { eapply Forall_impl; [exact Hall|]. intros r Hr. by exists true. }
  rewrite Hrecords in Hrest. rewrite filter_all in Hrest.
  2:{ apply List.Forall_map. apply List.Forall_forall. intros g Hg%list_elem_of_In.
      unfold grants. cbn. by rewrite (Hgrant g Hg). }
  assert (Hsame : Forall2 sameTab (GalleryManager.galleries gm) loaded).
  { change (map GalleryDB.galleryData ?l) with (GalleryDB.galleryData <$> l) in Hrest.
    rewrite Forall2_fmap_l in Hrest. eapply Forall2_impl; [exact Hrest|].
    intros g g' (H1 & H2 & H3 & H4 & H5 & _). unfold sameTab, tabKey.
    cbn in *. rewrite H5. by repeat split. }
  set (gm1 := GalleryManager.set_galleries (fun gs => gs ++ loaded) GalleryManager.constructor) in *.
  assert (Hgm1 : GalleryManager.galleries gm1 = loaded) by done.
  pose proof (Forall2_length _ _ _ Hsame) as Hlen.
  eexists _, w'. split; [exact Hrun|]. cbv zeta.
  split.
  { destruct (0 <? _); [rewrite selectGallery_galleries|]; by rewrite Hgm1. }
  split.
  { pose proof (loadStored_loop_keeps_store host
                  (JsArray.sort GalleryManager.bySavedOrder (store w))
                  GalleryManager.constructor w) as Hk.
    revert Hrun Hk. unfold GalleryManager.loadFromStorage, try_catch.
    unfold bind at 1. unfold liftWorld at 1. cbn [fst snd].
    unfold GalleryDB.loadGalleries, GalleryDB.transaction. rewrite Hget.
    unfold bind at 1. unfold bind at 1. unfold ret at 1. unfold get at 1. unfold ret at 1.
    unfold bind at 1.
    destruct (for_of _ _ _) as [[[]|e] [gm0 w0]]; cbn [fst snd].
    - unfold bind, getThis. cbn [fst snd].
      destruct (0 <? _); unfold setThis, ret; cbn [fst snd]; by intros [= _ ->].
    - unfold ret. by intros [= _ ->]. }
  intros Hne.
  assert (HN : 0 < GalleryManager.length_ gm1).
  { unfold GalleryManager.length_. rewrite Hgm1, <- Hlen.
    destruct (GalleryManager.galleries gm); [done|simpl; lia]. }
  destruct (0 <? GalleryManager.length_ gm1) eqn:E; [|apply Z.ltb_ge in E; lia].
  destruct (selectGallery_in_range 0 gm1) as (S1 & S2 & S3 & S4 & S5); [lia|].
  done.
Qed.

Lemma ordered_ids_NoDup l : storeOrdered l -> NoDup (map StoredGallery.id l).
Proof.
  unfold storeOrdered. induction 1 as [|x t Hs IH Hall]; simpl; constructor; [|done].
  intros (y & Hy & Hin)%(list_elem_of_fmap_1 StoredGallery.id).
  rewrite List.Forall_forall in Hall. apply list_elem_of_In in Hin.
  specialize (Hall y Hin). lia.
Qed.

Lemma persisted_of_records gm w :
  store w = map GalleryDB.galleryData (GalleryManager.galleries gm) ->
  storeOrdered (store w) ->
  StronglySorted (fun a b => tabKey a < tabKey b) (GalleryManager.galleries gm) ->
  persisted gm w.
Proof.
  intros Hst Hord Hsorted. split; [done|]. split; [|split; [done|]].
  - apply ordered_ids_NoDup in Hord. rewrite Hst in Hord.
    change (map ?f ?l) with (f <$> l) in Hord. by rewrite <- list_fmap_compose in Hord.
  - intros r. rewrite Hst.
    change (map GalleryDB.galleryData ?l) with (GalleryDB.galleryData <$> l).
    rewrite list_elem_of_fmap. split; intros (g & H1 & H2); eauto.
Qed.

Lemma reload_restores_tabs_witness :
  persisted Demo.manager Demo.world /\
  exists gm' w',
    GalleryManager.loadFromStorage Demo.host (GalleryManager.constructor, Demo.world)
      = (Normal tt, (gm', w')) /\
    Forall2 sameTab (GalleryManager.galleries Demo.manager) (GalleryManager.galleries gm') /\
    store w' = store Demo.world /\
    (GalleryManager.galleries Demo.manager <> [] ->
     GalleryManager.activeGalleryIndex gm' = 0 /\
     GalleryManager.activeMediaIndex gm' = 0 /\
     GalleryManager.isRandomMode gm' = false).
Proof.
  assert (Hp : persisted Demo.manager Demo.world).
  { apply persisted_of_records; [reflexivity| |].
    - unfold storeOrdered. simpl. repeat constructor; simpl; lia.
    - simpl. repeat constructor; unfold tabKey; simpl; lia. }
  split; [exact Hp|].
  apply (reload_restores_tabs Demo.host Demo.manager Demo.world Hp eq_refl).
  intros g Hg. reflexivity.
Defined.

Lemma elem_of_put_ordered x r l :
  storeOrdered l ->
  x ∈ GalleryDB.put r l <-> x = r \/ (x ∈ l /\ StoredGallery.id x <> StoredGallery.id r).
Proof.
  intros Hl. pose proof (put_ordered r l Hl) as Hput. split.
  - intros Hx. pose proof (lookup_ordered _ _ Hput Hx) as Hlook.
    rewrite lookup_put in Hlook.
    destruct (StoredGallery.id x =? StoredGallery.id r) eqn:E.
    + left. congruence.
    + apply Z.eqb_neq in E. right. split; [|done].
      by apply lookup_Some_elem in Hlook as [? _].
  - intros [->|[Hx Hne]].
    + eapply (lookup_Some_elem (StoredGallery.id r)).
      by rewrite lookup_put, Z.eqb_refl.
    + eapply (lookup_Some_elem (StoredGallery.id x)).
      rewrite lookup_put. apply Z.eqb_neq in Hne. rewrite Hne.
      by apply lookup_ordered.
Qed.

Lemma elem_of_delete x k l :
  x ∈ GalleryDB.delete k l <-> x ∈ l /\ StoredGallery.id x <> k.
Proof.
  unfold GalleryDB.delete. rewrite !list_elem_of_In, List.filter_In.
  rewrite negb_true_iff, Z.eqb_neq. tauto.
Qed.

Lemma sorted_without {A} (R : A -> A -> Prop) (l1 : list A) x (l2 : list A) :
  StronglySorted R (l1 ++ x :: l2) -> StronglySorted R (l1 ++ l2).
Proof.
  induction l1 as [|y t IH]; simpl; intros H; inversion H as [|? ? Hs Hall]; subst.
  - done.
  - constructor; [by apply IH|].
    rewrite List.Forall_app in Hall |- *. destruct Hall as [H1 H2].
    inversion H2; subst. by split.
Qed.

Lemma sorted_snoc {A} (R : A -> A -> Prop) (l : list A) x :
  StronglySorted R l -> Forall (fun y => R y x) l -> StronglySorted R (l ++ [x]).
Proof.
  induction 1 as [|y t Hs IH Hall]; simpl; intros Hx.
  - repeat constructor.
  - inversion Hx; subst. constructor; [by apply IH|].
    rewrite List.Forall_app. split; [done|]. by repeat constructor.
Qed.

Lemma dense_sorted (l : list Gallery.t) :
  (forall (k : nat) g, l !! k = Some g -> Gallery.order g = Some (Z.of_nat k)) ->
  StronglySorted (fun a b => tabKey a < tabKey b) l.
Proof.
  induction l as [|x t IH] using rev_ind; intros H; [constructor|].
  apply sorted_snoc.
  - apply IH. intros k g Hk. apply H. by apply lookup_app_l_Some.
  - apply Forall_forall. intros y Hy. apply list_elem_of_lookup in Hy as [k Hk].
    pose proof (lookup_lt_Some _ _ _ Hk) as Hlt.
    unfold tabKey.
    rewrite (H k y) by by apply lookup_app_l_Some.
    rewrite (H (length t) x) by (rewrite lookup_app_r by lia; by rewrite Nat.sub_diag).
    simpl. lia.
Qed.

(** X15. A tab move brings memory and store into agreement. From any state
    in which the store is in key order, the galleries have pairwise
    distinct ids and every record of the store belongs to one of them,
    [handleTabDrop] with valid distinct indices and the store accepting the
    writes ends in a state where the store holds exactly the records of the
    galleries, whose orders are ascending: the state from which a restart
    brings the tabs back in their sequence. *)
Theorem handleTabDrop_persists host gm w from to :
  let N := GalleryManager.length_ gm in
  0 <= from < N -> 0 <= to < N -> from <> to ->
  storeOrdered (store w) ->
  NoDup (map Gallery.id (GalleryManager.galleries gm)) ->
  (forall r, r ∈ store w ->
             StoredGallery.id r ∈ map Gallery.id (GalleryManager.galleries gm)) ->
  (forall id, transactionThrows host (PutRequest id) = false) ->
  exists gm' w',
    GalleryManager.handleTabDrop host from to (gm, w) = (Normal tt, (gm', w')) /\
    persisted gm' w'.
Proof.
  intros N Hfrom Hto Hne Hord Hnd Hrec Hput. unfold N, GalleryManager.length_ in *.
  destruct (JsArray.at_ (GalleryManager.galleries gm) from) as [g|] eqn:Hg.
  2:{ rewrite at_Some_lookup in Hg by lia. apply lookup_ge_None in Hg. lia. }
  rewrite (handleTabDrop_run host gm w from to g Hne Hg Hput).
  eexists _, _. split; [reflexivity|].
  set (gs := reordered (GalleryManager.galleries gm) from to g).
  pose proof (reordered_ids (GalleryManager.galleries gm) from to g Hg) as Hids. fold gs in Hids.
  assert (Hnd' : NoDup (map Gallery.id gs)) by by rewrite Hids.
  unfold persisted. cbn [GalleryManager.galleries].
  replace (store (set_store (savedAll gs) w)) with (savedAll gs (store w)) by by destruct w.
  pose proof (savedAll_ordered gs _ Hord) as Hord'.
  split; [done|]. split; [done|]. split.
  { apply dense_sorted. intros k g'. apply reordered_dense. }
  intros r. split.
  - intros Hr. destruct (elem_of_savedAll _ _ _ Hr) as [Hold|Hnew]; [|done].
    specialize (Hrec r Hold). rewrite <- Hids in Hrec.
    apply (list_elem_of_fmap_1 Gallery.id) in Hrec as (g' & Hid & Hg').
    exists g'. split; [done|].
    pose proof (lookup_savedAll gs (store w) g' Hnd' Hg') as Hlook.
    pose proof (lookup_ordered _ _ Hord' Hr) as Hlook'.
    rewrite Hid in Hlook'. congruence.
  - intros (g' & Hg' & ->).
    by apply (lookup_Some_elem (Gallery.id g')), lookup_savedAll.
Qed.

Lemma handleTabDrop_persists_witness :
  exists gm' w',
    GalleryManager.handleTabDrop Demo.host 0 2 (Demo.manager, Demo.world)
      = (Normal tt, (gm', w')) /\
    persisted gm' w'.
Proof.
  apply (handleTabDrop_persists Demo.host Demo.manager Demo.world 0 2);
    [unfold GalleryManager.length_; simpl; lia
    | unfold GalleryManager.length_; simpl; lia
    | lia
    | unfold storeOrdered; simpl; repeat constructor; simpl; lia
    | apply (bool_decide_unpack _); vm_compute; exact I
    | intros r Hr; simpl in Hr;
      repeat (apply elem_of_cons in Hr as [->|Hr]; [simpl; set_solver|]);
      by apply elem_of_nil in Hr
    | reflexivity].
Defined.

Lemma closeGallery_galleries host gm w i g :
  JsArray.at_ (GalleryManager.galleries gm) i = Some g ->
  transactionThrows host (DeleteRequest (Gallery.id g)) = false ->
  exists gm' w',
    GalleryManager.closeGallery host i (gm, w) = (Normal tt, (gm', w')) /\
    GalleryManager.galleries gm'
      = take (Z.to_nat i) (GalleryManager.galleries gm)
        ++ drop (S (Z.to_nat i)) (GalleryManager.galleries gm) /\
    store w' = GalleryDB.delete (Gallery.id g) (store w).
Proof.
  intros Hg Hdel.
  rewrite (closeGallery_run host gm w i g Hg Hdel). cbv zeta.
  eexists _, _. split; [reflexivity|]. split; [|by destruct w].
  rewrite <- (spliceDelete1_in_range _ _ _ Hg).
  destruct (0 <? _); [rewrite selectGallery_galleries|]; by destruct gm.
Qed.

(** X16. Closing a gallery keeps memory and store in agreement: from a
    state in which the store holds exactly the records of the galleries,
    [closeGallery] at a valid index with the store accepting the deletion
    ends in such a state again; the orders of the remaining galleries are
    not renumbered, they stay ascending with a gap. *)
Theorem closeGallery_persists host gm w i g :
  persisted gm w ->
  JsArray.at_ (GalleryManager.galleries gm) i = Some g ->
  transactionThrows host (DeleteRequest (Gallery.id g)) = false ->
  exists gm' w',
    GalleryManager.closeGallery host i (gm, w) = (Normal tt, (gm', w')) /\
    persisted gm' w' /\
    (forall g', g' ∈ GalleryManager.galleries gm' ->
                g' ∈ GalleryManager.galleries gm /\ Gallery.id g' <> Gallery.id g).
Proof.
  intros (Hord & Hnd & Hsorted & Hrec) Hg Hdel.
  destruct (closeGallery_galleries host gm w i g Hg Hdel) as (gm' & w' & Hrun & Hgs & Hst).
  exists gm', w'. split; [exact Hrun|].
  pose proof (at_lt _ _ _ Hg) as Hi.
  apply at_Some in Hg as [_ Hg].
  pose proof (take_drop_middle _ _ _ Hg) as Hmid.
  set (l1 := take (Z.to_nat i) (GalleryManager.galleries gm)) in *.
  set (l2 := drop (S (Z.to_nat i)) (GalleryManager.galleries gm)) in *.
  rewrite <- Hmid in Hnd, Hsorted.
  assert (Hin : forall g', g' ∈ l1 ++ l2 ->
            g' ∈ GalleryManager.galleries gm /\ Gallery.id g' <> Gallery.id g).
  { intros g' Hg'. split.
    - rewrite <- Hmid. rewrite elem_of_app in Hg' |- *.
      destruct Hg' as [?|?]; [by left|right; by right].
    - change (map ?f ?l) with (f <$> l) in Hnd.
      rewrite fmap_app, fmap_cons in Hnd.
      apply NoDup_app in Hnd as (_ & Hdisj & Hnd2). apply NoDup_cons in Hnd2 as [Hnot _].
      apply elem_of_app in Hg' as [H1|H2]; intros Heq.
      + apply (Hdisj (Gallery.id g)); [rewrite <- Heq; by apply list_elem_of_fmap_2|by left].
      + apply Hnot. rewrite <- Heq. by apply list_elem_of_fmap_2. }
  split; [|by rewrite Hgs].
  unfold persisted. rewrite Hgs, Hst.
  split; [by apply delete_ordered|]. split; [|split].
  - change (map ?f ?l) with (f <$> l) in Hnd |- *.
    rewrite fmap_app, fmap_cons in Hnd. rewrite fmap_app.
    apply NoDup_app in Hnd as (H1 & Hdisj & Hnd2). apply NoDup_cons in Hnd2 as [_ H2].
    apply NoDup_app. split; [done|]. split; [|done].
    intros x Hx1 Hx2. apply (Hdisj x Hx1). by right.
  - by eapply sorted_without.
  - intros r. rewrite elem_of_delete, Hrec. split.
    + intros [(g' & Hg' & ->) Hne]. exists g'. split; [|done].
      rewrite <- Hmid in Hg'. rewrite elem_of_app in Hg' |- *.
      destruct Hg' as [?|[->|?]%elem_of_cons]; [by left|done|by right].
    + intros (g' & Hg' & ->). destruct (Hin g' Hg') as [H1 H2]. split; [|done].
      by exists g'.
Qed.

Lemma closeGallery_persists_witness :
  persisted Demo.manager Demo.world /\
  exists gm' w',
    GalleryManager.closeGallery Demo.host 0 (Demo.manager, Demo.world)
      = (Normal tt, (gm', w')) /\
    persisted gm' w' /\
    (forall g', g' ∈ GalleryManager.galleries gm' ->
                g' ∈ GalleryManager.galleries Demo.manager /\
                Gallery.id g' <> Gallery.id Demo.holiday).
Proof.
  assert (Hp : persisted Demo.manager Demo.world).
  { apply persisted_of_records; [reflexivity| |].
    - unfold storeOrdered. simpl. repeat constructor; simpl; lia.
    - simpl. repeat constructor; unfold tabKey; simpl; lia. }
  split; [exact Hp|].
  exact (closeGallery_persists Demo.host Demo.manager Demo.world 0 Demo.holiday Hp
           eq_refl eq_refl).
Defined.

Lemma createGallery_galleries host now name h gm w :
  transactionThrows host (PutRequest now) = false ->
  exists g gm' w',
    GalleryManager.createGallery host now name h (gm, w) = (Normal tt, (gm', w')) /\
    GalleryManager.galleries gm' = GalleryManager.galleries gm ++ [g] /\
    Gallery.id g = now /\ Gallery.name g = name /\ Gallery.directoryHandle g = h /\
    Gallery.isShuffled g = false /\
    Gallery.order g = Some (GalleryManager.length_ gm) /\
    store w' = GalleryDB.put (GalleryDB.galleryData g) (store w).
Proof.
  intros Hput.
  destruct (createGallery_run host now name h gm w) as (m & w1 & Hload & Hrun).
  rewrite Hput in Hrun. cbv zeta in *.
  eexists _, _, _. split; [exact Hrun|].
  split; [rewrite selectGallery_galleries; by destruct gm|].
  split; [done|]. split; [done|]. split; [done|]. split; [done|]. split; [done|].
  pose proof (loadMedia_keeps_store host
    (Gallery.set_order (Some (GalleryManager.length_ gm)) (Gallery.constructor now name h)) w)
    as Hk.
  rewrite Hload in Hk. cbn [fst snd] in Hk. rewrite <- Hk. by destruct w1.
Qed.

(** X17. Creating a gallery keeps memory and store in agreement as long as
    the existing orders are below the number of galleries (as they are
    when the orders are the positions): from such a state, with an id that
    is new and the store accepting the write, [createGallery] ends in a
    state where the store holds exactly the records of the galleries and
    the orders are ascending. *)
Theorem createGallery_persists host now name h gm w :
  persisted gm w ->
  now ∉ map Gallery.id (GalleryManager.galleries gm) ->
  (forall g, g ∈ GalleryManager.galleries gm -> tabKey g < GalleryManager.length_ gm) ->
  transactionThrows host (PutRequest now) = false ->
  exists gm' w',
    GalleryManager.createGallery host now name h (gm, w) = (Normal tt, (gm', w')) /\
    persisted gm' w'.
Proof.
  intros (Hord & Hnd & Hsorted & Hrec) Hnew Hbelow Hput.
  destruct (createGallery_galleries host now name h gm w Hput)
    as (g & gm' & w' & Hrun & Hgs & Hid & _ & _ & _ & Horder & Hst).
  exists gm', w'. split; [exact Hrun|].
  unfold persisted. rewrite Hgs, Hst.
  split; [by apply put_ordered|]. split; [|split].
  - change (map ?f ?l) with (f <$> l). rewrite fmap_app. simpl.
    apply NoDup_app. split; [done|]. split; [|apply NoDup_singleton].
    intros x Hx ->%list_elem_of_singleton. apply Hnew. by rewrite <- Hid.
  - apply sorted_snoc; [done|]. apply Forall_forall. intros y Hy.
    unfold tabKey at 2. rewrite Horder. simpl. by apply Hbelow.
  - intros r. rewrite (elem_of_put_ordered _ _ _ Hord), Hrec. split.
    + intros [->|[(g' & Hg' & ->) Hne]].
      * exists g. split; [|done]. apply elem_of_app. right. by left.
      * exists g'. split; [|done]. apply elem_of_app. by left.
    + intros (g' & [Hg'| ->%list_elem_of_singleton]%elem_of_app & ->); [|by left].
      right. split; [by exists g'|]. cbn. rewrite Hid. intros Heq. apply Hnew.
      rewrite <- Heq. by apply (list_elem_of_fmap_2 Gallery.id).
Qed.

Lemma createGallery_persists_witness :
  persisted Demo.manager Demo.world /\
  exists gm' w',
    GalleryManager.createGallery Demo.host 1700000000005 "Trips" 11%nat
      (Demo.manager, Demo.world) = (Normal tt, (gm', w')) /\
    persisted gm' w'.
Proof.
  assert (Hp : persisted Demo.manager Demo.world).
  { apply persisted_of_records; [reflexivity| |].
    - unfold storeOrdered. simpl. repeat constructor; simpl; lia.
    - simpl. repeat constructor; unfold tabKey; simpl; lia. }
  split; [exact Hp|].
  apply (createGallery_persists Demo.host 1700000000005 "Trips" 11%nat
           Demo.manager Demo.world Hp);
    [ apply (bool_decide_unpack _); vm_compute; exact I
    | intros g Hg; simpl in Hg;
      repeat (apply elem_of_cons in Hg as [->|Hg];
              [unfold tabKey, GalleryManager.length_; simpl; lia|]);
      by apply elem_of_nil in Hg
    | reflexivity ].
Defined.

Lemma sorted_last {A} (key : A -> Z) (l : list A) x z :
  StronglySorted (ascendingBy key) l -> last l = Some z -> x ∈ l -> key x <= key z.
Proof.
  induction 1 as [|y t Hs IH Hall]; [by intros _ ?%elem_of_nil|].
  intros Hlast Hx. destruct t as [|y' t'].
  - injection Hlast as <-. apply list_elem_of_singleton in Hx as ->. lia.
  - change (last (y :: y' :: t')) with (last (y' :: t')) in Hlast.
    apply elem_of_cons in Hx as [->|Hx]; [|by apply IH].
    rewrite List.Forall_forall in Hall.
    assert (Hz : z ∈ y' :: t') by (by apply last_Some_elem_of).
    apply list_elem_of_In in Hz. exact (Hall z Hz).
Qed.

Lemma restoredFrom_ids host rs loaded :
  Forall2 (restoredFrom host) rs loaded ->
  map Gallery.id loaded = map StoredGallery.id rs.
Proof.
  induction 1 as [|r g rs' loaded' (Hid & _) _ IH]; simpl; [done|]. by rewrite Hid, IH.
Qed.

(** X18. After galleries have been closed, a new gallery can get an order
    that is not the largest, and a restart then moves it. When some
    gallery has an order above the number of galleries (the orders are not
    renumbered when a tab is closed), [createGallery] appends the new
    gallery as the last tab with the number of galleries as its order; the
    store records that order, and [loadFromStorage] on a fresh manager,
    with access to every folder granted, brings back as many galleries but
    not with the new one as the last tab. *)
Theorem createGallery_order_not_last host now name h gm w g :
  persisted gm w ->
  g ∈ GalleryManager.galleries gm ->
  GalleryManager.length_ gm < tabKey g ->
  now ∉ map Gallery.id (GalleryManager.galleries gm) ->
  transactionThrows host (PutRequest now) = false ->
  transactionThrows host GetAllRequest = false ->
  verifies host h readwrite = Normal true ->
  (forall g', g' ∈ GalleryManager.galleries gm ->
              verifies host (Gallery.directoryHandle g') readwrite = Normal true) ->
  exists gm1 w1 gm2 w2,
    GalleryManager.createGallery host now name h (gm, w) = (Normal tt, (gm1, w1)) /\
    GalleryManager.loadFromStorage host (GalleryManager.constructor, w1)
      = (Normal tt, (gm2, w2)) /\
    last (map Gallery.id (GalleryManager.galleries gm1)) = Some now /\
    length (GalleryManager.galleries gm2) = length (GalleryManager.galleries gm1) /\
    now ∈ map Gallery.id (GalleryManager.galleries gm2) /\
    last (map Gallery.id (GalleryManager.galleries gm2)) <> Some now.
Proof.
  intros (Hord & Hnd & Hsorted & Hrec) Hg Habove Hnew Hput Hget Hh Hgrant.
  destruct (createGallery_galleries host now name h gm w Hput)
    as (g1 & gm1 & w1 & Hrun & Hgs & Hid & _ & Hhandle & _ & Horder & Hst).
  set (rec := GalleryDB.galleryData g1) in *.
  assert (Hall : Forall (fun r => verifies host (StoredGallery.directoryHandle r) readwrite
                                  = Normal true) (store w1)).
  { apply Forall_forall. intros r. rewrite Hst, (elem_of_put_ordered _ _ _ Hord).
    intros [->|[(g' & Hg' & ->)%Hrec _]]; cbn; [by rewrite Hhandle|by apply Hgrant]. }
  destruct (loadFromStorage_run host GalleryManager.constructor w1 Hget)
    as (loaded & w2 & Hload & Hrest).
  { eapply Forall_impl; [exact Hall|]. intros r Hr. by exists true. }
  set (records := JsArray.sort GalleryManager.bySavedOrder (store w1)) in *.
  assert (Hperm : records ≡ₚ store w1) by apply sort_Permutation.
  rewrite filter_all in Hrest.
  2:{ rewrite Hperm. eapply Forall_impl; [exact Hall|].
      intros r Hr. unfold grants. by rewrite Hr. }
  pose proof (restoredFrom_ids _ _ _ Hrest) as Hids.
  assert (Hgm2 : forall gm0, GalleryManager.galleries
            (let gm1 := GalleryManager.set_galleries (fun gs => gs ++ loaded) gm0 in
             if 0 <? GalleryManager.length_ gm1 then GalleryManager.selectGallery 0 gm1 else gm1)
            = GalleryManager.galleries gm0 ++ loaded).
  { intros gm0. cbv zeta. destruct (0 <? _); [rewrite selectGallery_galleries|]; by destruct gm0. }
  eexists gm1, w1, _, w2. split; [exact Hrun|]. split; [exact Hload|].
  rewrite Hgm2. cbn [GalleryManager.galleries GalleryManager.constructor app].
  assert (Hrecin : rec ∈ records).
  { rewrite Hperm, Hst. apply elem_of_put_ordered; [done|by left]. }
  split.
  { rewrite Hgs. change (map ?f ?l) with (f <$> l). rewrite fmap_app.
    change (Gallery.id <$> [g1]) with [Gallery.id g1]. by rewrite last_snoc, Hid. }
  split.
  { rewrite <- (length_map Gallery.id loaded), Hids, length_map, Hperm, Hgs, Hst.
    assert (Hlen : forall r l, GalleryDB.lookup (StoredGallery.id r) l = None ->
                               length (GalleryDB.put r l) = S (length l)).
    { intros r l. unfold GalleryDB.lookup. induction l as [|x t IH]; simpl; [done|].
      rewrite (Z.eqb_sym (StoredGallery.id x)).
      destruct (_ <? _); [done|]. destruct (_ =? _); [done|]. simpl. intros H. by rewrite IH. }
    rewrite Hlen, length_app; [simpl|].
    - assert (Hp : store w ≡ₚ map GalleryDB.galleryData (GalleryManager.galleries gm)).
      { apply NoDup_Permutation; [by apply ordered_NoDup|by apply galleryData_NoDup|].
        intros r. rewrite Hrec.
        change (map GalleryDB.galleryData ?l) with (GalleryDB.galleryData <$> l).
        rewrite list_elem_of_fmap. split; intros (g' & H1 & H2); eauto. }
      rewrite Hp, length_map. lia.
    - destruct (GalleryDB.lookup (StoredGallery.id rec) (store w)) as [r|] eqn:E; [|done].
      apply lookup_Some_elem in E as [(g' & Hg' & ->)%Hrec Heq].
      exfalso. apply Hnew. cbn in Heq. rewrite <- Hid, <- Heq.
      by apply (list_elem_of_fmap_2 Gallery.id). }
  split.
  { rewrite Hids. rewrite <- Hid.
    change (Gallery.id g1) with (StoredGallery.id rec).
    by apply (list_elem_of_fmap_2 StoredGallery.id). }
  rewrite Hids. change (map ?f ?l) with (f <$> l). rewrite fmap_last.
  destruct (last records) as [z|] eqn:Hlast; [|done]. simpl. intros [= Hz].
  assert (Hzin : z ∈ store w1) by (rewrite <- Hperm; by apply last_Some_elem_of).
  rewrite Hst in Hzin. apply (elem_of_put_ordered _ _ _ Hord) in Hzin.
  assert (z = rec) as ->.
  { destruct Hzin as [->|[_ Hne]]; [done|]. exfalso. apply Hne. cbn. by rewrite Hz, Hid. }
  assert (Hgin : GalleryDB.galleryData g ∈ records).
  { rewrite Hperm, Hst. apply elem_of_put_ordered; [done|]. right. split.
    - apply Hrec. by exists g.
    - cbn. rewrite Hid. intros Heq. apply Hnew. rewrite <- Heq.
      by apply (list_elem_of_fmap_2 Gallery.id). }
  pose proof (sorted_last _ _ _ _ (sort_sorted _ _ bySavedOrder_key (store w1)) Hlast Hgin) as Hle.
  cbn in Hle. rewrite Horder in Hle. unfold tabKey in Habove. simpl in Hle. lia.
Qed.

Lemma createGallery_order_not_last_witness :
  persisted Leftover.manager Leftover.world /\
  GalleryManager.length_ Leftover.manager < tabKey Demo.pets /\
  exists gm1 w1 gm2 w2,
    GalleryManager.createGallery Demo.host 1700000000005 "Trips" 11%nat
      (Leftover.manager, Leftover.world) = (Normal tt, (gm1, w1)) /\
    GalleryManager.loadFromStorage Demo.host (GalleryManager.constructor, w1)
      = (Normal tt, (gm2, w2)) /\
    last (map Gallery.id (GalleryManager.galleries gm1)) = Some 1700000000005 /\
    length (GalleryManager.galleries gm2) = length (GalleryManager.galleries gm1) /\
    1700000000005 ∈ map Gallery.id (GalleryManager.galleries gm2) /\
    last (map Gallery.id (GalleryManager.galleries gm2)) <> Some 1700000000005.
Proof.
  assert (Hp : persisted Leftover.manager Leftover.world).
  { apply persisted_of_records; [reflexivity| |].
    - unfold storeOrdered. simpl. repeat constructor.
    - simpl. repeat constructor. }
  split; [exact Hp|].
  split; [unfold GalleryManager.length_, tabKey; simpl; lia|].
  apply (createGallery_order_not_last Demo.host 1700000000005 "Trips" 11%nat
           Leftover.manager Leftover.world Demo.pets Hp);
    [ by left
    | unfold GalleryManager.length_, tabKey; simpl; lia
    | apply (bool_decide_unpack _); vm_compute; exact I
    | reflexivity | reflexivity | reflexivity
    | intros g' Hg'; reflexivity ].
Defined.

Lemma sorted_by_key {A} (key : A -> Z) (l l' : list A) :
  map key l = map key l' ->
  StronglySorted (fun a b => key a < key b) l ->
  StronglySorted (fun a b => key a < key b) l'.
Proof.
  intros Hmap Hs. revert l' Hmap.
  induction Hs as [|x t Hs IH Hall]; intros [|x' t'] Hmap; try discriminate; [constructor|].
  simpl in Hmap. injection Hmap as Hx Ht. constructor; [by apply IH|].
  apply List.Forall_forall. intros y Hy.
  apply (List.in_map key) in Hy. rewrite <- Ht in Hy.
  apply List.in_map_iff in Hy as (y0 & <- & Hy0).
  rewrite List.Forall_forall in Hall. rewrite <- Hx. by apply Hall.
Qed.

Lemma shuffleGallery_run host gm w g :
  GalleryManager.activeGallery gm = Some g ->
  Gallery.media g <> [] ->
  transactionThrows host (PutRequest (Gallery.id g)) = false ->
  exists m gm' w',
    let g' := Gallery.set_media (fun _ => m)
                (Gallery.set_isShuffled (negb (Gallery.isShuffled g)) g) in
    App.shuffleGallery host (gm, w) = (Normal tt, (gm', w')) /\
    GalleryManager.galleries gm'
      = <[Z.to_nat (GalleryManager.activeGalleryIndex gm) := g']> (GalleryManager.galleries gm) /\
    store w' = GalleryDB.put (GalleryDB.galleryData g') (store w).
Proof.
  intros Hg Hne Hput. destruct (Gallery.isShuffled g) eqn:Hsh.
  - rewrite (shuffleGallery_off host gm w g Hg Hne Hsh), Hput. cbv zeta.
    eexists _, _, _. split; [reflexivity|].
    split; [rewrite galleries_displayMedia; by destruct gm|].
    unfold unshuffledGallery. by destruct w.
  - rewrite (shuffleGallery_on host gm w g Hg Hne Hsh), Hput. cbv zeta.
    eexists _, _, _. split; [reflexivity|].
    split; [rewrite galleries_displayMedia; by destruct gm|].
    unfold shuffledGallery. by destruct w.
Qed.

(** X19. The shuffle toggle keeps memory and store in agreement: from a
    state in which the store holds exactly the records of the galleries,
    [shuffleGallery] on an active gallery with media, the store accepting
    the write, flips the gallery's shuffle flag in memory and in its record
    and leaves id, name, folder and order of every gallery as they were, so
    that the store again holds exactly the records of the galleries. *)
Theorem shuffleGallery_persists host gm w g :
  persisted gm w ->
  GalleryManager.activeGallery gm = Some g ->
  Gallery.media g <> [] ->
  transactionThrows host (PutRequest (Gallery.id g)) = false ->
  exists gm' w' g',
    App.shuffleGallery host (gm, w) = (Normal tt, (gm', w')) /\
    persisted gm' w' /\
    GalleryManager.activeGallery gm' = Some g' /\
    Gallery.isShuffled g' = negb (Gallery.isShuffled g) /\
    GalleryDB.lookup (Gallery.id g) (store w')
      = Some (StoredGallery.mk (Gallery.id g) (Gallery.name g) (Gallery.directoryHandle g)
                               (Some (negb (Gallery.isShuffled g))) (Gallery.order g)).
Proof.
  intros (Hord & Hnd & Hsorted & Hrec) Hg Hne Hput.
  destruct (shuffleGallery_run host gm w g Hg Hne Hput) as (m & gm' & w' & Hrun & Hgs & Hst).
  cbv zeta in *.
  set (g' := Gallery.set_media (fun _ => m)
               (Gallery.set_isShuffled (negb (Gallery.isShuffled g)) g)) in *.
  set (a := Z.to_nat (GalleryManager.activeGalleryIndex gm)) in *.
  set (gs := GalleryManager.galleries gm) in *.
  pose proof (at_lt _ _ _ Hg) as Ha.
  apply at_Some in Hg as [Ha0 Hga]. fold a gs in Hga.
  assert (Hidx : GalleryManager.activeGalleryIndex gm' = GalleryManager.activeGalleryIndex gm).
  { revert Hrun. destruct (Gallery.isShuffled g) eqn:Hsh.
    - rewrite (shuffleGallery_off host gm w g) by (try apply at_Some; done). rewrite Hput.
      intros [= <- _]. rewrite activeGalleryIndex_displayMedia. by destruct gm.
    - rewrite (shuffleGallery_on host gm w g) by (try apply at_Some; done). rewrite Hput.
      intros [= <- _]. rewrite activeGalleryIndex_displayMedia. by destruct gm. }
  assert (Hmapid : map Gallery.id (<[a := g']> gs) = map Gallery.id gs).
  { change (map ?f ?l) with (f <$> l). rewrite list_fmap_insert.
    apply list_insert_id. by rewrite list_lookup_fmap, Hga. }
  assert (Hmapkey : map tabKey gs = map tabKey (<[a := g']> gs)).
  { change (map ?f ?l) with (f <$> l). rewrite list_fmap_insert.
    symmetry. apply list_insert_id. by rewrite list_lookup_fmap, Hga. }
  exists gm', w', g'. split; [exact Hrun|].
  split.
  { unfold persisted. rewrite Hgs, Hst, Hmapid.
    split; [by apply put_ordered|]. split; [done|].
    split; [by apply (sorted_by_key tabKey gs)|].
    intros r. rewrite (elem_of_put_ordered _ _ _ Hord), Hrec. split.
    - intros [->|[(g2 & Hg2 & ->) Hne2]].
      + exists g'. split; [|done]. apply list_elem_of_lookup. exists a.
        apply list_lookup_insert_eq. by eapply lookup_lt_Some.
      + exists g2. split; [|done]. apply list_elem_of_lookup in Hg2 as [k Hk].
        apply list_elem_of_lookup. exists k. rewrite list_lookup_insert_ne; [done|].
        intros <-. rewrite Hga in Hk. injection Hk as <-. by apply Hne2.
    - intros (g2 & Hg2 & ->). apply list_elem_of_lookup in Hg2 as [k Hk].
      destruct (decide (k = a)) as [->|Hka].
      + rewrite list_lookup_insert_eq in Hk by by eapply lookup_lt_Some.
        injection Hk as <-. by left.
      + rewrite list_lookup_insert_ne in Hk by done. right. split.
        * exists g2. split; [|done]. by eapply list_elem_of_lookup_2.
        * cbn. intros Heq. apply Hka.
          eapply (NoDup_lookup _ _ _ (Gallery.id g2) Hnd).
          -- change (map ?f ?l) with (f <$> l). by rewrite list_lookup_fmap, Hk.
          -- change (map ?f ?l) with (f <$> l). by rewrite list_lookup_fmap, Hga, Heq. }
  split.
  { unfold GalleryManager.activeGallery. rewrite Hidx, Hgs.
    rewrite at_Some_lookup by lia. fold a.
    apply list_lookup_insert_eq. by eapply lookup_lt_Some. }
  split; [done|].
  rewrite Hst, lookup_put. cbn. by rewrite Z.eqb_refl.
Qed.

Lemma shuffleGallery_persists_witness :
  persisted Demo.manager Demo.world /\
  exists gm' w' g',
    App.shuffleGallery Demo.host (Demo.manager, Demo.world) = (Normal tt, (gm', w')) /\
    persisted gm' w' /\
    GalleryManager.activeGallery gm' = Some g' /\
    Gallery.isShuffled g' = negb (Gallery.isShuffled Demo.holiday) /\
    GalleryDB.lookup (Gallery.id Demo.holiday) (store w')
      = Some (StoredGallery.mk (Gallery.id Demo.holiday) (Gallery.name Demo.holiday)
                               (Gallery.directoryHandle Demo.holiday)
                               (Some (negb (Gallery.isShuffled Demo.holiday)))
                               (Gallery.order Demo.holiday)).
Proof.
  assert (Hp : persisted Demo.manager Demo.world).
  { apply persisted_of_records; [reflexivity| |].
    - unfold storeOrdered. simpl. repeat constructor; simpl; lia.
    - simpl. repeat constructor; unfold tabKey; simpl; lia. }
  split; [exact Hp|].
  apply (shuffleGallery_persists Demo.host Demo.manager Demo.world Demo.holiday Hp eq_refl);
    [discriminate | reflexivity].
Defined.

(** ** Scanning a folder *)

Lemma FsEntry_nested_ind (P : FsEntry -> Prop) :
  (forall name getFile, P (FileHandle name getFile)) ->
  (forall name entries, Forall P entries -> P (DirectoryHandle name entries)) ->
  forall entry, P entry.
Proof.
  intros Hfile Hdir. fix IH 1. intros [name getFile|name entries].
  - apply Hfile.
  - apply Hdir. induction entries as [|e t IHt]; constructor; [apply IH|exact IHt].
Qed.

Lemma arrayIncludes_elem l s : Gallery.arrayIncludes l s = true <-> s ∈ l.
Proof.
  unfold Gallery.arrayIncludes. rewrite List.existsb_exists, list_elem_of_In. split.
  - intros (x & Hx & Heq). apply String.eqb_eq in Heq. by subst.
  - intros Hs. exists s. split; [done|]. apply String.eqb_refl.
Qed.

Lemma supported_disjoint s :
  s ∈ Gallery.supportedVideo -> Gallery.arrayIncludes Gallery.supportedImage s = false.
Proof.
  unfold Gallery.supportedVideo. intros H.
  repeat (apply elem_of_cons in H as [->|H]; [reflexivity|]).
  by apply elem_of_nil in H.
Qed.

Lemma elem_of_flat_map {A B} (f : A -> list B) (l : list A) y :
  y ∈ flat_map f l <-> exists x, x ∈ l /\ y ∈ f x.
Proof.
  rewrite list_elem_of_In, List.in_flat_map. split; intros (x & H1 & H2); exists x;
    by rewrite ?list_elem_of_In in *.
Qed.

Lemma scanEntry_holds entry : forall path sf,
  sf ∈ Gallery.scanEntry path entry <->
  holds path entry (Gallery.entry_name sf) (Gallery.entry_getFile sf) (Gallery.scanned_path sf) /\
  ((Gallery.dotExtension (Gallery.entry_name sf) ∈ Gallery.supportedImage /\
    Gallery.scanned_type sf = image) \/
   (Gallery.dotExtension (Gallery.entry_name sf) ∈ Gallery.supportedVideo /\
    Gallery.scanned_type sf = video)).
Proof.
  induction entry as [name getFile|name entries IH] using FsEntry_nested_ind; intros path sf.
  - cbn [Gallery.scanEntry].
    destruct (Gallery.arrayIncludes Gallery.supportedImage (Gallery.dotExtension name)) eqn:Himg;
      [|destruct (Gallery.arrayIncludes Gallery.supportedVideo (Gallery.dotExtension name)) eqn:Hvid];
      cbn [orb].
    + apply arrayIncludes_elem in Himg. rewrite list_elem_of_singleton. split.
      * intros ->. cbn. split; [constructor|by left].
      * intros [Hh Hty]. inversion Hh; subst.
        assert (Hty' : Gallery.scanned_type sf = image).
        { destruct Hty as [[_ ?]|[Hv _]]; [done|].
          apply supported_disjoint in Hv. apply arrayIncludes_elem in Himg. congruence. }
        clear Himg Hty Hh. destruct sf; cbn in *. by subst.
    + apply arrayIncludes_elem in Hvid. rewrite list_elem_of_singleton. split.
      * intros ->. cbn. split; [constructor|by right].
      * intros [Hh Hty]. inversion Hh; subst.
        assert (Hty' : Gallery.scanned_type sf = video).
        { destruct Hty as [[Hi _]|[_ ?]]; [|done].
          apply arrayIncludes_elem in Hi. congruence. }
        clear Himg Hvid Hty Hh. destruct sf; cbn in *. by subst.
    + split; [by intros ?%elem_of_nil|].
      intros [Hh Hty]. inversion Hh; subst.
      destruct Hty as [[Hi _]|[Hv _]]; apply arrayIncludes_elem in Hi || apply arrayIncludes_elem in Hv;
        congruence.
  - cbn [Gallery.scanEntry]. rewrite elem_of_flat_map. split.
    + intros (e & He & Hsf). rewrite Forall_forall in IH.
      apply (IH e He) in Hsf as [Hh Hty]. split; [|done].
      by eapply holds_directory.
    + intros [Hh Hty]. inversion Hh; subst. rewrite Forall_forall in IH.
      exists entry. split; [done|]. by apply IH.
Qed.

(** X20. What a scan finds. The list [scanDirectoryRecursive] returns for
    a folder holds an element for a file exactly when the file lies
    somewhere in the tree under the folder and the part of its name behind
    the last dot, in lower case, is one of the six image or three video
    extensions; the element carries the file's handle, its name, as path
    the directory names down to the file joined by [/], and as type
    [image] or [video] according to the list the extension is in. *)
Theorem scan_finds_supported_files entries path sf :
  sf ∈ Gallery.scanDirectoryRecursive entries path <->
  exists entry,
    entry ∈ entries /\
    holds path entry (Gallery.entry_name sf) (Gallery.entry_getFile sf)
          (Gallery.scanned_path sf) /\
    ((Gallery.dotExtension (Gallery.entry_name sf)
        ∈ [".jpg"; ".jpeg"; ".png"; ".gif"; ".webp"; ".bmp"]%string /\
      Gallery.scanned_type sf = image) \/
     (Gallery.dotExtension (Gallery.entry_name sf) ∈ [".mp4"; ".webm"; ".ogg"]%string /\
      Gallery.scanned_type sf = video)).
Proof.
  unfold Gallery.scanDirectoryRecursive. rewrite elem_of_flat_map.
  split; intros (entry & He & H); exists entry; (split; [done|]); by apply scanEntry_holds.
Qed.

Lemma string_app_assoc (s1 s2 s3 : string) :
  (s1 ++ (s2 ++ s3))%string = ((s1 ++ s2) ++ s3)%string.
Proof.
  induction s1 as [|c s1 IH]; [by rewrite !append_empty|].
  by rewrite !append_cons, IH.
Qed.

Lemma dotExtension_suffix pre suf :
  JsString.includes "." suf = false ->
  Gallery.dotExtension (pre ++ String "." suf)%string
  = String "." (JsString.toLowerCase suf).
Proof.
  intros Hsuf. unfold Gallery.dotExtension.
  rewrite (pop_split_last "." pre suf Hsuf). cbn [default].
  by rewrite append_cons, append_empty.
Qed.

Lemma dotExtension_generatedName file iso :
  JsString.includes "." (App.resolveExtension file) = false ->
  Gallery.dotExtension (App.generatedName file iso)
  = String "." (JsString.toLowerCase (App.resolveExtension file)).
Proof.
  intros Hext. unfold App.generatedName.
  rewrite string_app_assoc.
  change ("." ++ App.resolveExtension file)%string with (String "." (App.resolveExtension file)).
  by apply dotExtension_suffix.
Qed.

(** X21. Which saved files a later scan shows. A file saved by
    [saveFileToActiveGallery] is named prefix, timestamp, dot, extension;
    when the extension holds no dot, a scan that meets a file of that name
    classifies it by that extension alone, in lower case: it is listed as
    an image for one of the six image extensions and as a video for one of
    the three video extensions, whatever prefix the MIME type gave the
    name, and it is not listed at all for any other extension, so a file
    saved with the fallback extension [bin], or as [mkv] or [mov] (which
    the MIME table produces), never appears in the gallery. *)
Theorem saved_file_scanned file iso path getFile :
  let name := App.generatedName file iso in
  let extension := String "." (JsString.toLowerCase (App.resolveExtension file)) in
  JsString.includes "." (App.resolveExtension file) = false ->
  Gallery.scanEntry path (FileHandle name getFile)
  = (if Gallery.arrayIncludes [".jpg"; ".jpeg"; ".png"; ".gif"; ".webp"; ".bmp"]%string extension
     then [Gallery.mkScanned name getFile (Gallery.joinPath path name) image]
     else if Gallery.arrayIncludes [".mp4"; ".webm"; ".ogg"]%string extension
     then [Gallery.mkScanned name getFile (Gallery.joinPath path name) video]
     else []) /\
  (App.resolveExtension file ∈ ["bin"; "mkv"; "mov"]%string ->
   Gallery.scanEntry path (FileHandle name getFile) = []).
Proof.
  intros name extension Hext.
  assert (Hscan : Gallery.scanEntry path (FileHandle name getFile)
    = (if Gallery.arrayIncludes Gallery.supportedImage extension
       then [Gallery.mkScanned name getFile (Gallery.joinPath path name) image]
       else if Gallery.arrayIncludes Gallery.supportedVideo extension
       then [Gallery.mkScanned name getFile (Gallery.joinPath path name) video]
       else [])).
  { pose proof (dotExtension_generatedName file iso Hext) as Hd.
    fold name extension in Hd. cbn [Gallery.scanEntry]. rewrite !Hd.
    destruct (Gallery.arrayIncludes Gallery.supportedImage extension); [done|].
    by destruct (Gallery.arrayIncludes Gallery.supportedVideo extension). }
  split; [exact Hscan|].
  intros Hin. rewrite Hscan. unfold extension.
  repeat (apply elem_of_cons in Hin as [->|Hin]; [reflexivity|]).
  by apply elem_of_nil in Hin.
Qed.

Lemma saved_file_scanned_witness :
  let name := App.generatedName Demo.clip "2024-01-15T10:30:45.123Z" in
  let extension := String "." (JsString.toLowerCase (App.resolveExtension Demo.clip)) in
  name = "video2024-01-15T10-30-45-123Z.webm"%string /\
  Gallery.scanEntry "" (FileHandle name (Resolved Demo.clip))
  = (if Gallery.arrayIncludes [".jpg"; ".jpeg"; ".png"; ".gif"; ".webp"; ".bmp"]%string extension
     then [Gallery.mkScanned name (Resolved Demo.clip) (Gallery.joinPath "" name) image]
     else if Gallery.arrayIncludes [".mp4"; ".webm"; ".ogg"]%string extension
     then [Gallery.mkScanned name (Resolved Demo.clip) (Gallery.joinPath "" name) video]
     else []) /\
  (App.resolveExtension Demo.clip ∈ ["bin"; "mkv"; "mov"]%string ->
   Gallery.scanEntry "" (FileHandle name (Resolved Demo.clip)) = []).
Proof.
  split; [reflexivity|].
  exact (saved_file_scanned Demo.clip "2024-01-15T10:30:45.123Z" "" (Resolved Demo.clip) eq_refl).
Defined.

(** ** Object URLs of a scan *)

Lemma collect_url_list entries : forall u,
  map Media.url (collect entries u) = seq u (length (List.filter readable entries)).
Proof.
  induction entries as [|e t IH]; intros u; [done|].
  cbn [collect List.filter]. unfold readable at 1.
  destruct (Gallery.entry_getFile e); [|apply IH].
  cbn [map length seq Media.url]. by rewrite IH.
Qed.

Lemma scan_media_urls host g w (l : list Media.t) :
  l ≡ₚ collect (scanned host g) (nextObjectURL w) ->
  length l = length (List.filter readable (scanned host g)) /\
  map Media.url l ≡ₚ seq (nextObjectURL w) (length l).
Proof.
  intros Hp.
  assert (Hlen : length l = length (List.filter readable (scanned host g))).
  { rewrite Hp, <- (length_map Media.url), collect_url_list. apply length_seq. }
  split; [done|]. rewrite Hlen, <- collect_url_list.
  change (map ?f ?x) with (f <$> x). by rewrite Hp.
Qed.

(** X22. The books of a scan. [loadMedia] always completes and only ever
    replaces the media of the gallery. When read-write access is verified
    it leaves one descriptor per file of the scan that could be read (a
    file that cannot be read is dropped), their object URLs are the next
    unused ones, pairwise distinct, and all of them are live afterwards
    beside those that were live before. When access is not verified
    (denied, or a permission call rejected) it leaves no media, creates no
    URL and draws no random number. In no case does it touch the store or
    write a file. *)
Theorem loadMedia_object_urls host g w :
  let after := Gallery.loadMedia host (g, w) in
  let g' := fst (snd after) in
  let w' := snd (snd after) in
  fst after = Normal tt /\
  Gallery.set_media (fun _ => Gallery.media g) g' = g /\
  (verifies host (Gallery.directoryHandle g) readwrite = Normal true ->
   length (Gallery.media g') = length (List.filter readable (scanned host g)) /\
   map Media.url (Gallery.media g')
     ≡ₚ seq (nextObjectURL w) (length (Gallery.media g')) /\
   NoDup (map Media.url (Gallery.media g')) /\
   objectURLs w' = list_to_set (map Media.url (Gallery.media g')) ∪ objectURLs w /\
   nextObjectURL w' = (length (Gallery.media g') + nextObjectURL w)%nat) /\
  (verifies host (Gallery.directoryHandle g) readwrite <> Normal true ->
   Gallery.media g' = [] /\ objectURLs w' = objectURLs w /\
   nextObjectURL w' = nextObjectURL w /\ randomCalls w' = randomCalls w) /\
  permissionCalls w'
    = permissionCalls w ++ verifyCalls host (Gallery.directoryHandle g) readwrite /\
  store w' = store w /\ writtenFiles w' = writtenFiles w /\ clockReads w' = clockReads w.
Proof.
  cbv zeta.
  destruct (verifies_true_or_not host (Gallery.directoryHandle g) readwrite) as [Hv|Hv].
  - rewrite (loadMedia_granted host g w Hv).
    assert (Hmedia : exists l,
      l ≡ₚ collect (scanned host g) (nextObjectURL w) /\
      (if Gallery.isShuffled g
       then (Normal tt,
             (Gallery.set_media
                (fun _ => fisherYates host (length (scanResult host g w) - 1)
                                      (scanResult host g w) (randomCalls w)) g,
              advanceRandom (length (scanResult host g w) - 1) (afterScan host g w)))
       else (Normal tt,
             (Gallery.set_media (fun _ => scanResult host g w) g, afterScan host g w)))
      = (Normal tt, (Gallery.set_media (fun _ => l) g,
                     if Gallery.isShuffled g
                     then advanceRandom (length (scanResult host g w) - 1) (afterScan host g w)
                     else afterScan host g w))).
    { destruct (Gallery.isShuffled g); eexists; (split; [|reflexivity]).
      - rewrite fisherYates_Permutation. apply sort_Permutation.
      - apply sort_Permutation. }
    destruct Hmedia as (l & Hl & ->). cbn [fst snd Gallery.media Gallery.set_media].
    destruct (scan_media_urls host g w l Hl) as [Hlen Hurls].
    set (w1 := if Gallery.isShuffled g
               then advanceRandom (length (scanResult host g w) - 1) (afterScan host g w)
               else afterScan host g w).
    assert (Hw1 : objectURLs w1 = list_to_set (seq (nextObjectURL w) (length l)) ∪ objectURLs w /\
                  nextObjectURL w1 = (length l + nextObjectURL w)%nat /\
                  permissionCalls w1
                    = permissionCalls w ++ verifyCalls host (Gallery.directoryHandle g) readwrite /\
                  store w1 = store w /\ writtenFiles w1 = writtenFiles w /\
                  clockReads w1 = clockReads w).
    { unfold w1, afterScan. rewrite <- Hlen. destruct (Gallery.isShuffled g); by destruct w. }
    destruct Hw1 as (U1 & U2 & U3 & U4 & U5 & U6).
    split; [done|]. split; [by destruct g|]. split.
    { intros _. split; [done|]. split; [done|]. split.
      - rewrite Hurls. apply NoDup_seq.
      - split; [|done]. rewrite U1. f_equal. apply set_eq. intros u.
        rewrite !elem_of_list_to_set. by rewrite Hurls. }
    split; [done|]. done.
  - rewrite (loadMedia_not_granted host g w Hv). cbn [fst snd Gallery.media Gallery.set_media].
    split; [done|]. split; [by destruct g|]. split; [done|].
    split; [intros _; by destruct w|]. by destruct w.
Qed.

Lemma loadMedia_effects host g w :
  let after := Gallery.loadMedia host (g, w) in
  let g' := fst (snd after) in
  let w' := snd (snd after) in
  Gallery.set_media (fun _ => Gallery.media g) g' = g /\
  (verifies host (Gallery.directoryHandle g) readwrite = Normal true ->
   length (Gallery.media g') = length (List.filter readable (scanned host g))) /\
  permissionCalls w'
    = permissionCalls w ++ verifyCalls host (Gallery.directoryHandle g) readwrite /\
  store w' = store w /\ writtenFiles w' = writtenFiles w /\ clockReads w' = clockReads w.
Proof.
  cbv zeta.
  destruct (verifies_true_or_not host (Gallery.directoryHandle g) readwrite) as [Hv|Hv].
  - rewrite (loadMedia_granted host g w Hv).
    destruct (Gallery.isShuffled g); cbn [fst snd Gallery.media Gallery.set_media].
    + split; [by destruct g|]. split; [|by destruct w].
      intros _. apply (scan_media_urls host g w).
      rewrite fisherYates_Permutation. apply sort_Permutation.
    + split; [by destruct g|]. split; [|by destruct w].
      intros _. apply (scan_media_urls host g w). apply sort_Permutation.
  - rewrite (loadMedia_not_granted host g w Hv). cbn [fst snd Gallery.media Gallery.set_media].
    split; [by destruct g|]. split; [done|by destruct w].
Qed.

(** ** Importing files *)

Lemma saveFileToActiveGallery_cases host file gm w :
  App.saveFileToActiveGallery host file (gm, w)
  = match GalleryManager.activeGallery gm with
    | None => (Throw "No active gallery selected", (gm, w))
    | Some g =>
        let h := Gallery.directoryHandle g in
        let w1 := afterCalls (verifyCalls host h readwrite) w in
        let filename := App.generatedName file (toISOString host (clockReads w)) in
        match verifies host h readwrite with
        | Throw e => (Throw e, (gm, w1))
        | Normal false => (Throw "Write permission denied for gallery directory", (gm, w1))
        | Normal true =>
            if writeThrows host h filename
            then (Throw "NotAllowedError", (gm, set_clockReads S w1))
            else (Normal tt,
                  (gm, set_writtenFiles (fun l => l ++ [(h, filename, file)])
                         (set_clockReads S w1)))
        end
    end.
Proof.
  unfold App.saveFileToActiveGallery.
  unfold bind at 1. unfold getThis at 1. cbn [fst snd].
  destruct (GalleryManager.activeGallery gm) as [g|]; [|reflexivity].
  unfold bind at 1. unfold liftWorld at 1. cbn [fst snd].
  rewrite (Gallery_verifyPermission_run host _ true). cbv zeta.
  destruct (verifies host (Gallery.directoryHandle g) readwrite) as [[]|e];
    [|reflexivity|reflexivity].
  cbn [negb].
  unfold bind at 1. unfold liftWorld at 1, Web.nowISOString. cbn [fst snd].
  unfold bind at 1. unfold get at 1. unfold bind at 1. unfold modify at 1. unfold ret at 1.
  replace (clockReads (afterCalls _ w)) with (clockReads w) by (by destruct w).
  unfold try_catch.
  destruct (writeThrows host _ _); reflexivity.
Qed.

(** X23. When a file is written. [saveFileToActiveGallery] completes
    normally exactly when a gallery is active, the verification of
    read-write access to its folder returns true and the write does not
    throw; then exactly one file has been written, into that folder, and
    in every other case none. Without an active gallery it throws before
    asking for any permission; after a verification that returns false it
    throws without reading the clock; a rejected permission call is thrown
    on as it is. It never changes the manager, the store or the object
    URLs. *)
Theorem saveFileToActiveGallery_outcome host file gm w :
  let after := App.saveFileToActiveGallery host file (gm, w) in
  let w' := snd (snd after) in
  let filename := App.generatedName file (toISOString host (clockReads w)) in
  fst (snd after) = gm /\ store w' = store w /\ objectURLs w' = objectURLs w /\
  (fst after = Normal tt <->
   exists g, GalleryManager.activeGallery gm = Some g /\
             verifies host (Gallery.directoryHandle g) readwrite = Normal true /\
             writeThrows host (Gallery.directoryHandle g) filename = false) /\
  (forall g, GalleryManager.activeGallery gm = Some g -> fst after = Normal tt ->
     writtenFiles w' = writtenFiles w ++ [(Gallery.directoryHandle g, filename, file)]) /\
  (fst after <> Normal tt -> writtenFiles w' = writtenFiles w) /\
  (GalleryManager.activeGallery gm = None ->
   after = (Throw "No active gallery selected", (gm, w))) /\
  (forall g, GalleryManager.activeGallery gm = Some g ->
     verifies host (Gallery.directoryHandle g) readwrite = Normal false ->
     fst after = Throw "Write permission denied for gallery directory" /\
     clockReads w' = clockReads w) /\
  (forall g e, GalleryManager.activeGallery gm = Some g ->
     verifies host (Gallery.directoryHandle g) readwrite = Throw e ->
     fst after = Throw e /\ clockReads w' = clockReads w).
Proof.
  cbv zeta. rewrite saveFileToActiveGallery_cases.
  destruct (GalleryManager.activeGallery gm) as [g|] eqn:Hg.
  - cbv zeta.
    destruct (verifies host (Gallery.directoryHandle g) readwrite) as [[]|e] eqn:Hv.
    + destruct (writeThrows host _ _) eqn:Hw; cbn [fst snd].
      * split; [done|]. split; [by destruct w|]. split; [by destruct w|].
        split; [split; [done|intros (g0 & [= <-] & _ & ?); congruence]|].
        split; [done|]. split; [intros _; by destruct w|].
        split; [done|]. split; [intros g0 [= <-] ?; congruence|intros g0 e0 [= <-] ?; congruence].
      * split; [done|]. split; [by destruct w|]. split; [by destruct w|].
        split; [split; [intros _; by exists g|done]|].
        split; [intros g0 [= <-] _; by destruct w|]. split; [done|].
        split; [done|]. split; [intros g0 [= <-] ?; congruence|intros g0 e0 [= <-] ?; congruence].
    + cbn [fst snd].
      split; [done|]. split; [by destruct w|]. split; [by destruct w|].
      split; [split; [done|intros (g0 & [= <-] & ? & _); congruence]|].
      split; [done|]. split; [intros _; by destruct w|].
      split; [done|].
      split; [intros g0 [= <-] _; split; [done|by destruct w]|intros g0 e0 [= <-] ?; congruence].
    + cbn [fst snd].
      split; [done|]. split; [by destruct w|]. split; [by destruct w|].
      split; [split; [done|intros (g0 & [= <-] & ? & _); congruence]|].
      split; [done|]. split; [intros _; by destruct w|].
      split; [done|].
      split; [intros g0 [= <-] ?; congruence|].
      intros g0 e0 [= <-] He. rewrite Hv in He. injection He as <-.
      split; [done|by destruct w].
  - cbn [fst snd].
    split; [done|]. split; [done|]. split; [done|].
    split; [split; [done|by intros (g0 & ? & _)]|].
    split; [done|]. split; [done|]. split; [done|]. split; by intros.
Qed.

Lemma import_loop host g gm files : forall w,
  GalleryManager.activeGallery gm = Some g ->
  verifies host (Gallery.directoryHandle g) readwrite = Normal true ->
  exists w',
    for_of files (fun file =>
      try_catch (App.saveFileToActiveGallery host file) (fun _ => ret tt)) (gm, w)
    = (Normal tt, (gm, w')) /\
    writtenFiles w'
      = writtenFiles w ++ imported host (Gallery.directoryHandle g) files (clockReads w) /\
    clockReads w' = (length files + clockReads w)%nat /\
    permissionCalls w'
      = permissionCalls w
        ++ concat (replicate (length files)
                             (verifyCalls host (Gallery.directoryHandle g) readwrite)) /\
    store w' = store w /\ objectURLs w' = objectURLs w /\
    nextObjectURL w' = nextObjectURL w /\ randomCalls w' = randomCalls w.
Proof.
  induction files as [|file rest IH]; intros w Hg Hv.
  - exists w. cbn. rewrite !app_nil_r. by repeat split.
  - cbn [for_of]. unfold bind at 1. unfold try_catch at 1.
    rewrite saveFileToActiveGallery_cases, Hg. cbv zeta. rewrite Hv.
    set (w1 := set_clockReads S (afterCalls _ w)).
    set (filename := App.generatedName file (toISOString host (clockReads w))).
    assert (Hstep : exists w2,
      (if writeThrows host (Gallery.directoryHandle g) filename
       then (Throw "NotAllowedError", (gm, w1))
       else (Normal tt,
             (gm, set_writtenFiles
                    (fun l => l ++ [(Gallery.directoryHandle g, filename, file)]) w1)))
      = (if writeThrows host (Gallery.directoryHandle g) filename
         then Throw "NotAllowedError" else Normal tt, (gm, w2)) /\
      writtenFiles w2
        = writtenFiles w ++ (if writeThrows host (Gallery.directoryHandle g) filename
                             then [] else [(Gallery.directoryHandle g, filename, file)]) /\
      clockReads w2 = S (clockReads w) /\
      permissionCalls w2
        = permissionCalls w ++ verifyCalls host (Gallery.directoryHandle g) readwrite /\
      store w2 = store w /\ objectURLs w2 = objectURLs w /\
      nextObjectURL w2 = nextObjectURL w /\ randomCalls w2 = randomCalls w).
    { destruct (writeThrows host _ _); eexists; (split; [reflexivity|]);
        unfold w1; destruct w; cbn; rewrite ?app_nil_r; by repeat split. }
    destruct Hstep as (w2 & -> & W1 & W2 & W3 & W4 & W5 & W6 & W7).
    destruct (IH w2 Hg Hv) as (w' & Hrun & V1 & V2 & V3 & V4 & V5 & V6 & V7).
    exists w'. split.
    { destruct (writeThrows host _ _); unfold ret; cbn [fst snd]; exact Hrun. }
    cbn [imported length replicate concat]. fold filename.
    rewrite V1, V2, V3, V4, V5, V6, V7, W1, W2, W3, W4, W5, W6, W7.
    rewrite <- !app_assoc. repeat split; try done. lia.
Qed.

Lemma refreshActiveGallery_run host gm w g :
  GalleryManager.activeGallery gm = Some g ->
  exists m w',
    Gallery.loadMedia host (g, w) = (Normal tt, (Gallery.set_media (fun _ => m) g, w')) /\
    App.refreshActiveGallery host (gm, w)
    = (Normal tt,
       (GalleryManager.displayMedia 0
          (App.updateActiveGallery (Gallery.set_media (fun _ => m) g) gm), w')).
Proof.
  intros Hg. destruct (loadMedia_shape host g w) as (m & w' & Hload).
  exists m, w'. split; [exact Hload|].
  unfold App.refreshActiveGallery.
  unfold bind at 1. unfold getThis at 1. cbn [fst snd]. rewrite Hg.
  unfold bind at 1. unfold onGallery at 1. cbn [fst snd]. rewrite Hload.
  reflexivity.
Qed.

(** X24. A drop is a batch that no failure stops. With a gallery active
    and read-write access to its folder verified, [handleDrop] completes
    normally whatever the writes do; the files whose write does not throw
    are written into the folder in the order they were dropped, each under
    the name made from its own reading of the clock, and a file whose
    write throws is skipped without stopping the others; every file costs
    one verification of the permission and one reading of the clock; then
    the folder is scanned again and the view is put on the first item.
    The store and the tabs are not touched. *)
Theorem handleDrop_batch host files gm w g :
  GalleryManager.activeGallery gm = Some g ->
  verifies host (Gallery.directoryHandle g) readwrite = Normal true ->
  exists gm' w' g',
    App.handleDrop host files (gm, w) = (Normal tt, (gm', w')) /\
    writtenFiles w'
      = writtenFiles w ++ imported host (Gallery.directoryHandle g) files (clockReads w) /\
    clockReads w' = (length files + clockReads w)%nat /\
    permissionCalls w'
      = permissionCalls w
        ++ concat (replicate (S (length files))
                             (verifyCalls host (Gallery.directoryHandle g) readwrite)) /\
    store w' = store w /\
    GalleryManager.activeGalleryIndex gm' = GalleryManager.activeGalleryIndex gm /\
    GalleryManager.activeGallery gm' = Some g' /\
    Gallery.set_media (fun _ => Gallery.media g) g' = g /\
    length (Gallery.media g') = length (List.filter readable (scanned host g)) /\
    (Gallery.media g' <> [] -> GalleryManager.activeMediaIndex gm' = 0) /\
    (forall k : nat, Z.of_nat k <> GalleryManager.activeGalleryIndex gm ->
       GalleryManager.galleries gm' !! k = GalleryManager.galleries gm !! k).
Proof.
  intros Hg Hv. unfold App.handleDrop. unfold bind.
  destruct (import_loop host g gm files w Hg Hv)
    as (w1 & -> & W1 & W2 & W3 & W4 & W5 & W6 & W7).
  destruct (refreshActiveGallery_run host gm w1 g Hg) as (m & w' & Hload & ->).
  pose proof (loadMedia_effects host g w1) as Hbooks. cbv zeta in Hbooks.
  rewrite Hload in Hbooks. cbn [fst snd] in Hbooks.
  destruct Hbooks as (Hsame & Hgranted & P1 & P2 & P3 & P4).
  pose proof (Hgranted Hv) as Hlen.
  set (g' := Gallery.set_media (fun _ => m) g) in *.
  set (gm1 := App.updateActiveGallery g' gm).
  assert (Hg1 : GalleryManager.activeGallery gm1 = Some g') by by eapply activeGallery_update.
  exists (GalleryManager.displayMedia 0 gm1), w', g'.
  split; [reflexivity|].
  split; [by rewrite P3|]. split; [by rewrite P4|].
  split.
  { rewrite P1, W3, <- app_assoc. f_equal.
    replace (S (length files)) with (length files + 1)%nat by lia.
    rewrite replicate_add, concat_app. cbn. by rewrite app_nil_r. }
  split; [by rewrite P2|].
  split; [rewrite activeGalleryIndex_displayMedia; by destruct gm|].
  split; [by rewrite activeGallery_displayMedia|].
  split; [done|]. split; [done|]. split.
  - intros Hne. rewrite (displayMedia_in_range 0 gm1 g' Hg1); [by destruct gm|].
    destruct (Gallery.media g'); [done|simpl; lia].
  - intros k Hk. rewrite galleries_displayMedia. by eapply galleries_update_other.
Qed.

Lemma handleDrop_batch_witness :
  exists gm' w' g',
    App.handleDrop Demo.host [Demo.clip; Demo.fileA] (Demo.manager, Demo.world)
      = (Normal tt, (gm', w')) /\
    writtenFiles w'
      = writtenFiles Demo.world
        ++ imported Demo.host (Gallery.directoryHandle Demo.holiday) [Demo.clip; Demo.fileA]
                    (clockReads Demo.world) /\
    clockReads w' = (length [Demo.clip; Demo.fileA] + clockReads Demo.world)%nat /\
    permissionCalls w'
      = permissionCalls Demo.world
        ++ concat (replicate (S (length [Demo.clip; Demo.fileA]))
                     (verifyCalls Demo.host (Gallery.directoryHandle Demo.holiday) readwrite)) /\
    store w' = store Demo.world /\
    GalleryManager.activeGalleryIndex gm' = GalleryManager.activeGalleryIndex Demo.manager /\
    GalleryManager.activeGallery gm' = Some g' /\
    Gallery.set_media (fun _ => Gallery.media Demo.holiday) g' = Demo.holiday /\
    length (Gallery.media g') = length (List.filter readable (scanned Demo.host Demo.holiday)) /\
    (Gallery.media g' <> [] -> GalleryManager.activeMediaIndex gm' = 0) /\
    (forall k : nat, Z.of_nat k <> GalleryManager.activeGalleryIndex Demo.manager ->
       GalleryManager.galleries gm' !! k = GalleryManager.galleries Demo.manager !! k).
Proof.
  exact (handleDrop_batch Demo.host [Demo.clip; Demo.fileA] Demo.manager Demo.world Demo.holiday
           eq_refl eq_refl).
Defined.


(** ** Selecting a gallery *)

Lemma selectGallery_out k gm :
  ~ 0 <= k < GalleryManager.length_ gm -> GalleryManager.selectGallery k gm = gm.
Proof.
  intros Hk. unfold GalleryManager.selectGallery.
  destruct (k <? 0) eqn:E1; [done|]. apply Z.ltb_ge in E1.
  destruct (GalleryManager.length_ gm <=? k) eqn:E2; [done|]. apply Z.leb_gt in E2. lia.
Qed.

Lemma selectGallery_in k gm :
  0 <= k < GalleryManager.length_ gm ->
  GalleryManager.selectGallery k gm
  = GalleryManager.mk (GalleryManager.galleries gm) k 0 false (-1).
Proof.
  intros Hk. destruct (selectGallery_in_range k gm Hk) as (S1 & S2 & S3 & S4 & S5).
  destruct (GalleryManager.selectGallery k gm); simpl in *. by subst.
Qed.

Lemma selectionValid_selected gs k p q :
  0 <= k < Z.of_nat (length gs) -> selectionValid (GalleryManager.mk gs k 0 p q).
Proof.
  intros Hk. right. unfold GalleryManager.activeGallery. cbn.
  rewrite at_Some_lookup by lia.
  destruct (gs !! Z.to_nat k) as [g|] eqn:Hg; [|apply lookup_ge_None in Hg; lia].
  exists g. split; [done|]. destruct (Gallery.media g); [by left|right; simpl; lia].
Qed.

Lemma selectionValid_selectGallery k gm :
  selectionValid gm -> selectionValid (GalleryManager.selectGallery k gm).
Proof.
  intros Hvalid.
  destruct (Z.le_gt_cases 0 k) as [H0|H0];
    [destruct (Z.lt_ge_cases k (GalleryManager.length_ gm)) as [H1|H1]|].
  - rewrite selectGallery_in by done. by apply selectionValid_selected.
  - rewrite selectGallery_out by lia. done.
  - rewrite selectGallery_out by lia. done.
Qed.

(** X26. [selectGallery] with an index outside the array does nothing;
    with an index inside it makes that gallery the active one, shown from
    its first item in sequential mode with no previous index recorded,
    whatever was selected before; it never changes the array of galleries;
    it leaves a valid selection (the media index 0 is a position of the
    media list unless the list is empty); and selecting the same tab twice
    is the same as selecting it once. *)
Theorem selectGallery_selects k gm :
  GalleryManager.galleries (GalleryManager.selectGallery k gm) = GalleryManager.galleries gm /\
  (~ 0 <= k < GalleryManager.length_ gm -> GalleryManager.selectGallery k gm = gm) /\
  (0 <= k < GalleryManager.length_ gm ->
   GalleryManager.selectGallery k gm
     = GalleryManager.mk (GalleryManager.galleries gm) k 0 false (-1) /\
   GalleryManager.activeGallery (GalleryManager.selectGallery k gm)
     = GalleryManager.galleries gm !! Z.to_nat k /\
   selectionValid (GalleryManager.selectGallery k gm)) /\
  (selectionValid gm -> selectionValid (GalleryManager.selectGallery k gm)) /\
  GalleryManager.selectGallery k (GalleryManager.selectGallery k gm)
    = GalleryManager.selectGallery k gm.
Proof.
  split; [apply selectGallery_galleries|]. split; [apply selectGallery_out|].
  split; [|split; [apply selectionValid_selectGallery|]].
  - intros Hk. rewrite selectGallery_in by done. split; [done|]. split.
    + unfold GalleryManager.activeGallery. cbn. apply at_Some_lookup. lia.
    + by apply selectionValid_selected.
  - destruct (Z.le_gt_cases 0 k) as [H0|H0];
      [destruct (Z.lt_ge_cases k (GalleryManager.length_ gm)) as [H1|H1]|].
    + rewrite (selectGallery_in k gm) by done. by rewrite selectGallery_in.
    + by rewrite !(selectGallery_out k gm) by lia.
    + by rewrite !(selectGallery_out k gm) by lia.
Qed.

(** ** What every action preserves *)

Lemma selectionValid_ext gm gm' :
  GalleryManager.galleries gm' = GalleryManager.galleries gm ->
  GalleryManager.activeGalleryIndex gm' = GalleryManager.activeGalleryIndex gm ->
  GalleryManager.activeMediaIndex gm' = GalleryManager.activeMediaIndex gm ->
  selectionValid gm -> selectionValid gm'.
Proof.
  intros H1 H2 H3. unfold selectionValid, GalleryManager.activeGallery.
  by rewrite H1, H2, H3.
Qed.

Lemma selectionValid_none gs p q r : selectionValid (GalleryManager.mk gs (-1) p q r).
Proof. by left. Qed.

Lemma selectionValid_in_range gm :
  selectionValid gm ->
  GalleryManager.activeGalleryIndex gm = -1 \/
  0 <= GalleryManager.activeGalleryIndex gm < GalleryManager.length_ gm.
Proof.
  intros [H|(g & Hg & _)]; [by left|right]. by apply at_lt in Hg.
Qed.

Lemma closeGallery_throws host gm w i g :
  JsArray.at_ (GalleryManager.galleries gm) i = Some g ->
  transactionThrows host (DeleteRequest (Gallery.id g)) = true ->
  GalleryManager.closeGallery host i (gm, w)
  = (Throw "InvalidStateError", (gm, afterRevoke (map Media.url (Gallery.media g)) w)).
Proof.
  intros Hg Hdel. unfold GalleryManager.closeGallery.
  unfold bind at 1. unfold getThis at 1. cbn [fst snd]. rewrite Hg.
  unfold bind at 1. unfold liftWorld at 1. cbn [fst snd]. rewrite revoke_all.
  unfold bind at 1. unfold liftWorld at 1. cbn [fst snd].
  unfold GalleryDB.deleteGallery, GalleryDB.transaction. by rewrite Hdel.
Qed.

Lemma closeGallery_wellFormed host i s :
  wellFormed s -> wellFormed (snd (GalleryManager.closeGallery host i s)).
Proof.
  destruct s as [gm w]. intros [Hvalid Hord]. cbn [fst snd] in *.
  destruct (JsArray.at_ (GalleryManager.galleries gm) i) as [g|] eqn:Hg.
  2:{ unfold GalleryManager.closeGallery.
      unfold bind at 1. unfold getThis at 1. cbn [fst snd]. by rewrite Hg. }
  destruct (transactionThrows host (DeleteRequest (Gallery.id g))) eqn:Hdel.
  { rewrite (closeGallery_throws host gm w i g Hg Hdel). split; [done|by destruct w]. }
  rewrite (closeGallery_run host gm w i g Hg Hdel). cbv zeta. cbn [fst snd].
  split; [|destruct w; by apply delete_ordered].
  pose proof (at_lt _ _ _ Hg) as Hi.
  pose proof (spliceDelete1_length _ _ _ Hg) as Hlen.
  set (gs := JsArray.spliceDelete1 (GalleryManager.galleries gm) i) in *.
  destruct (0 <? Z.of_nat (length gs)) eqn:E; [|destruct gm; by left].
  apply Z.ltb_lt in E.
  set (a' := reselected i (GalleryManager.activeGalleryIndex gm) (Z.of_nat (length gs))).
  set (gm2 := GalleryManager.set_activeGalleryIndex a'
                (GalleryManager.set_galleries (fun _ => gs) gm)).
  assert (Hgm2 : GalleryManager.length_ gm2 = Z.of_nat (length gs)) by by destruct gm.
  destruct (selectionValid_in_range gm Hvalid) as [Hnone|Hin].
  - assert (a' = -1) as Ha'.
    { unfold a', reselected. rewrite Hnone.
      destruct (i <? -1) eqn:E1; [apply Z.ltb_lt in E1; lia|].
      destruct (i =? -1) eqn:E2; [apply Z.eqb_eq in E2; lia|done]. }
    rewrite selectGallery_out by lia. unfold gm2. rewrite Ha'. destruct gm; by left.
  - unfold GalleryManager.length_ in Hin.
    assert (Ha' : 0 <= a' < Z.of_nat (length gs)).
    { unfold a', reselected. destruct (i <? _) eqn:E1; [apply Z.ltb_lt in E1; lia|].
      apply Z.ltb_ge in E1. destruct (i =? _) eqn:E2; [apply Z.eqb_eq in E2; lia|].
      apply Z.eqb_neq in E2. lia. }
    rewrite selectGallery_in by lia. apply selectionValid_selected.
    replace (GalleryManager.galleries gm2) with gs by by destruct gm. done.
Qed.

Lemma createGallery_wellFormed host now name h s :
  wellFormed s -> wellFormed (snd (App.createGallery host now name h s)).
Proof.
  destruct s as [gm w]. intros [Hvalid Hord]. cbn [fst snd] in *.
  unfold App.createGallery. destruct name as [|c name]; [done|]. destruct h as [h|]; [|done].
  destruct (createGallery_run host now (String c name) h gm w) as (m & w1 & Hload & ->).
  pose proof (loadMedia_keeps_store host
    (Gallery.set_order (Some (GalleryManager.length_ gm))
       (Gallery.constructor now (String c name) h)) w) as Hk.
  rewrite Hload in Hk. cbn [fst snd] in Hk.
  destruct (transactionThrows host (PutRequest now)); unfold wellFormed; cbn [fst snd].
  - split; [done|by rewrite Hk].
  - split.
    + rewrite selectGallery_in.
      * apply selectionValid_selected. destruct gm; cbn. rewrite length_app. simpl.
        unfold GalleryManager.length_. simpl. lia.
      * unfold GalleryManager.length_. destruct gm; cbn. rewrite length_app. simpl. lia.
    + destruct w1; cbn in *. rewrite Hk. by apply put_ordered.
Qed.

Lemma save_loop_ordered host gs : forall w,
  storeOrdered (store w) ->
  storeOrdered (store (snd (for_of gs (GalleryDB.saveGallery host) w))).
Proof.
  induction gs as [|g t IH]; intros w Hw; [done|].
  cbn [for_of]. unfold bind.
  destruct (transactionThrows host (PutRequest (Gallery.id g))) eqn:Hput.
  - by rewrite saveGallery_throws.
  - rewrite saveGallery_run by done. apply IH. destruct w; cbn. by apply put_ordered.
Qed.

Lemma reordered_active gs from to g a :
  JsArray.at_ gs from = Some g ->
  0 <= to < Z.of_nat (length gs) ->
  0 <= a < Z.of_nat (length gs) ->
  JsArray.at_ (reordered gs from to g) (movedActive from to a)
  = Gallery.set_order (Some (movedActive from to a)) <$> JsArray.at_ gs a.
Proof.
  intros Hg Hto Ha. rewrite <- (moved_lookup gs from to a g Hg Hto Ha).
  unfold reordered, JsArray.mapIndexed.
  set (l := JsArray.spliceInsert _ _ _). set (k := movedActive from to a).
  unfold JsArray.at_. destruct (k <? 0) eqn:E; [done|]. apply Z.ltb_ge in E.
  rewrite list_lookup_imap. destruct (l !! Z.to_nat k); [|done].
  simpl. by rewrite Z2Nat.id.
Qed.

Lemma movedActive_none from to :
  0 <= from -> 0 <= to -> movedActive from to (-1) = -1.
Proof.
  intros Hfrom Hto. unfold movedActive.
  destruct (Z.eqb_spec (-1) from); [lia|].
  destruct (Z.ltb_spec from (-1)), (Z.leb_spec (-1) to); cbn [andb]; try lia;
    destruct (Z.ltb_spec (-1) from), (Z.leb_spec to (-1)); cbn [andb]; lia.
Qed.

Lemma handleTabDrop_wellFormed host from to s :
  0 <= from < GalleryManager.length_ (fst s) ->
  0 <= to < GalleryManager.length_ (fst s) ->
  wellFormed s -> wellFormed (snd (GalleryManager.handleTabDrop host from to s)).
Proof.
  destruct s as [gm w]. cbn [fst]. unfold GalleryManager.length_.
  intros Hfrom Hto [Hvalid Hord]. cbn [fst snd] in *.
  destruct (Z.eq_dec from to) as [->|Hne].
  { unfold GalleryManager.handleTabDrop. by rewrite Z.eqb_refl. }
  destruct (JsArray.at_ (GalleryManager.galleries gm) from) as [g|] eqn:Hg.
  2:{ rewrite at_Some_lookup in Hg by lia. apply lookup_ge_None in Hg. lia. }
  rewrite (handleTabDrop_any host gm w from to g Hne Hg).
  unfold wellFormed. cbn [fst snd]. split; [|by apply save_loop_ordered].
  destruct (selectionValid_in_range gm Hvalid) as [Hnone|Hin].
  - left. cbn [GalleryManager.activeGalleryIndex]. rewrite Hnone.
    apply movedActive_none; lia.
  - unfold GalleryManager.length_ in Hin.
    destruct Hvalid as [Hnone|(g0 & Hg0 & Hmedia)]; [lia|].
    right. exists (Gallery.set_order
                     (Some (movedActive from to (GalleryManager.activeGalleryIndex gm))) g0).
    split; [|done].
    unfold GalleryManager.activeGallery in *. cbn.
    by rewrite (reordered_active _ from to g _ Hg Hto Hin), Hg0.
Qed.

Lemma selectionValid_update gm g g' :
  GalleryManager.activeGallery gm = Some g ->
  length (Gallery.media g') = length (Gallery.media g) ->
  selectionValid gm -> selectionValid (App.updateActiveGallery g' gm).
Proof.
  intros Hg Hlen [Hnone|(g0 & Hg0 & Hmedia)].
  - apply at_lt in Hg. lia.
  - right. exists g'. split; [by eapply activeGallery_update|].
    rewrite Hg in Hg0. injection Hg0 as <-.
    replace (GalleryManager.activeMediaIndex (App.updateActiveGallery g' gm))
      with (GalleryManager.activeMediaIndex gm) by by destruct gm.
    rewrite Hlen. destruct Hmedia as [Hempty|Hin]; [|by right].
    left. apply length_zero_iff_nil. by rewrite Hlen, Hempty.
Qed.

Lemma shuffleGallery_wellFormed host s :
  wellFormed s -> wellFormed (snd (App.shuffleGallery host s)).
Proof.
  destruct s as [gm w]. intros [Hvalid Hord]. cbn [fst snd] in *.
  destruct (GalleryManager.activeGallery gm) as [g|] eqn:Hg.
  2:{ unfold App.shuffleGallery, bind, getThis. cbn [fst snd]. by rewrite Hg. }
  destruct (Gallery.media g) as [|m0 ms] eqn:Hmedia.
  { unfold App.shuffleGallery, bind, getThis. cbn [fst snd]. by rewrite Hg, Hmedia. }
  assert (Hne : Gallery.media g <> []) by by rewrite Hmedia.
  assert (Hkeep : forall g' w', length (Gallery.media g') = length (Gallery.media g) ->
            store w' = store w ->
            wellFormed (snd (if transactionThrows host (PutRequest (Gallery.id g))
                             then (@Throw unit "InvalidStateError",
                                   (App.updateActiveGallery g' gm, w'))
                             else (Normal tt,
                                   (GalleryManager.displayMedia 0 (App.updateActiveGallery g' gm),
                                    set_store (GalleryDB.put (GalleryDB.galleryData g')) w'))))).
  { intros g' w' Hlen Hst.
    pose proof (selectionValid_update gm g g' Hg Hlen Hvalid) as Hv1.
    destruct (transactionThrows host _); unfold wellFormed; cbn [fst snd].
    - split; [done|by rewrite Hst].
    - split; [by apply keepsSelection_displayMedia|].
      destruct w'; cbn in *. rewrite Hst. by apply put_ordered. }
  destruct (Gallery.isShuffled g) eqn:Hsh.
  - rewrite (shuffleGallery_off host gm w g Hg Hne Hsh). cbv zeta. apply Hkeep; [|done].
    unfold unshuffledGallery. cbn. apply sort_length.
  - rewrite (shuffleGallery_on host gm w g Hg Hne Hsh). cbv zeta. apply Hkeep; [|by destruct w].
    unfold shuffledGallery. cbn. apply Permutation_length, fisherYates_Permutation.
Qed.

Lemma import_loop_any host gm files : forall w,
  exists w',
    for_of files (fun file =>
      try_catch (App.saveFileToActiveGallery host file) (fun _ => ret tt)) (gm, w)
    = (Normal tt, (gm, w')) /\
    store w' = store w.
Proof.
  induction files as [|file rest IH]; intros w; [by exists w|].
  cbn [for_of]. unfold bind at 1. unfold try_catch at 1.
  rewrite saveFileToActiveGallery_cases.
  assert (Hstep : exists w1,
    (let '(c, s') :=
       match
         match GalleryManager.activeGallery gm with
         | Some g =>
             let h := Gallery.directoryHandle g in
             let w1 := afterCalls (verifyCalls host h readwrite) w in
             let filename := App.generatedName file (toISOString host (clockReads w)) in
             match verifies host h readwrite with
             | Normal true =>
                 if writeThrows host h filename
                 then (Throw "NotAllowedError", (gm, set_clockReads S w1))
                 else (Normal tt,
                       (gm, set_writtenFiles (fun l => l ++ [(h, filename, file)])
                              (set_clockReads S w1)))
             | Normal false => (Throw "Write permission denied for gallery directory", (gm, w1))
             | Throw e => (Throw e, (gm, w1))
             end
         | None => (Throw "No active gallery selected", (gm, w))
         end
       with
       | (Normal a, s') => (Normal a, s')
       | (Throw e, s') => ret tt s'
       end in
     match c with
     | Normal _ =>
         for_of rest (fun file0 =>
           try_catch (App.saveFileToActiveGallery host file0) (fun _ => ret tt)) s'
     | Throw e => (Throw e, s')
     end)
    = for_of rest (fun file0 =>
        try_catch (App.saveFileToActiveGallery host file0) (fun _ => ret tt)) (gm, w1) /\
    store w1 = store w).
  { destruct (GalleryManager.activeGallery gm) as [g|]; [|by exists w].
    cbv zeta. destruct (verifies host _ readwrite) as [[]|e].
    - destruct (writeThrows host _ _); eexists; (split; [reflexivity|by destruct w]).
    - eexists; (split; [reflexivity|by destruct w]).
    - eexists; (split; [reflexivity|by destruct w]). }
  destruct Hstep as (w1 & -> & Hw1).
  destruct (IH w1) as (w' & -> & Hw'). exists w'. split; [done|congruence].
Qed.

Lemma refreshActiveGallery_wellFormed host s :
  wellFormed s -> wellFormed (snd (App.refreshActiveGallery host s)).
Proof.
  destruct s as [gm w]. intros [Hvalid Hord]. cbn [fst snd] in *.
  destruct (GalleryManager.activeGallery gm) as [g|] eqn:Hg.
  2:{ unfold App.refreshActiveGallery, bind, getThis. cbn [fst snd]. by rewrite Hg. }
  destruct (refreshActiveGallery_run host gm w g Hg) as (m & w' & Hload & ->).
  pose proof (loadMedia_keeps_store host g w) as Hk. rewrite Hload in Hk. cbn [fst snd] in Hk.
  unfold wellFormed. cbn [fst snd]. split; [|by rewrite Hk].
  set (g' := Gallery.set_media (fun _ => m) g).
  set (gm1 := App.updateActiveGallery g' gm).
  assert (Hg1 : GalleryManager.activeGallery gm1 = Some g') by by eapply activeGallery_update.
  right. exists g'. split; [by rewrite activeGallery_displayMedia|].
  destruct (Gallery.media g') as [|m0 ms] eqn:Hm; [by left|right].
  rewrite (displayMedia_in_range 0 gm1 g' Hg1) by (rewrite Hm; simpl; lia).
  destruct gm; simpl. lia.
Qed.

Lemma handleDrop_wellFormed host files s :
  wellFormed s -> wellFormed (snd (App.handleDrop host files s)).
Proof.
  destruct s as [gm w]. intros [Hvalid Hord]. unfold App.handleDrop, bind.
  destruct (import_loop_any host gm files w) as (w1 & -> & Hw1).
  apply refreshActiveGallery_wellFormed. split; [done|]. cbn [snd]. by rewrite Hw1.
Qed.

Lemma handlePaste_wellFormed host data s :
  wellFormed s -> wellFormed (snd (App.handlePaste host data s)).
Proof.
  intros Hs. destruct data as [items|]; [|done].
  unfold App.handlePaste. destruct (App.pastedFiles items) as [|f t] eqn:Hfiles; [done|].
  change (Z.of_nat (length (f :: t)) =? 0) with false. cbv iota.
  by apply (handleDrop_wellFormed host (f :: t)).
Qed.

Lemma selectionValid_append gm loaded :
  selectionValid gm ->
  selectionValid (GalleryManager.set_galleries (fun gs => gs ++ loaded) gm).
Proof.
  intros [Hnone|(g & Hg & Hmedia)]; [left; by destruct gm|].
  right. exists g. split; [|by destruct gm].
  unfold GalleryManager.activeGallery in *.
  replace (GalleryManager.activeGalleryIndex (GalleryManager.set_galleries _ gm))
    with (GalleryManager.activeGalleryIndex gm) by by destruct gm.
  replace (GalleryManager.galleries (GalleryManager.set_galleries (fun gs => gs ++ loaded) gm))
    with (GalleryManager.galleries gm ++ loaded) by by destruct gm.
  apply at_Some in Hg as [H0 Hg]. apply at_Some. split; [done|].
  by apply lookup_app_l_Some.
Qed.

Lemma loadStored_any host r gm w :
  exists c loaded w',
    GalleryManager.loadStored host r (gm, w)
    = (c, (GalleryManager.set_galleries (fun gs => gs ++ loaded) gm, w')).
Proof.
  assert (Hnil : GalleryManager.set_galleries (fun gs => gs ++ []) gm = gm).
  { destruct gm. unfold GalleryManager.set_galleries. simpl. by rewrite app_nil_r. }
  unfold GalleryManager.loadStored.
  unfold bind at 1. unfold liftWorld at 1. cbn [fst snd].
  rewrite (GalleryManager_verifyPermission_run host _ true). cbv zeta.
  destruct (verifies host _ readwrite) as [[]|e].
  - fold (fromRecord r). set (w1 := afterCalls _ w).
    destruct (loadMedia_shape host (fromRecord r) w1) as (m & w' & Hrun).
    exists (Normal tt), [Gallery.set_media (fun _ => m) (fromRecord r)], w'.
    unfold bind, onGallery, setThis. cbn [fst snd]. by rewrite Hrun.
  - eexists (Normal tt), [], _. by rewrite Hnil.
  - eexists (Throw e), [], _. by rewrite Hnil.
Qed.

Lemma loadStored_loop_any host rs : forall gm w,
  exists c loaded w',
    for_of rs (GalleryManager.loadStored host) (gm, w)
    = (c, (GalleryManager.set_galleries (fun gs => gs ++ loaded) gm, w')).
Proof.
  induction rs as [|r t IH]; intros gm w.
  - exists (Normal tt), [], w. destruct gm. unfold GalleryManager.set_galleries. simpl.
    by rewrite app_nil_r.
  - cbn [for_of]. unfold bind.
    destruct (loadStored_any host r gm w) as (c & l1 & w1 & ->).
    destruct c as [[]|e].
    + destruct (IH (GalleryManager.set_galleries (fun gs => gs ++ l1) gm) w1)
        as (c & l2 & w2 & ->).
      exists c, (l1 ++ l2), w2. by rewrite set_galleries_app.
    + by exists (Throw e), l1, w1.
Qed.

Lemma loadFromStorage_wellFormed host s :
  wellFormed s -> wellFormed (snd (GalleryManager.loadFromStorage host s)).
Proof.
  destruct s as [gm w]. intros [Hvalid Hord]. cbn [fst snd] in *.
  pose proof (loadStored_loop_keeps_store host
                (JsArray.sort GalleryManager.bySavedOrder (store w)) gm w) as Hk.
  unfold GalleryManager.loadFromStorage, try_catch.
  unfold bind at 1. unfold liftWorld at 1. cbn [fst snd].
  unfold GalleryDB.loadGalleries, GalleryDB.transaction.
  destruct (transactionThrows host GetAllRequest); [done|].
  unfold bind at 1. unfold bind at 1. unfold ret at 1. unfold get at 1. unfold ret at 1.
  unfold bind at 1.
  destruct (loadStored_loop_any host (JsArray.sort GalleryManager.bySavedOrder (store w)) gm w)
    as (c & loaded & w' & Hloop).
  rewrite Hloop in Hk |- *. cbn [fst snd] in Hk.
  pose proof (selectionValid_append gm loaded Hvalid) as Hv1.
  destruct c as [[]|e]; unfold wellFormed.
  - unfold bind, getThis. cbn [fst snd].
    destruct (0 <? _); unfold setThis, ret; cbn [fst snd].
    + split; [by apply selectionValid_selectGallery|by rewrite Hk].
    + split; [done|by rewrite Hk].
  - unfold ret. cbn [fst snd]. split; [done|by rewrite Hk].
Qed.

Lemma navigates_wellFormed host s s' :
  navigates host s s' -> wellFormed s -> wellFormed s'.
Proof.
  intros Hnav [Hvalid Hord].
  apply (navigates_keeps host) in Hnav as [(_ & _ & Hk) (Hst & _)].
  split; [by apply Hk|by rewrite Hst].
Qed.

Lemma acts_wellFormed host s s' : acts host s s' -> wellFormed s -> wellFormed s'.
Proof.
  destruct 1 as [s|now name h s|i s|k gm w|from to s Hfrom Hto|s s' Hnav|s|files s|data s].
  - apply loadFromStorage_wellFormed.
  - apply createGallery_wellFormed.
  - apply closeGallery_wellFormed.
  - intros [Hvalid Hord]. split; [by apply selectionValid_selectGallery|done].
  - by apply handleTabDrop_wellFormed.
  - by apply (navigates_wellFormed host).
  - apply shuffleGallery_wellFormed.
  - apply handleDrop_wellFormed.
  - apply handlePaste_wellFormed.
Qed.

(** X27. Two things hold in every state the application can reach. From
    the fresh manager with a store in key order, whatever sequence of
    actions follows (loading the stored galleries, creating and closing
    galleries, clicking and moving tabs, navigating, shuffling, dropping
    and pasting files) and whichever of them fail (a store that throws, a
    permission that is denied or rejects, a write that throws), the
    selection is valid afterwards: no gallery is selected, or the active
    index denotes a gallery and the media index a position of its media
    list (unless that list is empty); and the store is still in key order
    with one record per key. *)
Theorem reachable_states_well_formed host s s' :
  wellFormed s ->
  rtc (acts host) s s' ->
  selectionValid (fst s') /\ storeOrdered (store (snd s')).
Proof.
  intros Hs Hsteps. induction Hsteps as [s|s1 s2 s3 Hstep _ IH]; [done|].
  apply IH. by eapply acts_wellFormed.
Qed.

Lemma reachable_states_well_formed_witness :
  wellFormed (GalleryManager.constructor, Demo.startWorld) /\
  exists s',
    rtc (acts Demo.pickyHost) (GalleryManager.constructor, Demo.startWorld) s' /\
    selectionValid (fst s') /\ storeOrdered (store (snd s')).
Proof.
  assert (Hstart : wellFormed (GalleryManager.constructor, Demo.startWorld)).
  { split; [by left|]. unfold storeOrdered. simpl. repeat constructor; simpl; lia. }
  split; [exact Hstart|].
  assert (Hsteps : rtc (acts Demo.pickyHost) (GalleryManager.constructor, Demo.startWorld)
            (snd (App.shuffleGallery Demo.pickyHost
               (snd (GalleryManager.closeGallery Demo.pickyHost 0
                  (snd (GalleryManager.loadFromStorage Demo.pickyHost
                     (GalleryManager.constructor, Demo.startWorld)))))))).
  { eapply rtc_l; [apply act_load|]. eapply rtc_l; [apply act_close|].
    apply rtc_once. apply act_shuffle. }
  eexists. split; [exact Hsteps|].
  exact (reachable_states_well_formed Demo.pickyHost _ _ Hstart Hsteps).
Defined.

(** ** Start-up that fails midway *)

(** X28. [loadFromStorage] never throws and never changes the store, and
    what it has loaded stays. When the store cannot be read nothing
    changes at all. When a permission call rejects for one of the records
    (taken in their saved order), the galleries of the records before it
    whose access was granted have been appended and stay in the array,
    the records behind it are not tried, and no gallery is selected: the
    active index is the one from before the call. *)
Theorem loadFromStorage_stops_quietly host gm w pre bad post e :
  transactionThrows host GetAllRequest = false ->
  JsArray.sort GalleryManager.bySavedOrder (store w) = pre ++ bad :: post ->
  Forall (fun r => exists b, verifies host (StoredGallery.directoryHandle r) readwrite = Normal b)
         pre ->
  verifies host (StoredGallery.directoryHandle bad) readwrite = Throw e ->
  (exists gm' w' loaded,
     GalleryManager.loadFromStorage host (gm, w) = (Normal tt, (gm', w')) /\
     GalleryManager.galleries gm' = GalleryManager.galleries gm ++ loaded /\
     Forall2 (restoredFrom host)
             (List.filter (fun r => grants host (StoredGallery.directoryHandle r)) pre) loaded /\
     GalleryManager.activeGalleryIndex gm' = GalleryManager.activeGalleryIndex gm /\
     GalleryManager.activeMediaIndex gm' = GalleryManager.activeMediaIndex gm /\
     store w' = store w) /\
  (forall host' s, fst (GalleryManager.loadFromStorage host' s) = Normal tt /\
                   store (snd (snd (GalleryManager.loadFromStorage host' s))) = store (snd s)) /\
  (forall host' s, transactionThrows host' GetAllRequest = true ->
                   GalleryManager.loadFromStorage host' s = (Normal tt, s)).
Proof.
  intros Hget Hsort Hpre Hbad. split; [|split].
  - pose proof (loadStored_loop_keeps_store host
                  (JsArray.sort GalleryManager.bySavedOrder (store w)) gm w) as Hk.
    unfold GalleryManager.loadFromStorage, try_catch.
    unfold bind at 1. unfold liftWorld at 1. cbn [fst snd].
    unfold GalleryDB.loadGalleries, GalleryDB.transaction. rewrite Hget.
    unfold bind at 1. unfold bind at 1. unfold ret at 1. unfold get at 1. unfold ret at 1.
    unfold bind at 1. rewrite Hsort in Hk |- *.
    rewrite for_of_app in Hk |- *.
    destruct (loadStored_loop host pre Hpre gm w) as (loaded & w1 & Hloop & Hrest).
    rewrite Hloop in Hk |- *. cbn [for_of] in Hk |- *. unfold bind at 1 in Hk. unfold bind at 1.
    rewrite (loadStored_rejected host bad _ w1 e Hbad) in Hk |- *. cbn [fst snd] in Hk.
    eexists _, _, loaded. split; [reflexivity|].
    split; [by destruct gm|]. split; [done|]. split; [by destruct gm|].
    split; [by destruct gm|done].
  - intros host' [gm0 w0]. cbn [snd].
    assert (H : exists gm' w',
              GalleryManager.loadFromStorage host' (gm0, w0) = (Normal tt, (gm', w')) /\
              store w' = store w0).
    { pose proof (loadStored_loop_keeps_store host'
                    (JsArray.sort GalleryManager.bySavedOrder (store w0)) gm0 w0) as Hk.
      unfold GalleryManager.loadFromStorage, try_catch.
      unfold bind at 1. unfold liftWorld at 1. cbn [fst snd].
      unfold GalleryDB.loadGalleries, GalleryDB.transaction.
      destruct (transactionThrows host' GetAllRequest); [by eexists _, _|].
      unfold bind at 1. unfold bind at 1. unfold ret at 1. unfold get at 1. unfold ret at 1.
      unfold bind at 1.
      destruct (for_of _ _ _) as [[[]|e0] [gm1 w1]]; cbn [fst snd] in *.
      - unfold bind, getThis. cbn [fst snd].
        destruct (0 <? _); unfold setThis, ret; cbn [fst snd]; by eexists _, _.
      - unfold ret. by eexists _, _. }
    destruct H as (gm' & w' & -> & Hst). by split.
  - intros host' [gm0 w0] Hthrow.
    unfold GalleryManager.loadFromStorage, try_catch.
    unfold bind at 1. unfold liftWorld at 1. cbn [fst snd].
    unfold GalleryDB.loadGalleries, GalleryDB.transaction. by rewrite Hthrow.
Qed.

Lemma loadFromStorage_stops_quietly_witness :
  let pre := [StoredGallery.mk 1700000000001 "Work" 8%nat None None] in
  let bad := StoredGallery.mk 1700000000002 "Pets" 9%nat (Some true) (Some 1) in
  let post := [StoredGallery.mk 1700000000000 "Holiday" 7%nat (Some false) (Some 2)] in
  JsArray.sort GalleryManager.bySavedOrder (store Demo.startWorld) = pre ++ bad :: post /\
  (exists gm' w' loaded,
     GalleryManager.loadFromStorage Demo.moodyHost (GalleryManager.constructor, Demo.startWorld)
       = (Normal tt, (gm', w')) /\
     GalleryManager.galleries gm' = GalleryManager.galleries GalleryManager.constructor ++ loaded /\
     Forall2 (restoredFrom Demo.moodyHost)
             (List.filter (fun r => grants Demo.moodyHost (StoredGallery.directoryHandle r)) pre)
             loaded /\
     GalleryManager.activeGalleryIndex gm'
       = GalleryManager.activeGalleryIndex GalleryManager.constructor /\
     GalleryManager.activeMediaIndex gm'
       = GalleryManager.activeMediaIndex GalleryManager.constructor /\
     store w' = store Demo.startWorld) /\
  (forall host' s, fst (GalleryManager.loadFromStorage host' s) = Normal tt /\
                   store (snd (snd (GalleryManager.loadFromStorage host' s))) = store (snd s)) /\
  (forall host' s, transactionThrows host' GetAllRequest = true ->
                   GalleryManager.loadFromStorage host' s = (Normal tt, s)).
Proof.
  cbv zeta. split; [reflexivity|].
  apply (loadFromStorage_stops_quietly Demo.moodyHost GalleryManager.constructor Demo.startWorld
           [StoredGallery.mk 1700000000001 "Work" 8%nat None None]
           (StoredGallery.mk 1700000000002 "Pets" 9%nat (Some true) (Some 1))
           [StoredGallery.mk 1700000000000 "Holiday" 7%nat (Some false) (Some 2)]
           "NotFoundError");
    [reflexivity | reflexivity | repeat constructor; by exists true | reflexivity].
Defined.

(** ** A shuffle the store refuses *)

(** X29. When the store refuses the write, [shuffleGallery] ends with the
    store's exception after the toggle has been made in memory: the active
    gallery holds the same media in the new arrangement with its shuffle
    flag flipped, the media index is not reset, and the store still holds
    the record with the old flag, so that memory and store, if they agreed
    before, no longer agree: a restart brings the gallery back with the
    old flag. *)
Theorem shuffleGallery_store_failure host gm w g :
  GalleryManager.activeGallery gm = Some g ->
  Gallery.media g <> [] ->
  transactionThrows host (PutRequest (Gallery.id g)) = true ->
  exists gm' w' g',
    App.shuffleGallery host (gm, w) = (Throw "InvalidStateError", (gm', w')) /\
    GalleryManager.activeGallery gm' = Some g' /\
    Gallery.isShuffled g' = negb (Gallery.isShuffled g) /\
    Gallery.media g' ≡ₚ Gallery.media g /\
    Gallery.id g' = Gallery.id g /\
    GalleryManager.activeMediaIndex gm' = GalleryManager.activeMediaIndex gm /\
    store w' = store w /\
    (persisted gm w ->
     GalleryDB.lookup (Gallery.id g) (store w')
       = Some (StoredGallery.mk (Gallery.id g) (Gallery.name g) (Gallery.directoryHandle g)
                                (Some (Gallery.isShuffled g)) (Gallery.order g)) /\
     ~ persisted gm' w').
Proof.
  intros Hg Hne Hput.
  assert (Hrun : exists g' w',
    App.shuffleGallery host (gm, w)
      = (Throw "InvalidStateError", (App.updateActiveGallery g' gm, w')) /\
    Gallery.isShuffled g' = negb (Gallery.isShuffled g) /\
    Gallery.media g' ≡ₚ Gallery.media g /\
    Gallery.id g' = Gallery.id g /\ store w' = store w).
  { destruct (Gallery.isShuffled g) eqn:Hsh.
    - rewrite (shuffleGallery_off host gm w g Hg Hne Hsh), Hput. cbv zeta.
      eexists _, _. split; [reflexivity|]. unfold unshuffledGallery. cbn.
      split; [done|]. split; [apply sort_Permutation|done].
    - rewrite (shuffleGallery_on host gm w g Hg Hne Hsh), Hput. cbv zeta.
      eexists _, _. split; [reflexivity|]. unfold shuffledGallery. cbn.
      split; [done|]. split; [apply fisherYates_Permutation|]. split; [done|by destruct w]. }
  destruct Hrun as (g' & w' & -> & Hflag & Hperm & Hid & Hst).
  pose proof (activeGallery_update g' gm g Hg) as Hg'.
  exists (App.updateActiveGallery g' gm), w', g'.
  split; [done|]. split; [done|]. split; [done|]. split; [done|]. split; [done|].
  split; [by destruct gm|]. split; [done|].
  intros (Hord & Hnd & Hsorted & Hrec).
  assert (Hold : GalleryDB.lookup (Gallery.id g) (store w) = Some (GalleryDB.galleryData g)).
  { apply (lookup_ordered (store w) (GalleryDB.galleryData g) Hord).
    apply Hrec. exists g. split; [|done].
    apply at_Some in Hg as [_ Hg]. by eapply list_elem_of_lookup_2. }
  rewrite Hst. split; [exact Hold|].
  intros (Hord' & _ & _ & Hrec').
  assert (Hnew : GalleryDB.galleryData g' ∈ store w').
  { apply Hrec'. exists g'. split; [|done].
    apply at_Some in Hg' as [_ Hg']. by eapply list_elem_of_lookup_2. }
  rewrite Hst in Hnew. apply (lookup_ordered _ _ Hord) in Hnew.
  cbn [GalleryDB.galleryData StoredGallery.id] in Hnew. rewrite Hid, Hold in Hnew.
  assert (Hdata : GalleryDB.galleryData g = GalleryDB.galleryData g') by congruence.
  apply (f_equal StoredGallery.isShuffled) in Hdata.
  cbn in Hdata. rewrite Hflag in Hdata. by destruct (Gallery.isShuffled g).
Qed.

Lemma shuffleGallery_store_failure_witness :
  persisted Demo.manager Demo.world /\
  exists gm' w' g',
    App.shuffleGallery Faults.offlineHost (Demo.manager, Demo.world)
      = (Throw "InvalidStateError", (gm', w')) /\
    GalleryManager.activeGallery gm' = Some g' /\
    Gallery.isShuffled g' = negb (Gallery.isShuffled Demo.holiday) /\
    Gallery.media g' ≡ₚ Gallery.media Demo.holiday /\
    Gallery.id g' = Gallery.id Demo.holiday /\
    GalleryManager.activeMediaIndex gm' = GalleryManager.activeMediaIndex Demo.manager /\
    store w' = store Demo.world /\
    (persisted Demo.manager Demo.world ->
     GalleryDB.lookup (Gallery.id Demo.holiday) (store w')
       = Some (StoredGallery.mk (Gallery.id Demo.holiday) (Gallery.name Demo.holiday)
                                (Gallery.directoryHandle Demo.holiday)
                                (Some (Gallery.isShuffled Demo.holiday))
                                (Gallery.order Demo.holiday)) /\
     ~ persisted gm' w').
Proof.
  assert (Hp : persisted Demo.manager Demo.world).
  { apply persisted_of_records; [reflexivity| |].
    - unfold storeOrdered. simpl. repeat constructor; simpl; lia.
    - simpl. repeat constructor; unfold tabKey; simpl; lia. }
  split; [exact Hp|].
  apply (shuffleGallery_store_failure Faults.offlineHost Demo.manager Demo.world Demo.holiday
           eq_refl); [discriminate | reflexivity].
Defined.
